(** * Interview Coder: provider abstraction, answer classification and
      request lifecycle of [electron/ProcessingHelper.ts]

    The development embeds the newer revision of the [ProcessingHelper]
    class (the second class body of the source file): its string handling,
    the regular expressions of [formatDirectResponse], the three request
    builders and response extractors of [processScreenshotsHelper], the debug
    helper [processExtraScreenshotsHelper], and the mutable fields that
    [initializeAIClient], [processScreenshots] and [cancelOngoingRequests]
    update.

    JavaScript strings are sequences of UTF-16 code units; they are modelled
    as [list N].  Literals are written as in the source and decoded from the
    UTF-8 bytes of the Rocq string by [lit].

    Beside the class, the development embeds what the renderer does with
    the answers ([formatComplexity], [applySolutionState] and the handler of
    SOLUTION_SUCCESS of [Solutions.tsx]) and two helpers of the settings
    dialog ([handleProviderChange] and [maskApiKey]). *)

From Stdlib Require Import String Ascii.
From Stdlib Require Import List NArith Bool Arith Lia Setoid.
Import ListNotations.

Set Implicit Arguments.

(** ** JavaScript strings *)

Module Js.

Definition char := N.
Definition str := list char.

Definition cu (a : ascii) : char := N_of_ascii a.
Arguments cu a%_char.

(** UTF-8 bytes to UTF-16 code units (supplementary planes become surrogate
    pairs, as in a JavaScript source literal). *)
Definition cont (b : N) : N := N.land b 63.

Fixpoint utf16_of_utf8 (bs : list N) : str :=
  match bs with
  | [] => []
  | b0 :: r0 =>
    if (b0 <? 128)%N then b0 :: utf16_of_utf8 r0
    else if (b0 <? 224)%N then
      match r0 with
      | b1 :: r1 =>
        N.lor (N.shiftl (N.land b0 31) 6) (cont b1) :: utf16_of_utf8 r1
      | _ => []
      end
    else if (b0 <? 240)%N then
      match r0 with
      | b1 :: b2 :: r2 =>
        N.lor (N.shiftl (N.land b0 15) 12)
              (N.lor (N.shiftl (cont b1) 6) (cont b2)) :: utf16_of_utf8 r2
      | _ => []
      end
    else
      match r0 with
      | b1 :: b2 :: b3 :: r3 =>
        let cp := N.lor (N.shiftl (N.land b0 7) 18)
                  (N.lor (N.shiftl (cont b1) 12)
                  (N.lor (N.shiftl (cont b2) 6) (cont b3))) in
        let v := (cp - 65536)%N in
        (55296 + N.shiftr v 10)%N :: (56320 + N.land v 1023)%N
          :: utf16_of_utf8 r3
      | _ => []
      end
  end.

Definition lit (s : string) : str :=
  utf16_of_utf8 (map N_of_ascii (list_ascii_of_string s)).
Arguments lit s%_string.

Definition eqb_str (a b : str) : bool :=
  if list_eq_dec N.eq_dec a b then true else false.

(** Truthiness of a string: [if (s)] holds for every string but the empty
    one. *)
Definition truthy (s : str) : bool :=
  match s with [] => false | _ => true end.

(** [a || b] on strings. *)
Definition or_else (a b : str) : str := if truthy a then a else b.

(** White space and line terminators, the set removed by
    [String.prototype.trim] and matched by [\s]. *)
Definition is_ws (c : char) : bool :=
  ((9 <=? c) && (c <=? 13) || (c =? 32) || (c =? 160) || (c =? 5760)
   || (8192 <=? c) && (c <=? 8202) || (c =? 8232) || (c =? 8233)
   || (c =? 8239) || (c =? 8287) || (c =? 12288) || (c =? 65279))%N.

Fixpoint trimStart (s : str) : str :=
  match s with
  | c :: s' => if is_ws c then trimStart s' else s
  | [] => []
  end.

Definition trimEnd (s : str) : str := rev (trimStart (rev s)).

Definition trim (s : str) : str := trimEnd (trimStart s).

(** [String.prototype.toUpperCase] and [toLowerCase].  The program upper-cases
    only the captured letter of a multiple-choice answer and lower-cases only
    an error message that is then searched for the ASCII word "token"; the
    model is exact on ASCII and on the two code units outside ASCII whose
    lower case falls into ASCII (U+212A KELVIN SIGN, U+0130), and leaves every
    other code unit in place. *)
Definition upper_cu (c : char) : char :=
  if ((97 <=? c) && (c <=? 122))%N then (c - 32)%N else c.

Definition toUpperCase (s : str) : str := map upper_cu s.

Definition lower_cu (c : char) : str :=
  if ((65 <=? c) && (c <=? 90))%N then [(c + 32)%N]
  else if (c =? 8490)%N then [107%N]
  else if (c =? 304)%N then [105%N; 775%N]
  else [c].

Definition toLowerCase (s : str) : str := flat_map lower_cu s.

(** [prefix p s]: [s] starts with [p]; on success the rest of [s]. *)
Fixpoint strip_prefix (p s : str) : option str :=
  match p with
  | [] => Some s
  | x :: p' =>
    match s with
    | y :: s' => if (x =? y)%N then strip_prefix p' s' else None
    | [] => None
    end
  end.

(** [String.prototype.includes]. *)
Fixpoint includes (s needle : str) : bool :=
  match strip_prefix needle s with
  | Some _ => true
  | None => match s with [] => false | _ :: s' => includes s' needle end
  end.

(** [Array.prototype.join]. *)
Fixpoint join (sep : str) (l : list str) : str :=
  match l with
  | [] => []
  | [x] => x
  | x :: l' => x ++ sep ++ join sep l'
  end.

(** [Array.prototype.find]. *)
Fixpoint find_first {A} (p : A -> bool) (l : list A) : option A :=
  match l with
  | [] => None
  | x :: l' => if p x then Some x else find_first p l'
  end.

End Js.

Export Js.

(** ** Regular expressions

    A backtracking matcher in continuation-passing style for the fragment of
    JavaScript regular expressions the source uses: single code units from a
    class, sequence, ordered alternation, [?], greedy [*] and lazy [*?] over a
    class, capture groups and the anchors [^] and [$] (without the [m] flag).
    Positions are indices into the subject string; a capture is the substring
    between the indices at which its group was entered and left. *)

Module Regex.

Inductive regex : Type :=
| Empty
| Class (p : char -> bool)
| Seq (r1 r2 : regex)
| Alt (r1 r2 : regex)
| Opt (r : regex)
| Star (p : char -> bool)
| LazyStar (p : char -> bool)
| Group (n : nat) (r : regex)
| Bol
| Eol.

(** A literal string is the sequence of its code units. *)
Fixpoint Lit (s : str) : regex :=
  match s with
  | [] => Empty
  | c :: s' => Seq (Class (N.eqb c)) (Lit s')
  end.

(** The [i] flag compares canonicalized code units: a code unit below 128 is
    upper-cased, one from 128 on never canonicalizes into ASCII. *)
Definition canonicalize (c : char) : char :=
  if (c <? 128)%N then upper_cu c else c.

Definition ignore_case (p : char -> bool) (c : char) : bool :=
  p (canonicalize c).

(** A literal string under the [i] flag. *)
Fixpoint LitI (s : str) : regex :=
  match s with
  | [] => Empty
  | c :: s' =>
    Seq (Class (fun x => (canonicalize x =? canonicalize c)%N)) (LitI s')
  end.

(** Captures: the most recent binding of a group number comes first. *)
Definition captures := list (nat * str).

Definition no_captures : captures := [].

Definition set_capture (n : nat) (v : str) (c : captures) : captures :=
  (n, v) :: c.

Fixpoint get_capture (n : nat) (c : captures) : option str :=
  match c with
  | [] => None
  | (k, v) :: c' => if Nat.eqb k n then Some v else get_capture n c'
  end.

Section Matcher.

Variable R : Type.

(** A continuation receives the index reached, the rest of the subject and
    the captures so far. *)
Definition cont := nat -> str -> captures -> option R.

Fixpoint star (p : char -> bool) (i : nat) (s : str) (c : captures)
    (k : cont) : option R :=
  match s with
  | x :: s' =>
    if p x then
      match star p (S i) s' c k with
      | Some v => Some v
      | None => k i s c
      end
    else k i s c
  | [] => k i s c
  end.

Fixpoint lazy_star (p : char -> bool) (i : nat) (s : str) (c : captures)
    (k : cont) : option R :=
  match k i s c with
  | Some v => Some v
  | None =>
    match s with
    | x :: s' => if p x then lazy_star p (S i) s' c k else None
    | [] => None
    end
  end.

Fixpoint run (r : regex) (i : nat) (s : str) (c : captures) (k : cont)
    : option R :=
  match r with
  | Empty => k i s c
  | Class p =>
    match s with
    | x :: s' => if p x then k (S i) s' c else None
    | [] => None
    end
  | Seq r1 r2 => run r1 i s c (fun i1 s1 c1 => run r2 i1 s1 c1 k)
  | Alt r1 r2 =>
    match run r1 i s c k with
    | Some v => Some v
    | None => run r2 i s c k
    end
  | Opt r1 =>
    match run r1 i s c k with
    | Some v => Some v
    | None => k i s c
    end
  | Star p => star p i s c k
  | LazyStar p => lazy_star p i s c k
  | Group n r1 =>
    run r1 i s c (fun i1 s1 c1 => k i1 s1 (set_capture n (firstn (i1 - i) s) c1))
  | Bol => if Nat.eqb i 0 then k i s c else None
  | Eol => match s with [] => k i s c | _ :: _ => None end
  end.

End Matcher.

(** The result of [RegExp.prototype.exec] on a regular expression without
    the [g] and [y] flags: the index of the leftmost match, the matched
    substring and the captures. *)
Record match_result : Type := MatchResult
  { index : nat; matched : str; groups : captures }.

(** [m[n]] of a match array: the empty string stands for a group that took
    part in the match with nothing captured; a group that did not take part
    reads [undefined], which is falsy like the empty string. *)
Definition group (m : match_result) (n : nat) : str :=
  match get_capture n (groups m) with Some v => v | None => [] end.

Definition match_at (r : regex) (i : nat) (s : str) : option match_result :=
  run r i s no_captures
      (fun j _ c => Some (MatchResult i (firstn (j - i) s) c)).

Fixpoint exec_from (r : regex) (i : nat) (s : str) : option match_result :=
  match match_at r i s with
  | Some m => Some m
  | None =>
    match s with
    | [] => None
    | _ :: s' => exec_from r (S i) s'
    end
  end.

(** [s.match(r)] and [r.exec(s)]. *)
Definition exec (r : regex) (s : str) : option match_result :=
  exec_from r 0 s.

(** [r.test(s)]. *)
Definition test (r : regex) (s : str) : bool :=
  match exec r s with Some _ => true | None => false end.

(** [s.split(r)] for a separator without capture groups: the subject is
    scanned from left to right ([q]); a separator match at [q] that ends
    past the start [p] of the current piece closes the piece.  [piece] holds
    the code units of the current piece in reverse. *)
Fixpoint split_loop (fuel : nat) (r : regex) (q : nat) (s : str)
    (piece : str) : list str :=
  match fuel with
  | 0 => [rev piece ++ s]
  | S fuel' =>
    match s with
    | [] => [rev piece]
    | x :: s' =>
      match run r q s no_captures (fun j rest _ => Some (j, rest)) with
      | Some (e, rest) =>
        if (Nat.eqb e q && match piece with [] => true | _ => false end)%bool
        then split_loop fuel' r (S q) s' (x :: piece)
        else rev piece :: split_loop fuel' r e rest []
      | None => split_loop fuel' r (S q) s' (x :: piece)
      end
    end
  end.

Definition split (r : regex) (s : str) : list str :=
  match s with
  | [] => match match_at r 0 [] with Some _ => [] | None => [[]] end
  | _ => split_loop (2 * length s + 2) r 0 s []
  end.

(** [s.replace(r, replacement)] for [r] without the [g] flag and a
    replacement without [$]. *)
Definition replace (r : regex) (replacement s : str) : str :=
  match exec r s with
  | Some m =>
    firstn (index m) s ++ replacement
    ++ skipn (index m + length (matched m)) s
  | None => s
  end.

(** [s.match(r)] for [r] with the [g] flag: the matched substrings from left
    to right; the empty list stands for [null].  After an empty match the
    search moves one code unit on. *)
Fixpoint match_all_loop (fuel : nat) (r : regex) (i : nat) (s : str)
    : list str :=
  match fuel with
  | 0 => []
  | S fuel' =>
    match exec_from r i s with
    | None => []
    | Some m =>
      let e := index m + length (matched m) in
      let lastIndex := if Nat.eqb (length (matched m)) 0 then S e else e in
      matched m
      :: (if length s <? lastIndex - i then []
          else match_all_loop fuel' r lastIndex (skipn (lastIndex - i) s))
    end
  end.

Definition match_all (r : regex) (s : str) : list str :=
  match_all_loop (S (length s)) r 0 s.

End Regex.

Export Regex.

Infix "@@" := Seq (at level 60, right associativity).

(** ** Thrown values and results *)

(** What the [catch] clauses of the source read from a thrown value:
    [error.message], [error.status] (Anthropic SDK), [error.response.status]
    (OpenAI), [error.response.data.error.message] (Gemini over axios) and
    [axios.isCancel(error)]. *)
Record js_error : Type := JsError
  { message : str;
    status : option N;
    response_status : option N;
    response_detail : option str;
    is_cancel : bool }.

(** [new Error(msg)]. *)
Definition Error (msg : str) : js_error :=
  {| message := msg; status := None; response_status := None;
     response_detail := None; is_cancel := false |}.

Inductive outcome (A : Type) : Type :=
| Return (a : A)
| Throw (e : js_error).
Arguments Return {A} a.
Arguments Throw {A} e.

(** ** The answer classifier: [formatDirectResponse] *)

Module Classifier.

Inductive AnswerType : Type := AnswerCode | AnswerAnalysis.

(** The object literal [formattedResponse]; a field that the literal does not
    have, or sets to [undefined], is [None]. *)
Record formattedResponse : Type :=
  { answer_type : AnswerType;
    content : str;
    code : option str;
    final_answer : option str;
    thoughts : option (list str);
    time_complexity : option str;
    space_complexity : option str;
    key_takeaways : option (list str) }.

Module ProblemInfo.
Record t : Type :=
  { problem_statement : str;
    constraints : str;
    example_input : str;
    example_output : str;
    answer_expectations : str;
    supporting_material : str;
    evaluation_focus : str;
    language_hint : str;
    final_answer : str;
    final_explanation : str;
    reasoning_steps : list str;
    raw_response : str }.
End ProblemInfo.

Definition in_range (lo hi : ascii) (c : char) : bool :=
  ((cu lo <=? c) && (c <=? cu hi))%N.
Arguments in_range (lo hi)%_char c.

Definition is_char (a : ascii) (c : char) : bool := (c =? cu a)%N.
Arguments is_char a%_char c.

Definition any_char (c : char) : bool := true.

Definition newline : char := 10%N.
Definition carriage_return : char := 13%N.

(** [[a-zA-Z0-9+#-_]]: inside the class, [#-_] is the range from U+0023 to
    U+005F. *)
Definition lang_char (c : char) : bool :=
  in_range "a" "z" c || in_range "A" "Z" c || in_range "0" "9" c
  || is_char "+" c || in_range "#" "_" c.

Definition fence : str := lit "```".

(** [/```( [a-zA-Z0-9+#-_]* )\n( [\s\S]*? )```/], written here with blanks around
    the two groups. *)
Definition codeBlockRegex : regex :=
  Lit fence @@ Group 1 (Star lang_char) @@ Class (N.eqb newline)
  @@ Group 2 (LazyStar any_char) @@ Lit fence.

(** [[:：]] *)
Definition colon_char (c : char) : bool :=
  is_char ":" c || (c =? 65306)%N.

(** [[ABCDabcd]] *)
Definition choice_char (c : char) : bool :=
  in_range "A" "D" c || in_range "a" "d" c.

(** [/(?:最终答案|答案)[:：]?\s* ([ABCDabcd])/] *)
Definition letterRegex : regex :=
  Alt (Lit (lit "最终答案")) (Lit (lit "答案")) @@ Opt (Class colon_char)
  @@ Star is_ws @@ Group 1 (Class choice_char).

(** [/\r?\n/] *)
Definition lineBreakRegex : regex :=
  Opt (Class (N.eqb carriage_return)) @@ Class (N.eqb newline).

(** [/^[ABCD]$/i] *)
Definition soloLetterRegex : regex :=
  Bol @@ Class (ignore_case (in_range "A" "D")) @@ Eol.

Definition formatDirectResponse (fullText language : str)
    : outcome (formattedResponse * ProblemInfo.t) :=
  let trimmed := trim (or_else fullText (lit "")) in
  if negb (truthy trimmed) then
    Throw (Error (lit "模型未返回内容，请重试或检查截图质量。"))
  else
    let reasoningSteps := [lit "模型基于截图完成分析"] in
    match exec codeBlockRegex trimmed with
    | Some codeBlockMatch =>
      let codeLang := or_else (group codeBlockMatch 1) language in
      let code := trim (group codeBlockMatch 2) in
      Return
        ({| answer_type := AnswerCode;
            content := code;
            code := Some code;
            final_answer := None;
            thoughts := Some [lit "依据题意给出可运行实现"];
            time_complexity := None;
            space_complexity := None;
            key_takeaways := None |},
         {| ProblemInfo.problem_statement := lit "题目来自截图内容";
            ProblemInfo.constraints := lit "N/A";
            ProblemInfo.example_input := lit "N/A";
            ProblemInfo.example_output := lit "N/A";
            ProblemInfo.answer_expectations := lit "根据题意给出最优解答";
            ProblemInfo.supporting_material := lit "N/A";
            ProblemInfo.evaluation_focus := lit "答案准确性";
            ProblemInfo.language_hint := codeLang;
            ProblemInfo.final_answer := lit "N/A";
            ProblemInfo.final_explanation := lit "模型直接生成了完整代码实现";
            ProblemInfo.reasoning_steps := reasoningSteps;
            ProblemInfo.raw_response := trimmed |})
    | None =>
      let letter : option str :=
        match exec letterRegex trimmed with
        | Some letterMatch => Some (toUpperCase (group letterMatch 1))
        | None =>
          match find_first (test soloLetterRegex)
                  (map trim (split lineBreakRegex trimmed)) with
          | Some soloLine =>
            if truthy soloLine then Some (toUpperCase soloLine) else None
          | None => None
          end
        end in
      let letter_truthy :=
        match letter with Some l => truthy l | None => false end in
      Return
        ({| answer_type := AnswerAnalysis;
            content := trimmed;
            code := None;
            final_answer := letter;
            thoughts := None;
            time_complexity := None;
            space_complexity := None;
            key_takeaways :=
              match letter with
              | Some l =>
                if truthy l then Some [lit "正确选项：" ++ l] else None
              | None => None
              end |},
         {| ProblemInfo.problem_statement := lit "题目来自截图内容";
            ProblemInfo.constraints := lit "N/A";
            ProblemInfo.example_input := lit "N/A";
            ProblemInfo.example_output := lit "N/A";
            ProblemInfo.answer_expectations := lit "根据题意给出最优解答";
            ProblemInfo.supporting_material := lit "N/A";
            ProblemInfo.evaluation_focus := lit "答案准确性";
            ProblemInfo.language_hint := lit "N/A";
            ProblemInfo.final_answer :=
              match letter with
              | Some l => or_else l (lit "N/A")
              | None => lit "N/A"
              end;
            ProblemInfo.final_explanation :=
              if letter_truthy then lit "模型已直接给出最终选项"
              else lit "模型提供了解题分析";
            ProblemInfo.reasoning_steps := reasoningSteps;
            ProblemInfo.raw_response := trimmed |})
    end.

End Classifier.

Export Classifier.

(** ** Configuration and provider requests and responses *)

Module Config.

Inductive Provider : Type := openai | gemini | anthropic.

(** What [configHelper.loadConfig()] returns; an absent base URL is [None]. *)
Record t : Type :=
  { apiProvider : Provider;
    apiKey : str;
    openaiModel : str;
    geminiModel : str;
    anthropicModel : str;
    openaiBaseUrl : option str;
    geminiBaseUrl : option str;
    anthropicBaseUrl : option str;
    language : str }.

End Config.

(** A number literal with a fraction, as [0.2]. *)
Record decimal : Type := { numerator : N; denominator : N }.

Definition tenths (n : N) : decimal := {| numerator := n; denominator := 10 |}.

Record screenshot : Type := { path : str; data : str }.

Definition quote : char := 34%N.

(** Truthiness of a value that is a string, [null] or [undefined]. *)
Definition truthy_opt (v : option str) : bool :=
  match v with Some s => truthy s | None => false end.

Definition TypeError (msg : str) : js_error := Error msg.

Module OpenAI.

(** [new OpenAI({ apiKey, baseURL, timeout, maxRetries })] *)
Record client : Type :=
  { apiKey : str; baseURL : option str; timeout : N; maxRetries : N }.

Inductive part : Type :=
| text_part (text : str)
| image_url_part (url : str).

Inductive content : Type :=
| content_string (s : str)
| content_parts (parts : list part).

Record message : Type := { role : str; content_of : content }.

Record request : Type :=
  { model : str;
    messages : list message;
    max_tokens : N;
    temperature : decimal }.

(** [response.choices[0]?.message?.content]: a string, an array of parts
    (strings or objects with a type and possibly a string [text]) or
    something else. *)
Inductive reply_part : Type :=
| reply_string (s : str)
| reply_object (type : option str) (text : option str).

Inductive reply_content : Type :=
| reply_text (s : str)
| reply_array (parts : list reply_part)
| reply_null.

(** A choice with its [message.content], or without a message. *)
Record choice : Type := { message_content : option reply_content }.

Record response : Type := { choices : list choice }.

Definition is_image (p : part) : bool :=
  match p with image_url_part _ => true | text_part _ => false end.

Definition image_parts (r : request) : list part :=
  flat_map
    (fun m =>
       match content_of m with
       | content_parts ps => filter is_image ps
       | content_string _ => []
       end)
    (messages r).

(** The request of [processScreenshotsHelper]. *)
Definition solve_messages (instruction : str) (imageDataList : list str)
    : list message :=
  [ {| role := lit "user";
       content_of :=
         content_parts
           (text_part instruction
            :: map (fun data =>
                      image_url_part (lit "data:image/png;base64," ++ data))
                   imageDataList) |} ].

Definition solve_request (config : Config.t) (instruction : str)
    (imageDataList : list str) : request :=
  {| model := Config.openaiModel config;
     messages := solve_messages instruction imageDataList;
     max_tokens := 4000;
     temperature := tenths 2 |}.

Definition part_text (p : reply_part) : str :=
  match p with
  | reply_string s => s
  | reply_object (Some t) (Some s) => if eqb_str t (lit "text") then s else []
  | reply_object _ _ => []
  end.

Definition extract (response : response) : str :=
  match choices response with
  | c :: _ =>
    match message_content c with
    | Some (reply_text s) => s
    | Some (reply_array parts) => join [newline] (map part_text parts)
    | Some reply_null => []
    | None => []
    end
  | [] => []
  end.

(** The request of [processExtraScreenshotsHelper]. *)
Definition debug_system_prompt : str :=
  lit "You are a coding interview assistant helping debug and improve solutions. Analyze these screenshots which include either error messages, incorrect outputs, or test cases, and provide detailed debugging help.

Your response MUST follow this exact structure with these section headers (use ### for headers):
### Issues Identified
- List each issue as a bullet point with clear explanation

### Specific Improvements and Corrections
- List specific code changes needed as bullet points

### Optimizations
- List any performance optimizations if applicable

### Explanation of Changes Needed
Here provide a clear explanation of why the changes are needed

### Key Points
- Summary bullet points of the most important takeaways

If you include code examples, use proper markdown code blocks with language specification (e.g. ```java).".

Definition debug_user_prompt (problem_statement language : str) : str :=
  lit "I'm solving this coding problem: "
  ++ [quote]
  ++ problem_statement
  ++ [quote]
  ++ lit " in "
  ++ language
  ++ lit ". I need help with debugging or improving my solution. Here are screenshots of my code, the errors or test cases. Please provide a detailed analysis with:
1. What issues you found in my code
2. Specific improvements and corrections
3. Any optimizations that would make the solution better
4. A clear explanation of the changes needed".

Definition debug_request (config : Config.t)
    (problem_statement language : str) (imageDataList : list str)
    : request :=
  {| model := Config.openaiModel config;
     messages :=
       [ {| role := lit "system";
            content_of := content_string debug_system_prompt |};
         {| role := lit "user";
            content_of :=
              content_parts
                (text_part (debug_user_prompt problem_statement language)
                 :: map (fun data =>
                           image_url_part
                             (lit "data:image/png;base64," ++ data))
                        imageDataList) |} ];
     max_tokens := 4000;
     temperature := tenths 2 |}.

(** [debugResponse.choices[0].message.content]: the text, or the error that
    the later [debugContent.match(...)] raises on a content that is not a
    string. *)
Definition extract_debug (response : response) : outcome (str + js_error) :=
  match choices response with
  | c :: _ =>
    match message_content c with
    | Some (reply_text s) => Return (inl s)
    | Some (reply_array _) =>
      Return (inr (TypeError (lit "debugContent.match is not a function")))
    | Some reply_null =>
      Return (inr (TypeError
        (lit "Cannot read properties of null (reading 'match')")))
    | None =>
      Throw (TypeError
        (lit "Cannot read properties of undefined (reading 'content')"))
    end
  | [] =>
    Throw (TypeError
      (lit "Cannot read properties of undefined (reading 'message')"))
  end.

End OpenAI.

Module Gemini.

Inductive part : Type :=
| inlineData_part (mimeType data : str)
| text_part (text : str).

Record content : Type := { role : str; parts : list part }.

Record generationConfig : Type :=
  { temperature : decimal;
    topP : option decimal;
    maxOutputTokens : N }.

Record body : Type :=
  { contents : list content; config : generationConfig }.

(** [axios.default.post(url, body, { signal })]; the signal is named by the
    number of its controller. *)
Record request : Type := { url : str; body_of : body; signal : nat }.

(** A part of a candidate: its [text] when that is a string. *)
Record reply_part : Type := { text : option str }.

(** A candidate: [content.parts] when present, and the finish reason. *)
Record candidate : Type :=
  { reply_parts : option (list reply_part); finishReason : option str }.

(** [response.data]: the candidates when present and
    [promptFeedback.blockReason]. *)
Record response : Type :=
  { candidates : option (list candidate); blockReason : option str }.

Definition is_image (p : part) : bool :=
  match p with inlineData_part _ _ => true | text_part _ => false end.

Definition image_parts (r : request) : list part :=
  flat_map (fun c => filter is_image (parts c)) (contents (body_of r)).

Definition default_base : str := lit "https://generativelanguage.googleapis.com".

(** [rawBase.endsWith("/") ? rawBase.slice(0, -1) : rawBase] *)
Definition strip_slash (rawBase : str) : str :=
  match rev rawBase with
  | c :: r => if (c =? cu "/")%N then rev r else rawBase
  | [] => rawBase
  end.

Definition endpoint (this_geminiBaseUrl : option str) (config : Config.t)
    (geminiApiKey : str) : str :=
  let rawBase :=
    if truthy_opt this_geminiBaseUrl
    then match this_geminiBaseUrl with Some b => b | None => [] end
    else if truthy_opt (Config.geminiBaseUrl config)
    then match Config.geminiBaseUrl config with Some b => b | None => [] end
    else default_base in
  let geminiBaseUrl := strip_slash rawBase in
  let modelName := Config.geminiModel config in
  geminiBaseUrl ++ lit "/models/" ++ modelName
  ++ lit ":generateContent?key=" ++ geminiApiKey.

(** The request of [processScreenshotsHelper]. *)
Definition solve_body (instruction : str) (imageDataList : list str) : body :=
  {| contents :=
       [ {| role := lit "user";
            parts :=
              map (fun data => inlineData_part (lit "image/png") data)
                  imageDataList
              ++ [text_part instruction] |} ];
     config :=
       {| temperature := tenths 2;
          topP := Some (tenths 9);
          maxOutputTokens := 8192 |} |}.

Definition solve_request (this_geminiBaseUrl : option str)
    (config : Config.t) (geminiApiKey : str) (instruction : str)
    (imageDataList : list str) (signal : nat) : request :=
  {| url := endpoint this_geminiBaseUrl config geminiApiKey;
     body_of := solve_body instruction imageDataList;
     signal := signal |}.

Definition is_max_tokens (finishReason : option str) : bool :=
  match finishReason with
  | Some r => eqb_str r (lit "MAX_TOKENS")
  | None => false
  end.

Definition extract (response : response) : outcome str :=
  let candidates :=
    match candidates response with Some l => l | None => [] end in
  match candidates with
  | [] =>
    let block :=
      if truthy_opt (blockReason response)
      then match blockReason response with Some b => b | None => [] end
      else lit "no-candidates" in
    Throw (Error (lit "Empty response from Gemini API (" ++ block ++ lit ")"))
  | firstCandidate :: _ =>
    let parts :=
      match reply_parts firstCandidate with Some l => l | None => [] end in
    let collectedText :=
      flat_map
        (fun part =>
           match text part with
           | Some t => if truthy (trim t) then [trim t] else []
           | None => []
           end)
        parts in
    let fullText := trim (join [newline] collectedText) in
    if negb (truthy fullText)
       && negb (is_max_tokens (finishReason firstCandidate))
    then Throw (Error (lit "Gemini response missing text"))
    else Return fullText
  end.

(** The text a candidate contributes to the solve reply: its text parts,
    trimmed, the blank ones left out, joined by line feeds. *)
Definition candidate_text (c : candidate) : str :=
  trim (join [newline]
    (flat_map
       (fun part =>
          match text part with
          | Some t => if truthy (trim t) then [trim t] else []
          | None => []
          end)
       (match reply_parts c with Some l => l | None => [] end))).

(** The request of [processExtraScreenshotsHelper]. *)
Definition debug_prompt (problem_statement language : str) : str :=
  lit "
You are a coding interview assistant helping debug and improve solutions. Analyze these screenshots which include either error messages, incorrect outputs, or test cases, and provide detailed debugging help.

I'm solving this coding problem: "
  ++ [quote]
  ++ problem_statement
  ++ [quote]
  ++ lit " in "
  ++ language
  ++ lit ". I need help with debugging or improving my solution.

YOUR RESPONSE MUST FOLLOW THIS EXACT STRUCTURE WITH THESE SECTION HEADERS:
### Issues Identified
- List each issue as a bullet point with clear explanation

### Specific Improvements and Corrections
- List specific code changes needed as bullet points

### Optimizations
- List any performance optimizations if applicable

### Explanation of Changes Needed
Here provide a clear explanation of why the changes are needed

### Key Points
- Summary bullet points of the most important takeaways

If you include code examples, use proper markdown code blocks with language specification (e.g. ```java).
".

Definition debug_request (this_geminiBaseUrl : option str)
    (config : Config.t) (geminiApiKey : str)
    (problem_statement language : str) (imageDataList : list str)
    (signal : nat) : request :=
  {| url := endpoint this_geminiBaseUrl config geminiApiKey;
     body_of :=
       {| contents :=
            [ {| role := lit "user";
                 parts :=
                   text_part (debug_prompt problem_statement language)
                   :: map (fun data => inlineData_part (lit "image/png") data)
                          imageDataList |} ];
          config :=
            {| temperature := tenths 2;
               topP := None;
               maxOutputTokens := 8192 |} |};
     signal := signal |}.

Definition extract_debug (responseData : response) : outcome str :=
  match candidates responseData with
  | None | Some [] => Throw (Error (lit "Empty response from Gemini API"))
  | Some (firstCandidate :: _) =>
    match reply_parts firstCandidate with
    | None | Some [] =>
      Throw (Error (lit "Gemini response content.parts is empty or missing"))
    | Some (part0 :: _) =>
      let debugContent :=
        if truthy_opt (text part0)
        then match text part0 with Some t => t | None => [] end
        else lit "" in
      if negb (truthy (trim debugContent))
      then Throw (Error (lit "Gemini response missing text content"))
      else Return debugContent
    end
  end.

End Gemini.

Module Anthropic.

(** [new Anthropic({ apiKey, baseURL, timeout, maxRetries })] *)
Record client : Type :=
  { apiKey : str; baseURL : option str; timeout : N; maxRetries : N }.

Record source : Type := { type : str; media_type : str; data : str }.

Inductive block : Type :=
| text_block (text : str)
| image_block (source_of : source).

Record message : Type := { role : str; content : list block }.

Record request : Type :=
  { model : str;
    max_tokens : N;
    temperature : decimal;
    messages : list message }.

(** A block of [response.content]: its type and its [text] when a string. *)
Record reply_block : Type := { reply_type : str; reply_text : option str }.

Record response : Type := { reply_content : list reply_block }.

Definition is_image (b : block) : bool :=
  match b with image_block _ => true | text_block _ => false end.

Definition image_blocks (r : request) : list block :=
  flat_map (fun m => filter is_image (content m)) (messages r).

Definition image_of (data : str) : block :=
  image_block
    {| type := lit "base64"; media_type := lit "image/png"; data := data |}.

(** The request of [processScreenshotsHelper]. *)
Definition solve_request (config : Config.t) (instruction : str)
    (imageDataList : list str) : request :=
  {| model := Config.anthropicModel config;
     max_tokens := 4000;
     temperature := tenths 2;
     messages :=
       [ {| role := lit "user";
            content := text_block instruction :: map image_of imageDataList |} ]
  |}.

Definition extract (response : response) : str :=
  let textParts :=
    flat_map
      (fun part =>
         if eqb_str (reply_type part) (lit "text")
         then match reply_text part with
              | Some t => [trim t]
              | None => []
              end
         else [])
      (reply_content response) in
  trim (join [newline] textParts).

(** The request of [processExtraScreenshotsHelper]. *)
Definition debug_prompt (problem_statement language : str) : str :=
  lit "
You are a coding interview assistant helping debug and improve solutions. Analyze these screenshots which include either error messages, incorrect outputs, or test cases, and provide detailed debugging help.

I'm solving this coding problem: "
  ++ [quote]
  ++ problem_statement
  ++ [quote]
  ++ lit " in "
  ++ language
  ++ lit ". I need help with debugging or improving my solution.

YOUR RESPONSE MUST FOLLOW THIS EXACT STRUCTURE WITH THESE SECTION HEADERS:
### Issues Identified
- List each issue as a bullet point with clear explanation

### Specific Improvements and Corrections
- List specific code changes needed as bullet points

### Optimizations
- List any performance optimizations if applicable

### Explanation of Changes Needed
Here provide a clear explanation of why the changes are needed

### Key Points
- Summary bullet points of the most important takeaways

If you include code examples, use proper markdown code blocks with language specification.
".

Definition debug_request (config : Config.t)
    (problem_statement language : str) (imageDataList : list str)
    : request :=
  {| model := Config.anthropicModel config;
     max_tokens := 4000;
     temperature := tenths 2;
     messages :=
       [ {| role := lit "user";
            content :=
              text_block (debug_prompt problem_statement language)
              :: map image_of imageDataList |} ] |}.

(** [(response.content[0] as { type: 'text', text: string }).text]: the
    text, or the error that the later [debugContent.match(...)] raises when
    the block has no text. *)
Definition extract_debug (response : response) : outcome (str + js_error) :=
  match reply_content response with
  | b :: _ =>
    match reply_text b with
    | Some t => Return (inl t)
    | None =>
      Return (inr (TypeError
        (lit "Cannot read properties of undefined (reading 'match')")))
    end
  | [] =>
    Throw (TypeError
      (lit "Cannot read properties of undefined (reading 'text')"))
  end.

End Anthropic.

(** ** The debug response: [processExtraScreenshotsHelper] after the reply *)

Module Debug.

Record response : Type :=
  { code : str;
    debug_analysis : str;
    thoughts : list str;
    time_complexity : str;
    space_complexity : str }.

Definition letter (c : char) : bool := in_range "a" "z" c || in_range "A" "Z" c.
Definition digit (c : char) : bool := in_range "0" "9" c.
Definition blank (c : char) : bool := is_char " " c.
Definition not_newline (c : char) : bool := negb (newline =? c)%N.

(** [[-*•]] *)
Definition bullet (c : char) : bool :=
  is_char "-" c || is_char "*" c || (c =? 8226)%N.

(** [/```(?:[a-zA-Z]+)?( [\s\S]*? )```/] *)
Definition codeRegex : regex :=
  Lit fence @@ Opt (Class letter @@ Star letter)
  @@ Group 1 (LazyStar any_char) @@ Lit fence.

(** [/issues identified|problems found|bugs found/i] and the three that
    follow it. *)
Definition issuesRegex : regex :=
  Alt (LitI (lit "issues identified"))
      (Alt (LitI (lit "problems found")) (LitI (lit "bugs found"))).

Definition improvementsRegex : regex :=
  Alt (LitI (lit "code improvements"))
      (Alt (LitI (lit "improvements")) (LitI (lit "suggested changes"))).

Definition optimizationsRegex : regex :=
  Alt (LitI (lit "optimizations")) (LitI (lit "performance improvements")).

Definition explanationRegex : regex :=
  Alt (LitI (lit "explanation")) (LitI (lit "detailed analysis")).

(** [(?:[-*•]|\d+\.)[ ]+] *)
Definition marker : regex :=
  Alt (Class bullet) (Class digit @@ Star digit @@ Class (is_char "."))
  @@ Class blank @@ Star blank.

(** [/(?:^|\n)[ ]*(?:[-*•]|\d+\.)[ ]+( [^\n]+ )/g] *)
Definition bulletRegex : regex :=
  Alt Bol (Class (N.eqb newline)) @@ Star blank @@ marker
  @@ Group 1 (Class not_newline @@ Star not_newline).

(** [/^[ ]*(?:[-*•]|\d+\.)[ ]+/] *)
Definition leadRegex : regex := Bol @@ Star blank @@ marker.

Definition format (debugContent : str) : response :=
  let extractedCode :=
    match exec codeRegex debugContent with
    | Some codeMatch =>
      if truthy (group codeMatch 1) then trim (group codeMatch 1)
      else lit "// Debug mode - see analysis below"
    | None => lit "// Debug mode - see analysis below"
    end in
  let formattedDebugContent :=
    if negb (includes debugContent (lit "# "))
       && negb (includes debugContent (lit "## "))
    then
      replace explanationRegex (lit "## Explanation")
        (replace optimizationsRegex (lit "## Optimizations")
           (replace improvementsRegex (lit "## Code Improvements")
              (replace issuesRegex (lit "## Issues Identified")
                 debugContent)))
    else debugContent in
  let bulletPoints := match_all bulletRegex formattedDebugContent in
  let thoughts :=
    match bulletPoints with
    | [] => [lit "Debug analysis based on your screenshots"]
    | _ =>
      firstn 5
        (map (fun point => trim (replace leadRegex (lit "") point))
             bulletPoints)
    end in
  {| code := extractedCode;
     debug_analysis := formattedDebugContent;
     thoughts := thoughts;
     time_complexity := lit "N/A - Debug mode";
     space_complexity := lit "N/A - Debug mode" |}.

End Debug.

(** ** The coordinator: state, effects and the methods of the class *)

Module Coordinator.

(** [deps.getView()]: the queue view runs the solve pipeline, any other view
    the debug pipeline. *)
Inductive View : Type := queue | solutions.

(** [deps.PROCESSING_EVENTS] and the ["processing-status"] channel. *)
Inductive channel : Type :=
| API_KEY_INVALID
| INITIAL_START
| NO_SCREENSHOTS
| INITIAL_SOLUTION_ERROR
| SOLUTION_SUCCESS
| PROBLEM_EXTRACTED
| DEBUG_START
| DEBUG_SUCCESS
| DEBUG_ERROR
| processing_status.

Inductive payload : Type :=
| no_payload
| error_text (error : str)
| error_object (error : js_error)
| problem_payload (problemInfo : ProblemInfo.t)
| solution_payload (data : formattedResponse)
| debug_payload (data : Debug.response)
| status_payload (message : str) (progress : N).

(** One call of [mainWindow.webContents.send]. *)
Record event : Type := Send { on : channel; carrying : payload }.

Record window : Type := { isDestroyed : bool }.

(** The provider clients of the class. *)
Record registry : Type :=
  { openaiClient : option OpenAI.client;
    geminiApiKey : option str;
    geminiBaseUrl : option str;
    anthropicClient : option Anthropic.client }.

(** The two controller fields of the class and the [AbortController]
    objects created so far: a controller is a number, [aborted] lists those
    whose [abort()] was called. *)
Record tokens : Type :=
  { currentProcessingAbortController : option nat;
    currentExtraProcessingAbortController : option nat;
    next_controller : nat;
    aborted : list nat }.

(** What [deps] reads and writes. *)
Record session : Type :=
  { mainWindow : option window;
    window_language : option str;
    view : View;
    problemInfo : option ProblemInfo.t;
    hasDebugged : bool }.

(** The screenshot helper and the files on disk ([files] maps a path to the
    base64 text of its content). *)
Record shots : Type :=
  { screenshotQueue : list str;
    extraScreenshotQueue : list str;
    files : list (str * str) }.

Record state : Type :=
  { stored_config : outcome Config.t;
    clients : registry;
    controllers : tokens;
    deps : session;
    screenshotHelper : shots;
    sent : list event }.

Definition with_clients (r : registry) (st : state) : state :=
  {| stored_config := stored_config st; clients := r;
     controllers := controllers st; deps := deps st;
     screenshotHelper := screenshotHelper st; sent := sent st |}.

Definition with_controllers (t : tokens) (st : state) : state :=
  {| stored_config := stored_config st; clients := clients st;
     controllers := t; deps := deps st;
     screenshotHelper := screenshotHelper st; sent := sent st |}.

Definition with_deps (d : session) (st : state) : state :=
  {| stored_config := stored_config st; clients := clients st;
     controllers := controllers st; deps := d;
     screenshotHelper := screenshotHelper st; sent := sent st |}.

Definition with_screenshotHelper (h : shots) (st : state) : state :=
  {| stored_config := stored_config st; clients := clients st;
     controllers := controllers st; deps := deps st;
     screenshotHelper := h; sent := sent st |}.

Definition with_sent (l : list event) (st : state) : state :=
  {| stored_config := stored_config st; clients := clients st;
     controllers := controllers st; deps := deps st;
     screenshotHelper := screenshotHelper st; sent := l |}.

Definition no_clients : registry :=
  {| openaiClient := None; geminiApiKey := None; geminiBaseUrl := None;
     anthropicClient := None |}.

(** [initializeAIClient]: the three branches on the provider, and the
    [catch] clause when [loadConfig] throws. *)
Definition initializeAIClient (st : state) : state :=
  match stored_config st with
  | Return config =>
    match Config.apiProvider config with
    | Config.openai =>
      if truthy (Config.apiKey config) then
        with_clients
          {| openaiClient :=
               Some {| OpenAI.apiKey := Config.apiKey config;
                       OpenAI.baseURL := Config.openaiBaseUrl config;
                       OpenAI.timeout := 60000;
                       OpenAI.maxRetries := 2 |};
             geminiApiKey := None;
             geminiBaseUrl := None;
             anthropicClient := None |} st
      else with_clients no_clients st
    | Config.gemini =>
      if truthy (Config.apiKey config) then
        with_clients
          {| openaiClient := None;
             geminiApiKey := Some (Config.apiKey config);
             geminiBaseUrl := Config.geminiBaseUrl config;
             anthropicClient := None |} st
      else with_clients no_clients st
    | Config.anthropic =>
      if truthy (Config.apiKey config) then
        with_clients
          {| openaiClient := None;
             geminiApiKey := None;
             geminiBaseUrl := None;
             anthropicClient :=
               Some {| Anthropic.apiKey := Config.apiKey config;
                       Anthropic.baseURL := Config.anthropicBaseUrl config;
                       Anthropic.timeout := 60000;
                       Anthropic.maxRetries := 2 |} |} st
      else with_clients no_clients st
    end
  | Throw _ =>
    with_clients
      {| openaiClient := None;
         geminiApiKey := None;
         geminiBaseUrl := geminiBaseUrl (clients st);
         anthropicClient := None |} st
  end.

(** The number of provider families that hold a client or a key. *)
Definition live_clients (r : registry) : nat :=
  match openaiClient r with Some _ => 1 | None => 0 end
  + match geminiApiKey r with Some _ => 1 | None => 0 end
  + match anthropicClient r with Some _ => 1 | None => 0 end.

(** *** Suspended computations

    An asynchronous method runs until it awaits a provider call; the call
    is then in flight and the method goes on, from the state of that later
    moment, when the call is settled.  The awaits on local helpers (image
    previews, the window variables) are taken as immediate. *)
Inductive step (A : Type) : Type :=
| Done (a : A) (st : state)
| Thrown (e : js_error) (st : state)
| AwaitOpenAI (client : OpenAI.client) (req : OpenAI.request) (st : state)
    (k : outcome OpenAI.response -> state -> step A)
| AwaitGemini (req : Gemini.request) (st : state)
    (k : outcome Gemini.response -> state -> step A)
| AwaitAnthropic (client : Anthropic.client) (req : Anthropic.request)
    (st : state) (k : outcome Anthropic.response -> state -> step A).
Arguments Done {A} a st.
Arguments Thrown {A} e st.
Arguments AwaitOpenAI {A} client req st k.
Arguments AwaitGemini {A} req st k.
Arguments AwaitAnthropic {A} client req st k.

Definition proc (A : Type) : Type := state -> step A.

Fixpoint bind_step {A B : Type} (x : step A) (f : A -> proc B) : step B :=
  match x with
  | Done a st => f a st
  | Thrown e st => Thrown e st
  | AwaitOpenAI c req st k =>
    AwaitOpenAI c req st (fun o st' => bind_step (k o st') f)
  | AwaitGemini req st k =>
    AwaitGemini req st (fun o st' => bind_step (k o st') f)
  | AwaitAnthropic c req st k =>
    AwaitAnthropic c req st (fun o st' => bind_step (k o st') f)
  end.

(** [try { x } catch (error) { h error }] *)
Fixpoint catch_step {A : Type} (x : step A) (h : js_error -> proc A)
    : step A :=
  match x with
  | Done a st => Done a st
  | Thrown e st => h e st
  | AwaitOpenAI c req st k =>
    AwaitOpenAI c req st (fun o st' => catch_step (k o st') h)
  | AwaitGemini req st k =>
    AwaitGemini req st (fun o st' => catch_step (k o st') h)
  | AwaitAnthropic c req st k =>
    AwaitAnthropic c req st (fun o st' => catch_step (k o st') h)
  end.

(** [try { x } finally { f }] for a [finally] block that only assigns. *)
Fixpoint finally_step {A : Type} (x : step A) (f : state -> state) : step A :=
  match x with
  | Done a st => Done a (f st)
  | Thrown e st => Thrown e (f st)
  | AwaitOpenAI c req st k =>
    AwaitOpenAI c req st (fun o st' => finally_step (k o st') f)
  | AwaitGemini req st k =>
    AwaitGemini req st (fun o st' => finally_step (k o st') f)
  | AwaitAnthropic c req st k =>
    AwaitAnthropic c req st (fun o st' => finally_step (k o st') f)
  end.

Definition ret {A : Type} (a : A) : proc A := fun st => Done a st.
Definition throw {A : Type} (e : js_error) : proc A := fun st => Thrown e st.
Definition bind {A B : Type} (p : proc A) (f : A -> proc B) : proc B :=
  fun st => bind_step (p st) f.
Definition try_catch {A : Type} (p : proc A) (h : js_error -> proc A)
    : proc A :=
  fun st => catch_step (p st) h.
Definition try_finally {A : Type} (p : proc A) (f : state -> state) : proc A :=
  fun st => finally_step (p st) f.
Definition get : proc state := fun st => Done st st.
Definition modify (f : state -> state) : proc unit := fun st => Done tt (f st).
Definition lift {A : Type} (o : outcome A) : proc A :=
  match o with Return a => ret a | Throw e => throw e end.

Notation "x <- p ;; q" := (bind p (fun x => q))
  (at level 61, p at next level, right associativity).
Notation "p ;; q" := (bind p (fun _ => q))
  (at level 61, right associativity).

Definition settle {A : Type} (o : outcome A) : proc A := lift o.

Definition await_openai (client : OpenAI.client) (req : OpenAI.request)
    : proc OpenAI.response :=
  fun st => AwaitOpenAI client req st (fun o => settle o).

Definition await_gemini (req : Gemini.request) : proc Gemini.response :=
  fun st => AwaitGemini req st (fun o => settle o).

Definition await_anthropic (client : Anthropic.client)
    (req : Anthropic.request) : proc Anthropic.response :=
  fun st => AwaitAnthropic client req st (fun o => settle o).

(** *** The collaborators *)

Definition loadConfig : proc Config.t := fun st => lift (stored_config st) st.

(** [mainWindow.webContents.send] on a window that is not destroyed: the
    event is recorded.  On a destroyed window Electron throws; the source
    tests [isDestroyed] in [cancelOngoingRequests] only, and the runs of
    this development are those of a window that stays alive. *)
Definition send (c : channel) (p : payload) : proc unit :=
  modify (fun st => with_sent (sent st ++ [Send c p]) st).

Definition set_view (v : View) (st : state) : state :=
  with_deps
    {| mainWindow := mainWindow (deps st);
       window_language := window_language (deps st);
       view := v;
       problemInfo := problemInfo (deps st);
       hasDebugged := hasDebugged (deps st) |} st.

Definition setView (v : View) : proc unit := modify (set_view v).

Definition set_problemInfo (p : option ProblemInfo.t) (st : state) : state :=
  with_deps
    {| mainWindow := mainWindow (deps st);
       window_language := window_language (deps st);
       view := view (deps st);
       problemInfo := p;
       hasDebugged := hasDebugged (deps st) |} st.

Definition set_hasDebugged (b : bool) (st : state) : state :=
  with_deps
    {| mainWindow := mainWindow (deps st);
       window_language := window_language (deps st);
       view := view (deps st);
       problemInfo := problemInfo (deps st);
       hasDebugged := b |} st.

Definition clearExtraScreenshotQueue (st : state) : state :=
  with_screenshotHelper
    {| screenshotQueue := screenshotQueue (screenshotHelper st);
       extraScreenshotQueue := [];
       files := files (screenshotHelper st) |} st.

Fixpoint read_file (fs : list (str * str)) (p : str) : option str :=
  match fs with
  | [] => None
  | (q, d) :: fs' => if eqb_str q p then Some d else read_file fs' p
  end.

(** [fs.existsSync(path)] *)
Definition existsSync (st : state) (p : str) : bool :=
  match read_file (files (screenshotHelper st)) p with
  | Some _ => true
  | None => false
  end.

(** The screenshot object of a path, or [null] when reading it throws;
    [filter(Boolean)] then drops the [null]s.  A file of [files] can be
    read: a file that exists and cannot be read is not represented. *)
Definition load_screenshots (st : state) (paths : list str)
    : list screenshot :=
  flat_map
    (fun p =>
       match read_file (files (screenshotHelper st)) p with
       | Some d => [ {| path := p; data := d |} ]
       | None => []
       end)
    paths.

(** [getLanguage]: the configured language, else the window variable, else
    "python". *)
Definition getLanguage (st : state) : str :=
  match stored_config st with
  | Return config =>
    if truthy (Config.language config) then Config.language config
    else
      match mainWindow (deps st), window_language (deps st) with
      | Some _, Some language => language
      | _, _ => lit "python"
      end
  | Throw _ => lit "python"
  end.

(** [new AbortController()] stored in one of the two fields. *)
Definition new_processing_controller (st : state) : state :=
  let t := controllers st in
  with_controllers
    {| currentProcessingAbortController := Some (next_controller t);
       currentExtraProcessingAbortController :=
         currentExtraProcessingAbortController t;
       next_controller := S (next_controller t);
       aborted := aborted t |} st.

Definition new_extra_controller (st : state) : state :=
  let t := controllers st in
  with_controllers
    {| currentProcessingAbortController := currentProcessingAbortController t;
       currentExtraProcessingAbortController := Some (next_controller t);
       next_controller := S (next_controller t);
       aborted := aborted t |} st.

Definition clear_processing_controller (st : state) : state :=
  let t := controllers st in
  with_controllers
    {| currentProcessingAbortController := None;
       currentExtraProcessingAbortController :=
         currentExtraProcessingAbortController t;
       next_controller := next_controller t;
       aborted := aborted t |} st.

Definition clear_extra_controller (st : state) : state :=
  let t := controllers st in
  with_controllers
    {| currentProcessingAbortController := currentProcessingAbortController t;
       currentExtraProcessingAbortController := None;
       next_controller := next_controller t;
       aborted := aborted t |} st.

(** [controller.abort()] *)
Definition abort (c : nat) (st : state) : state :=
  let t := controllers st in
  with_controllers
    {| currentProcessingAbortController := currentProcessingAbortController t;
       currentExtraProcessingAbortController :=
         currentExtraProcessingAbortController t;
       next_controller := next_controller t;
       aborted := c :: aborted t |} st.

(** *** [processScreenshotsHelper] *)

Inductive helper_result (D : Type) : Type :=
| success (data : D)
| failure (error : str).
Arguments success {D} data.
Arguments failure {D} error.

Definition instruction (language : str) : str :=
  lit "请阅读我接下来提供的题目截图：
1) 如果是单选题：只需在第一行输出“最终答案：A/B/C/D”中的一个字母；第二行用不超过20个字解释原因。
2) 如果是代码题：直接给出完整、可运行、通过常见边界案例的代码。使用题面或常规默认语言；如题面未指定，优先使用 "
  ++ language
  ++ lit "。请用 Markdown 代码块标注语言，例如 ```"
  ++ language
  ++ lit "
...```。解释尽量简短。
3) 如果是代码题则给出可复制的代码，如果是选择题（阅读理解或图形逻辑）则给出具体ABCD选项。
4) 不要输出JSON，也不要多余前言。".

Definition providerLabel (provider : Config.Provider) : str :=
  match provider with
  | Config.openai => lit "OpenAI"
  | Config.gemini => lit "Gemini"
  | Config.anthropic => lit "Claude"
  end.

Definition status_is (e : option N) (n : N) : bool :=
  match e with Some m => (m =? n)%N | None => false end.

(** The [catch] clause of [processScreenshotsHelper]; [provider] is [None]
    when the configuration could not be loaded. *)
Definition solve_catch (provider : option Config.Provider) (error : js_error)
    : helper_result formattedResponse :=
  if is_cancel error then failure (lit "Processing was canceled by the user.")
  else
    let generic :=
      failure
        (or_else (message error)
           (lit "Failed to process screenshots. Please try again.")) in
    match provider with
    | Some Config.openai =>
      if status_is (response_status error) 401 then
        failure (lit "Invalid OpenAI API key. Please check your settings.")
      else if status_is (response_status error) 429 then
        failure (lit "OpenAI API rate limit exceeded or insufficient credits. Please try again later.")
      else if status_is (response_status error) 500 then
        failure (lit "OpenAI server error. Please try again later.")
      else generic
    | Some Config.gemini =>
      match response_detail error with
      | Some detail => if truthy detail then failure detail else generic
      | None => generic
      end
    | Some Config.anthropic =>
      if status_is (status error) 429 then
        failure (lit "Claude API rate limit exceeded. Please wait a few minutes before trying again.")
      else if status_is (status error) 413
              || includes (toLowerCase (message error)) (lit "token") then
        failure (lit "Your screenshots contain too much information for Claude to process. Switch to OpenAI or Gemini in settings which can handle larger inputs.")
      else generic
    | None => generic
    end.

(** The text of the reply, or the result returned before any call. *)
Definition solve_fullText (config : Config.t) (language : str)
    (imageDataList : list str) (signal : nat)
    : proc (helper_result formattedResponse + str) :=
  match Config.apiProvider config with
  | Config.openai =>
    modify (fun st =>
      match openaiClient (clients st) with
      | None => initializeAIClient st
      | Some _ => st
      end) ;;
    st <- get ;;
    match openaiClient (clients st) with
    | None =>
      ret (inl (failure (lit "OpenAI API key not configured or invalid. Please check your settings.")))
    | Some client =>
      response <- await_openai client
        (OpenAI.solve_request config (instruction language) imageDataList) ;;
      ret (inr (OpenAI.extract response))
    end
  | Config.gemini =>
    st <- get ;;
    match geminiApiKey (clients st) with
    | Some key =>
      if truthy key then
        response <- await_gemini
          (Gemini.solve_request (geminiBaseUrl (clients st)) config key
             (instruction language) imageDataList signal) ;;
        fullText <- lift (Gemini.extract response) ;;
        ret (inr fullText)
      else
        ret (inl (failure (lit "Gemini API key not configured. Please check your settings.")))
    | None =>
      ret (inl (failure (lit "Gemini API key not configured. Please check your settings.")))
    end
  | Config.anthropic =>
    modify (fun st =>
      match anthropicClient (clients st) with
      | None => initializeAIClient st
      | Some _ => st
      end) ;;
    st <- get ;;
    match anthropicClient (clients st) with
    | None =>
      ret (inl (failure (lit "Anthropic API key not configured. Please check your settings.")))
    | Some client =>
      response <- await_anthropic client
        (Anthropic.solve_request config (instruction language) imageDataList) ;;
      ret (inr (Anthropic.extract response))
    end
  end.

Definition processScreenshotsHelper (screenshots : list screenshot)
    (signal : nat) : proc (helper_result formattedResponse) :=
  fun st0 =>
    let provider :=
      match stored_config st0 with
      | Return config => Some (Config.apiProvider config)
      | Throw _ => None
      end in
    try_catch
      (config <- loadConfig ;;
       let language := getLanguage st0 in
       let mainWindow := mainWindow (deps st0) in
       let imageDataList := map data screenshots in
       early <- solve_fullText config language imageDataList signal ;;
       match early with
       | inl result => ret result
       | inr fullText =>
         r <- lift (formatDirectResponse fullText language) ;;
         let (formattedResponse, problemInfo) := r in
         modify (set_problemInfo (Some problemInfo)) ;;
         let label := providerLabel (Config.apiProvider config) in
         match mainWindow with
         | Some _ =>
           send PROBLEM_EXTRACTED (problem_payload problemInfo) ;;
           send processing_status
             (status_payload (label ++ lit " 已完成分析并生成答案") 100)
         | None => ret tt
         end ;;
         modify clearExtraScreenshotQueue ;;
         ret (success formattedResponse)
       end)
      (fun error => ret (solve_catch provider error))
      st0.

(** *** [processExtraScreenshotsHelper] *)

(** The text of the debug reply, or the result returned early. *)
Definition debug_content (config : Config.t) (problemInfo : ProblemInfo.t)
    (language : str) (mainWindow : option window) (imageDataList : list str)
    (signal : nat) : proc (helper_result Debug.response + (str + js_error)) :=
  let progress text :=
    match mainWindow with
    | Some _ => send processing_status (status_payload text 60)
    | None => ret tt
    end in
  match Config.apiProvider config with
  | Config.openai =>
    st <- get ;;
    match openaiClient (clients st) with
    | None =>
      ret (inl (failure (lit "OpenAI API key not configured. Please check your settings.")))
    | Some client =>
      progress (lit "Analyzing code and generating debug feedback...") ;;
      debugResponse <- await_openai client
        (OpenAI.debug_request config
           (ProblemInfo.problem_statement problemInfo) language
           imageDataList) ;;
      debugContent <- lift (OpenAI.extract_debug debugResponse) ;;
      ret (inr debugContent)
    end
  | Config.gemini =>
    st <- get ;;
    if truthy_opt (geminiApiKey (clients st)) then
      try_catch
        (progress (lit "Analyzing code and generating debug feedback with Gemini...") ;;
         response <- await_gemini
           (Gemini.debug_request (geminiBaseUrl (clients st)) config
              (match geminiApiKey (clients st) with
               | Some key => key
               | None => []
               end)
              (ProblemInfo.problem_statement problemInfo) language
              imageDataList signal) ;;
         debugContent <- lift (Gemini.extract_debug response) ;;
         ret (inr (inl debugContent)))
        (fun _ =>
           ret (inl (failure (lit "Failed to process debug request with Gemini API. Please check your API key or try again later."))))
    else
      ret (inl (failure (lit "Gemini API key not configured. Please check your settings.")))
  | Config.anthropic =>
    st <- get ;;
    match anthropicClient (clients st) with
    | None =>
      ret (inl (failure (lit "Anthropic API key not configured. Please check your settings.")))
    | Some client =>
      try_catch
        (progress (lit "Analyzing code and generating debug feedback with Claude...") ;;
         response <- await_anthropic client
           (Anthropic.debug_request config
              (ProblemInfo.problem_statement problemInfo) language
              imageDataList) ;;
         debugContent <- lift (Anthropic.extract_debug response) ;;
         ret (inr debugContent))
        (fun error =>
           if status_is (status error) 429 then
             ret (inl (failure (lit "Claude API rate limit exceeded. Please wait a few minutes before trying again.")))
           else if status_is (status error) 413
                   || includes (message error) (lit "token") then
             ret (inl (failure (lit "Your screenshots contain too much information for Claude to process. Switch to OpenAI or Gemini in settings which can handle larger inputs.")))
           else
             ret (inl (failure (lit "Failed to process debug request with Anthropic API. Please check your API key or try again later."))))
    end
  end.

Definition processExtraScreenshotsHelper (screenshots : list screenshot)
    (signal : nat) : proc (helper_result Debug.response) :=
  fun st0 =>
    try_catch
      (let problemInfo := problemInfo (deps st0) in
       let language := getLanguage st0 in
       config <- loadConfig ;;
       let mainWindow := mainWindow (deps st0) in
       match problemInfo with
       | None => throw (Error (lit "No problem info available"))
       | Some problemInfo =>
         match mainWindow with
         | Some _ =>
           send processing_status
             (status_payload (lit "Processing debug screenshots...") 30)
         | None => ret tt
         end ;;
         let imageDataList := map data screenshots in
         early <- debug_content config problemInfo language mainWindow
                    imageDataList signal ;;
         match early with
         | inl result => ret result
         | inr debugContent =>
           match mainWindow with
           | Some _ =>
             send processing_status
               (status_payload (lit "Debug analysis complete") 100)
           | None => ret tt
           end ;;
           match debugContent with
           | inl text => ret (success (Debug.format text))
           | inr error => throw error
           end
         end
       end)
      (fun error =>
         ret (failure
                (or_else (message error)
                   (lit "Failed to process debug request"))))
      st0.

(** *** [processScreenshots] *)

(** The check of the client at the head of [processScreenshots]: [false]
    when the method has sent [API_KEY_INVALID] and returns. *)
Definition ensure_client (config : Config.t) : proc bool :=
  st <- get ;;
  let missing (st : state) : bool :=
    match Config.apiProvider config with
    | Config.openai =>
      match openaiClient (clients st) with Some _ => false | None => true end
    | Config.gemini => negb (truthy_opt (geminiApiKey (clients st)))
    | Config.anthropic =>
      match anthropicClient (clients st) with
      | Some _ => false
      | None => true
      end
    end in
  if missing st then
    modify initializeAIClient ;;
    st' <- get ;;
    if missing st' then send API_KEY_INVALID no_payload ;; ret false
    else ret true
  else ret true.

Definition names_credentials (error : str) : bool :=
  includes error (lit "API Key") || includes error (lit "OpenAI")
  || includes error (lit "Gemini") || includes error (lit "Anthropic").

Definition solve_pipeline : proc unit :=
  send INITIAL_START no_payload ;;
  st <- get ;;
  let screenshotQueue := screenshotQueue (screenshotHelper st) in
  match screenshotQueue with
  | [] => send NO_SCREENSHOTS no_payload
  | _ :: _ =>
    let existingScreenshots := filter (existsSync st) screenshotQueue in
    match existingScreenshots with
    | [] => send NO_SCREENSHOTS no_payload
    | _ :: _ =>
      try_finally
        (try_catch
           (modify new_processing_controller ;;
            let signal := next_controller (controllers st) in
            let validScreenshots := load_screenshots st existingScreenshots in
            match validScreenshots with
            | [] => throw (Error (lit "Failed to load screenshot data"))
            | _ :: _ =>
              result <- processScreenshotsHelper validScreenshots signal ;;
              match result with
              | failure error =>
                (if names_credentials error
                 then send API_KEY_INVALID no_payload
                 else send INITIAL_SOLUTION_ERROR (error_text error)) ;;
                setView queue
              | success data =>
                send SOLUTION_SUCCESS (solution_payload data) ;;
                setView solutions
              end
            end)
           (fun error =>
              send INITIAL_SOLUTION_ERROR (error_object error) ;;
              (if is_cancel error then
                 send INITIAL_SOLUTION_ERROR
                   (error_text (lit "Processing was canceled by the user."))
               else
                 send INITIAL_SOLUTION_ERROR
                   (error_text
                      (or_else (message error)
                         (lit "Server error. Please try again.")))) ;;
              setView queue))
        clear_processing_controller
    end
  end.

Definition debug_pipeline : proc unit :=
  st <- get ;;
  let extraScreenshotQueue := extraScreenshotQueue (screenshotHelper st) in
  match extraScreenshotQueue with
  | [] => send NO_SCREENSHOTS no_payload
  | _ :: _ =>
    let existingExtraScreenshots :=
      filter (existsSync st) extraScreenshotQueue in
    match existingExtraScreenshots with
    | [] => send NO_SCREENSHOTS no_payload
    | _ :: _ =>
      send DEBUG_START no_payload ;;
      modify new_extra_controller ;;
      let signal := next_controller (controllers st) in
      try_finally
        (try_catch
           (let allPaths :=
              screenshotQueue (screenshotHelper st)
              ++ existingExtraScreenshots in
            let validScreenshots := load_screenshots st allPaths in
            match validScreenshots with
            | [] =>
              throw (Error (lit "Failed to load screenshot data for debugging"))
            | _ :: _ =>
              result <- processExtraScreenshotsHelper validScreenshots
                          signal ;;
              match result with
              | success data =>
                modify (set_hasDebugged true) ;;
                send DEBUG_SUCCESS (debug_payload data)
              | failure error => send DEBUG_ERROR (error_text error)
              end
            end)
           (fun error =>
              if is_cancel error then
                send DEBUG_ERROR
                  (error_text
                     (lit "Extra processing was canceled by the user."))
              else send DEBUG_ERROR (error_text (message error))))
        clear_extra_controller
    end
  end.

Definition processScreenshots : proc unit :=
  st <- get ;;
  match mainWindow (deps st) with
  | None => ret tt
  | Some _ =>
    config <- loadConfig ;;
    ready <- ensure_client config ;;
    if ready then
      st' <- get ;;
      match view (deps st') with
      | queue => solve_pipeline
      | solutions => debug_pipeline
      end
    else ret tt
  end.

(** *** [cancelOngoingRequests] *)

Definition cancelOngoingRequests (st : state) : state :=
  let st1 :=
    match currentProcessingAbortController (controllers st) with
    | Some c => clear_processing_controller (abort c st)
    | None => st
    end in
  let st2 :=
    match currentExtraProcessingAbortController (controllers st1) with
    | Some c => clear_extra_controller (abort c st1)
    | None => st1
    end in
  let wasCancelled :=
    match currentProcessingAbortController (controllers st),
          currentExtraProcessingAbortController (controllers st) with
    | None, None => false
    | _, _ => true
    end in
  let st3 := set_problemInfo None (set_hasDebugged false st2) in
  match mainWindow (deps st3) with
  | Some w =>
    if wasCancelled && negb (isDestroyed w)
    then with_sent (sent st3 ++ [Send NO_SCREENSHOTS no_payload]) st3
    else st3
  | None => st3
  end.

(** *** Calls in flight

    The methods of the class are entered one at a time; between two awaits
    nothing else runs.  A system is the current state and the calls in
    flight, each with the rest of the method that awaits it. *)

Inductive pending : Type :=
| PendingOpenAI (client : OpenAI.client) (req : OpenAI.request)
    (k : outcome OpenAI.response -> state -> step unit)
| PendingGemini (req : Gemini.request)
    (k : outcome Gemini.response -> state -> step unit)
| PendingAnthropic (client : Anthropic.client) (req : Anthropic.request)
    (k : outcome Anthropic.response -> state -> step unit).

Record system : Type := { now : state; in_flight : list pending }.

(** A method ran up to its next await, its return or an uncaught throw. *)
Definition suspend (x : step unit) (others : list pending) : system :=
  match x with
  | Done _ st => {| now := st; in_flight := others |}
  | Thrown _ st => {| now := st; in_flight := others |}
  | AwaitOpenAI c req st k =>
    {| now := st; in_flight := others ++ [PendingOpenAI c req k] |}
  | AwaitGemini req st k =>
    {| now := st; in_flight := others ++ [PendingGemini req k] |}
  | AwaitAnthropic c req st k =>
    {| now := st; in_flight := others ++ [PendingAnthropic c req k] |}
  end.

Inductive action : Type :=
| call_processScreenshots
| call_cancelOngoingRequests
| config_updated (config : outcome Config.t)
| settle_openai (i : nat) (o : outcome OpenAI.response)
| settle_gemini (i : nat) (o : outcome Gemini.response)
| settle_anthropic (i : nat) (o : outcome Anthropic.response).

Fixpoint remove_nth {A : Type} (i : nat) (l : list A) : list A :=
  match l, i with
  | [], _ => []
  | _ :: l', 0 => l'
  | x :: l', S i' => x :: remove_nth i' l'
  end.

Definition is_aborted (st : state) (c : nat) : bool :=
  existsb (Nat.eqb c) (aborted (controllers st)).

Definition rejects_as_cancel {A : Type} (o : outcome A) : bool :=
  match o with Throw e => is_cancel e | Return _ => false end.

Definition with_stored_config (c : outcome Config.t) (st : state) : state :=
  {| stored_config := c; clients := clients st;
     controllers := controllers st; deps := deps st;
     screenshotHelper := screenshotHelper st; sent := sent st |}.

(** One action of the environment.  The axios call of the Gemini requests
    carries the signal: it rejects as canceled exactly when its controller
    was aborted; the two SDK calls get no signal and never reject as
    canceled. *)
Definition perform (a : action) (sys : system) : option system :=
  match a with
  | call_processScreenshots =>
    Some (suspend (processScreenshots (now sys)) (in_flight sys))
  | call_cancelOngoingRequests =>
    Some {| now := cancelOngoingRequests (now sys);
            in_flight := in_flight sys |}
  | config_updated c =>
    Some {| now := initializeAIClient (with_stored_config c (now sys));
            in_flight := in_flight sys |}
  | settle_openai i o =>
    match nth_error (in_flight sys) i with
    | Some (PendingOpenAI _ _ k) =>
      if rejects_as_cancel o then None
      else Some (suspend (k o (now sys)) (remove_nth i (in_flight sys)))
    | _ => None
    end
  | settle_gemini i o =>
    match nth_error (in_flight sys) i with
    | Some (PendingGemini req k) =>
      if Bool.eqb (rejects_as_cancel o)
                  (is_aborted (now sys) (Gemini.signal req))
      then Some (suspend (k o (now sys)) (remove_nth i (in_flight sys)))
      else None
    | _ => None
    end
  | settle_anthropic i o =>
    match nth_error (in_flight sys) i with
    | Some (PendingAnthropic _ _ k) =>
      if rejects_as_cancel o then None
      else Some (suspend (k o (now sys)) (remove_nth i (in_flight sys)))
    | _ => None
    end
  end.

Fixpoint run_actions (l : list action) (sys : system) : option system :=
  match l with
  | [] => Some sys
  | a :: l' =>
    match perform a sys with
    | Some sys' => run_actions l' sys'
    | None => None
    end
  end.

(** The state after the constructor, which calls [initializeAIClient]. *)
Definition constructed (config : outcome Config.t) (d : session) (h : shots)
    : state :=
  initializeAIClient
    {| stored_config := config;
       clients := no_clients;
       controllers :=
         {| currentProcessingAbortController := None;
            currentExtraProcessingAbortController := None;
            next_controller := 0;
            aborted := [] |};
       deps := d;
       screenshotHelper := h;
       sent := [] |}.

(** Feeding a rejection to the call a computation awaits. *)
Definition reject {A : Type} (x : step A) (e : js_error) (st : state)
    : option (step A) :=
  match x with
  | AwaitOpenAI _ _ _ k => Some (k (Throw e) st)
  | AwaitGemini _ _ k => Some (k (Throw e) st)
  | AwaitAnthropic _ _ _ k => Some (k (Throw e) st)
  | Done _ _ => None
  | Thrown _ _ => None
  end.

(** A computation that ended without a provider call. *)
Definition no_call {A : Type} (x : step A) : Prop :=
  match x with
  | Done _ _ => True
  | Thrown _ _ => True
  | _ => False
  end.

(** A reply of one of the three providers, the text the solve helper takes
    from it, and the feeding of the reply to the call a computation
    awaits. *)
Inductive reply : Type :=
| openai_reply (r : OpenAI.response)
| gemini_reply (r : Gemini.response)
| anthropic_reply (r : Anthropic.response).

Definition reply_fullText (r : reply) : outcome str :=
  match r with
  | openai_reply r => Return (OpenAI.extract r)
  | gemini_reply r => Gemini.extract r
  | anthropic_reply r => Return (Anthropic.extract r)
  end.

Definition resume {A : Type} (x : step A) (r : reply) (st : state)
    : option (step A) :=
  match x, r with
  | AwaitOpenAI _ _ _ k, openai_reply r => Some (k (Return r) st)
  | AwaitGemini _ _ k, gemini_reply r => Some (k (Return r) st)
  | AwaitAnthropic _ _ _ k, anthropic_reply r => Some (k (Return r) st)
  | _, _ => None
  end.

(** The call a computation awaits. *)
Inductive call : Type :=
| openai_call (client : OpenAI.client) (req : OpenAI.request)
| gemini_call (req : Gemini.request)
| anthropic_call (client : Anthropic.client) (req : Anthropic.request).

Definition awaited {A : Type} (x : step A) : option call :=
  match x with
  | AwaitOpenAI c req _ _ => Some (openai_call c req)
  | AwaitGemini req _ _ => Some (gemini_call req)
  | AwaitAnthropic c req _ _ => Some (anthropic_call c req)
  | Done _ _ => None
  | Thrown _ _ => None
  end.

Definition call_of (p : pending) : call :=
  match p with
  | PendingOpenAI c req _ => openai_call c req
  | PendingGemini req _ => gemini_call req
  | PendingAnthropic c req _ => anthropic_call c req
  end.

(** The number of images a call carries. *)
Definition images_in (c : call) : nat :=
  match c with
  | openai_call _ req => length (OpenAI.image_parts req)
  | gemini_call req => length (Gemini.image_parts req)
  | anthropic_call _ req => length (Anthropic.image_blocks req)
  end.

(** What can be seen of a system: the events sent so far, the controllers
    and the calls in flight. *)
Record observation : Type :=
  { events : list event; abort_state : tokens; calls : list call }.

Definition observe (sys : system) : observation :=
  {| events := sent (now sys);
     abort_state := controllers (now sys);
     calls := map call_of (in_flight sys) |}.

(** A run that reached its provider call has put a fresh controller in the
    field of its pipeline; nothing was aborted on the way. *)
Definition installs_fresh_controller (st st1 : state) : Prop :=
  let t := controllers st in
  let t1 := controllers st1 in
  aborted t1 = aborted t /\
  next_controller t1 = S (next_controller t) /\
  match view (deps st) with
  | queue =>
    currentProcessingAbortController t1 = Some (next_controller t) /\
    currentExtraProcessingAbortController t1
    = currentExtraProcessingAbortController t
  | solutions =>
    currentExtraProcessingAbortController t1 = Some (next_controller t) /\
    currentProcessingAbortController t1 = currentProcessingAbortController t
  end.

(** [P] holds of the state in which a computation awaits its call, and [Q]
    of the request when it is a Gemini request. *)
Definition awaits_in {A : Type} (P : state -> Prop)
    (Q : Gemini.request -> Prop) (x : step A) : Prop :=
  match x with
  | AwaitOpenAI _ _ st1 _ => P st1
  | AwaitGemini req st1 _ => P st1 /\ Q req
  | AwaitAnthropic _ _ st1 _ => P st1
  | Done _ _ => True
  | Thrown _ _ => True
  end.

End Coordinator.

(** ** Deterministic readings of the regular expressions

    The functions below scan a string directly.  They are not part of the
    embedding: the lemmas of the second part prove that the backtracking
    matcher, run on the regular expressions of the source, computes them. *)

Module Scan.

Fixpoint takeWhile (p : char -> bool) (s : str) : str :=
  match s with
  | x :: s' => if p x then x :: takeWhile p s' else []
  | [] => []
  end.

Fixpoint dropWhile (p : char -> bool) (s : str) : str :=
  match s with
  | x :: s' => if p x then dropWhile p s' else s
  | [] => []
  end.

(** The first occurrence of [needle]: what precedes it and what follows. *)
Fixpoint find_sub (needle s : str) : option (str * str) :=
  match strip_prefix needle s with
  | Some rest => Some ([], rest)
  | None =>
    match s with
    | [] => None
    | x :: s' =>
      match find_sub needle s' with
      | Some (b, a) => Some (x :: b, a)
      | None => None
      end
    end
  end.

(** A fenced block that starts at the head of [s]: language tag and body. *)
Definition fence_at (s : str) : option (str * str) :=
  match strip_prefix fence s with
  | Some s1 =>
    match dropWhile lang_char s1 with
    | x :: s2 =>
      if (newline =? x)%N then
        match find_sub fence s2 with
        | Some (body, _) => Some (takeWhile lang_char s1, body)
        | None => None
        end
      else None
    | [] => None
    end
  | None => None
  end.

Definition skip_colon (s : str) : str :=
  match s with
  | x :: s' => if colon_char x then s' else s
  | [] => s
  end.

Definition colon_length (s : str) : nat :=
  match s with
  | x :: _ => if colon_char x then 1 else 0
  | [] => 0
  end.

Definition letter_after (s : str) : option char :=
  match dropWhile is_ws (skip_colon s) with
  | x :: _ => if choice_char x then Some x else None
  | [] => None
  end.

(** A labelled answer that starts at the head of [s]: its letter. *)
Definition label_at (s : str) : option char :=
  match strip_prefix (lit "最终答案") s with
  | Some s1 => letter_after s1
  | None =>
    match strip_prefix (lit "答案") s with
    | Some s1 => letter_after s1
    | None => None
    end
  end.

(** Two tails of [letterRegex], named for the lemmas about them. *)
Definition letterTail : regex :=
  Star is_ws @@ Group 1 (Class choice_char).

Definition letterRest : regex := Opt (Class colon_char) @@ letterTail.

(** The pieces between line breaks ([\n] or [\r\n]); [piece] is the current
    piece in reverse. *)
Fixpoint split_lines (s : str) (piece : str) : list str :=
  match s with
  | [] => [rev piece]
  | x :: s' =>
    if (newline =? x)%N then rev piece :: split_lines s' []
    else
      match s' with
      | y :: s'' =>
        if ((carriage_return =? x) && (newline =? y))%N
        then rev piece :: split_lines s'' []
        else split_lines s' (x :: piece)
      | [] => split_lines s' (x :: piece)
      end
  end.

(** The pieces between [\n] only. *)
Fixpoint split_newline (s : str) (piece : str) : list str :=
  match s with
  | [] => [rev piece]
  | x :: s' =>
    if (newline =? x)%N then rev piece :: split_newline s' []
    else split_newline s' (x :: piece)
  end.

Definition solo_letter (l : str) : bool :=
  match l with
  | [x] => choice_char x
  | _ => false
  end.

End Scan.

Export Scan.

(** ** What a text contains

    The patterns of the classifier stated on the text itself, without the
    matcher. *)

Module Patterns.

(** [t] holds a fenced block after [pre]: three backticks, a language tag of
    class members only, a line feed, the body, three backticks. *)
Definition fenced (t pre lang body post : str) : Prop :=
  t = pre ++ fence ++ lang ++ newline :: body ++ fence ++ post /\
  forallb lang_char lang = true.

Definition has_fence (t : str) : Prop :=
  exists pre lang body post, fenced t pre lang body post.

(** The leftmost fenced block and, at that place, the shortest body. *)
Definition first_fenced (t pre lang body post : str) : Prop :=
  fenced t pre lang body post /\
  forall pre' lang' body' post',
    fenced t pre' lang' body' post' ->
    length pre < length pre' \/
    (length pre = length pre' /\ length body <= length body').

(** [t] holds a labelled answer after [pre]: the label, at most one colon
    (ASCII or full width), white space, a letter among [ABCDabcd]. *)
Definition labelled (t pre : str) (letter : char) (post : str) : Prop :=
  exists label colon ws,
    t = pre ++ label ++ colon ++ ws ++ letter :: post /\
    (label = lit "最终答案" \/ label = lit "答案") /\
    (colon = [] \/ exists x, colon = [x] /\ colon_char x = true) /\
    forallb is_ws ws = true /\
    choice_char letter = true.

Definition has_label (t : str) : Prop :=
  exists pre letter post, labelled t pre letter post.

Definition first_labelled (t pre : str) (letter : char) (post : str) : Prop :=
  labelled t pre letter post /\
  forall pre' letter' post',
    labelled t pre' letter' post' -> length pre <= length pre'.

(** [ls] are the lines of [t]: [t] is [ls] joined by line feeds and no line
    holds a line feed. *)
Definition lines_of (t : str) (ls : list str) : Prop :=
  ls <> [] /\ t = join [newline] ls /\
  Forall (fun l => ~ In newline l) ls.

(** A line that, trimmed, is one letter among [ABCDabcd]. *)
Definition solo (l : str) (letter : char) : Prop :=
  trim l = [letter] /\ choice_char letter = true.

Definition has_solo_line (t : str) : Prop :=
  exists ls l letter, lines_of t ls /\ In l ls /\ solo l letter.


(** [l] is the first line of [t] that is a lone letter. *)
Definition first_solo_line (t l : str) (letter : char) : Prop :=
  exists before after,
    lines_of t (before ++ l :: after) /\ solo l letter /\
    Forall (fun l' => forall y, ~ solo l' y) before.

(** The letter the classifier is to choose: that of the leftmost labelled
    answer or, when the text has no labelled answer, that of the first
    lone-letter line. *)
Definition chosen_letter (t : str) (x : char) : Prop :=
  (exists pre post, first_labelled t pre x post) \/
  (~ has_label t /\ exists l, first_solo_line t l x).

(** The message of the error thrown on a blank reply. *)
Definition blank_message : str := lit "模型未返回内容，请重试或检查截图质量。".


Definition analysis_response (text : str) (letter : option str)
    : formattedResponse :=
  {| answer_type := AnswerAnalysis;
     content := text;
     Classifier.code := None;
     final_answer := letter;
     thoughts := None;
     time_complexity := None;
     space_complexity := None;
     key_takeaways :=
       match letter with
       | Some l => Some [lit "正确选项：" ++ l]
       | None => None
       end |}.

End Patterns.

Export Patterns.

(** ** The vendor contracts of the solve requests *)

Module Contracts.

Definition well_formed_openai (req : OpenAI.request) (images : list str) : Prop :=
  exists text,
    OpenAI.messages req
    = [ {| OpenAI.role := lit "user";
           OpenAI.content_of :=
             OpenAI.content_parts
               (OpenAI.text_part text :: OpenAI.image_parts req) |} ] /\
    OpenAI.image_parts req
    = map (fun d => OpenAI.image_url_part (lit "data:image/png;base64," ++ d))
          images /\
    length (OpenAI.image_parts req) = length images.

Definition well_formed_gemini (req : Gemini.request) (images : list str) : Prop :=
  exists text,
    Gemini.contents (Gemini.body_of req)
    = [ {| Gemini.role := lit "user";
           Gemini.parts :=
             Gemini.image_parts req ++ [Gemini.text_part text] |} ] /\
    Gemini.image_parts req
    = map (fun d => Gemini.inlineData_part (lit "image/png") d) images /\
    length (Gemini.image_parts req) = length images.

Definition well_formed_anthropic (req : Anthropic.request) (images : list str)
    : Prop :=
  exists text,
    Anthropic.messages req
    = [ {| Anthropic.role := lit "user";
           Anthropic.content :=
             Anthropic.text_block text :: Anthropic.image_blocks req |} ] /\
    Anthropic.image_blocks req
    = map (fun d =>
             Anthropic.image_block
               {| Anthropic.type := lit "base64";
                  Anthropic.media_type := lit "image/png";
                  Anthropic.data := d |})
          images /\
    length (Anthropic.image_blocks req) = length images.

End Contracts.

Export Contracts.

(** ** Settled calls

    The vocabulary of the statements about a run after its provider call:
    how the call was settled and what the run reads from the settlement. *)

Module Outcomes.

Import Coordinator.

(** A call is settled by a reply or by a rejection. *)
Inductive settlement : Type :=
| replied (r : reply)
| rejected (e : js_error).

(** Feeding a settlement to the call a computation awaits. *)
Definition continue {A : Type} (x : step A) (s : settlement) (st : state)
    : option (step A) :=
  match s with
  | replied r => resume x r st
  | rejected e => reject x e st
  end.

(** The text the solve helper has after the call, or what it throws. *)
Definition fullText_of (s : settlement) : outcome str :=
  match s with
  | replied r => reply_fullText r
  | rejected e => Throw e
  end.

(** The answer the solve helper classifies that text into. *)
Definition classified (s : settlement) (language : str)
    : outcome (formattedResponse * ProblemInfo.t) :=
  match fullText_of s with
  | Return fullText => formatDirectResponse fullText language
  | Throw e => Throw e
  end.

(** The text the debug helper formats, when the settlement gives one. *)
Definition debug_text (s : settlement) : option str :=
  match s with
  | replied (openai_reply r) =>
    match OpenAI.extract_debug r with Return (inl t) => Some t | _ => None end
  | replied (gemini_reply r) =>
    match Gemini.extract_debug r with Return t => Some t | _ => None end
  | replied (anthropic_reply r) =>
    match Anthropic.extract_debug r with
    | Return (inl t) => Some t
    | _ => None
    end
  | rejected _ => None
  end.

(** The status event at the end of the debug helper. *)
Definition analysis_complete : event :=
  Send processing_status (status_payload (lit "Debug analysis complete") 100).

(** The test at the head of [processScreenshots]: the configured provider
    has no client (no key, for Gemini). *)
Definition client_missing (config : Config.t) (r : registry) : bool :=
  match Config.apiProvider config with
  | Config.openai =>
    match openaiClient r with Some _ => false | None => true end
  | Config.gemini => negb (truthy_opt (geminiApiKey r))
  | Config.anthropic =>
    match anthropicClient r with Some _ => false | None => true end
  end.

(** The code of a debug response that holds no fenced text. *)
Definition placeholder : str := lit "// Debug mode - see analysis below".

End Outcomes.

Export Outcomes.

(** ** What a call carries *)

Module Requests.

Import Coordinator.

(** The image payloads of a call, in the order of the request. *)
Definition images_of (c : call) : list str :=
  match c with
  | openai_call _ req =>
    flat_map
      (fun m =>
         match OpenAI.content_of m with
         | OpenAI.content_parts ps =>
           flat_map
             (fun p =>
                match p with
                | OpenAI.image_url_part url => [url]
                | OpenAI.text_part _ => []
                end) ps
         | OpenAI.content_string _ => []
         end)
      (OpenAI.messages req)
  | gemini_call req =>
    flat_map
      (fun c =>
         flat_map
           (fun p =>
              match p with
              | Gemini.inlineData_part _ d => [d]
              | Gemini.text_part _ => []
              end) (Gemini.parts c))
      (Gemini.contents (Gemini.body_of req))
  | anthropic_call _ req =>
    flat_map
      (fun m =>
         flat_map
           (fun b =>
              match b with
              | Anthropic.image_block src => [Anthropic.data src]
              | Anthropic.text_block _ => []
              end) (Anthropic.content m))
      (Anthropic.messages req)
  end.

(** How a call carries the base64 text of a screenshot: OpenAI as a data
    URL, Gemini and Anthropic as it is. *)
Definition carried (c : call) (d : str) : str :=
  match c with
  | openai_call _ _ => lit "data:image/png;base64," ++ d
  | _ => d
  end.

(** The shapes of the debug requests. *)
Definition debug_openai (req : OpenAI.request) (images : list str) : Prop :=
  exists system text,
    OpenAI.messages req
    = [ {| OpenAI.role := lit "system";
           OpenAI.content_of := OpenAI.content_string system |};
        {| OpenAI.role := lit "user";
           OpenAI.content_of :=
             OpenAI.content_parts
               (OpenAI.text_part text
                :: map (fun d =>
                          OpenAI.image_url_part
                            (lit "data:image/png;base64," ++ d)) images) |} ].

Definition debug_gemini (req : Gemini.request) (images : list str) : Prop :=
  exists text,
    Gemini.contents (Gemini.body_of req)
    = [ {| Gemini.role := lit "user";
           Gemini.parts :=
             Gemini.text_part text
             :: map (fun d => Gemini.inlineData_part (lit "image/png") d)
                    images |} ].

Definition debug_anthropic (req : Anthropic.request) (images : list str)
    : Prop :=
  exists text,
    Anthropic.messages req
    = [ {| Anthropic.role := lit "user";
           Anthropic.content :=
             Anthropic.text_block text :: map Anthropic.image_of images |} ].

End Requests.

Export Requests.

(** ** Invariants of suspended computations *)

Module Invariants.

Import Coordinator.

(** [stops_in P x]: [P] holds of the state in which [x] first stops, by
    returning, by throwing or by awaiting a call. *)
Definition stops_in {A : Type} (P : state -> Prop) (x : step A) : Prop :=
  match x with
  | Done _ st => P st
  | Thrown _ st => P st
  | AwaitOpenAI _ _ st _ => P st
  | AwaitGemini _ st _ => P st
  | AwaitAnthropic _ _ st _ => P st
  end.

(** [respects I P x]: every state in which [x] awaits a call satisfies [I];
    when each call is settled in a state that satisfies [I], with whatever
    outcome, every end of [x] satisfies [P]. *)
Fixpoint respects (I : state -> Prop) {A : Type}
    (P : outcome A -> state -> Prop) (x : step A) : Prop :=
  match x with
  | Done a st => P (Return a) st
  | Thrown e st => P (Throw e) st
  | AwaitOpenAI _ _ st k =>
    I st /\ forall o st', I st' -> respects I P (k o st')
  | AwaitGemini _ st k =>
    I st /\ forall o st', I st' -> respects I P (k o st')
  | AwaitAnthropic _ _ st k =>
    I st /\ forall o st', I st' -> respects I P (k o st')
  end.

(** The rest of a method that awaits a call keeps [I]. *)
Definition pending_respects (I : state -> Prop) (p : pending) : Prop :=
  match p with
  | PendingOpenAI _ _ k =>
    forall o st', I st' -> respects I (fun _ st => I st) (k o st')
  | PendingGemini _ k =>
    forall o st', I st' -> respects I (fun _ st => I st) (k o st')
  | PendingAnthropic _ _ k =>
    forall o st', I st' -> respects I (fun _ st => I st) (k o st')
  end.

(** The window of the session is there and not destroyed.  [send] is the
    [webContents.send] of such a window; on a destroyed window Electron
    throws. *)
Definition alive (st : state) : Prop :=
  exists w, mainWindow (deps st) = Some w /\ isDestroyed w = false.

End Invariants.

Export Invariants.

(** ** Waiting for the renderer: [waitForInitialization] and [getCredits] *)

Module Startup.
Import Coordinator.

Definition maxAttempts : nat := 50.

(** The loop of [waitForInitialization].  [polls n] is what the evaluation
    of [window.__IS_INITIALIZED__] gives when [n] timers of 100 ms have
    passed: the truthiness of the value, or the rejection of
    [executeJavaScript].  [remaining] is [maxAttempts - attempts]; the
    result is the number of timers awaited before the method returned. *)
Fixpoint wait_loop (remaining attempts : nat) (polls : nat -> outcome bool)
    : outcome nat :=
  match remaining with
  | 0 => Throw (Error (lit "App failed to initialize after 5 seconds"))
  | S remaining' =>
    match polls attempts with
    | Throw e => Throw e
    | Return isInitialized =>
      if isInitialized then Return attempts
      else wait_loop remaining' (S attempts) polls
    end
  end.

Definition waitForInitialization (polls : nat -> outcome bool)
    : outcome nat :=
  wait_loop maxAttempts 0 polls.

Definition getCredits (mainWindow : option window)
    (polls : nat -> outcome bool) : N :=
  match mainWindow with
  | None => 999%N
  | Some _ =>
    match waitForInitialization polls with
    | Return _ => 999%N
    | Throw _ => 999%N
    end
  end.

End Startup.

(** ** The renderer: the solutions view *)

Module Renderer.

(** [/O\([^)]+\)/i] *)
Definition not_paren : char -> bool :=
  ignore_case (fun c => negb (is_char ")" c)).

Definition bigORegex : regex :=
  LitI (lit "O(") @@ Class not_paren @@ Star not_paren
  @@ LitI (lit ")").

(** [formatComplexity] of [ComplexitySection]; [None] is [null]. *)
Definition formatComplexity (complexity : option str) : str :=
  match complexity with
  | None => lit "Complexity not available"
  | Some c =>
    if negb (truthy c) || eqb_str (trim c) (lit "")
    then lit "Complexity not available"
    else if test bigORegex c then c
    else lit "O(" ++ c ++ lit ")"
  end.

(** A text holds a term in big-O notation: the letter O in either case,
    an opening parenthesis, a code unit other than the closing parenthesis
    and, further on, a closing parenthesis. *)
Definition big_o_term (c : str) : Prop :=
  exists pre o x mid post,
    c = pre ++ o :: cu "(" :: x :: mid ++ cu ")" :: post /\
    (o = cu "O" \/ o = cu "o") /\ x <> cu ")".

(** The same for a term at the head of the text, as a test. *)
Definition big_o_at (s : str) : bool :=
  match s with
  | o :: p :: x :: rest =>
    ((o =? cu "O") || (o =? cu "o"))%N && (p =? cu "(")%N
    && negb (x =? cu ")")%N
    && match dropWhile not_paren rest with
       | y :: _ => (y =? cu ")")%N
       | [] => false
       end
  | _ => false
  end.

(** What [ComplexitySection] shows. *)
Inductive complexity_view : Type :=
| Calculating
| Complexities (time space : str).

Definition ComplexitySection (timeComplexity spaceComplexity : option str)
    (isLoading : bool) : complexity_view :=
  if isLoading then Calculating
  else Complexities (formatComplexity timeComplexity)
                    (formatComplexity spaceComplexity).

(** [SolutionPayload] *)
Record payload : Type :=
  { answer_type : AnswerType;
    content : str;
    code : str;
    thoughts : list str;
    time_complexity : option str;
    space_complexity : option str;
    key_takeaways : option (list str);
    question_type : option str }.

(** The state of the [Solutions] component that a solution writes. *)
Record view_state : Type :=
  { solutionData : option str;
    thoughtsData : option (list str);
    timeComplexityData : option str;
    spaceComplexityData : option str;
    answerType : AnswerType;
    keyTakeawaysData : option (list str);
    questionType : option str }.

Definition allowedQuestionTypes : list str :=
  [ lit "coding"; lit "reading_comprehension"; lit "logical_reasoning";
    lit "data_interpretation"; lit "math"; lit "other" ].

Definition normalizeQuestionType (value : option str) : option str :=
  if negb (truthy_opt value) then None
  else
    let cleaned :=
      toLowerCase (match value with Some v => v | None => [] end) in
    if existsb (eqb_str cleaned) allowedQuestionTypes then Some cleaned
    else None.

(** What the type [QuestionType | null] of the state promises. *)
Definition allowed (q : option str) : Prop :=
  match q with
  | None => True
  | Some s => In s allowedQuestionTypes
  end.

Definition applySolutionState (p : option payload) (st : view_state)
    : view_state :=
  match p with
  | None =>
    {| solutionData := None;
       thoughtsData := None;
       timeComplexityData := None;
       spaceComplexityData := None;
       answerType := AnswerCode;
       keyTakeawaysData := None;
       questionType := None |}
  | Some payload =>
    let normalized := normalizeQuestionType (question_type payload) in
    {| solutionData := Some (content payload);
       thoughtsData := Some (thoughts payload);
       timeComplexityData := time_complexity payload;
       spaceComplexityData := space_complexity payload;
       answerType := answer_type payload;
       keyTakeawaysData := key_takeaways payload;
       questionType :=
         if truthy_opt normalized then normalized else questionType st |}
  end.

(** The object [normalizedSolution] that the handler of SOLUTION_SUCCESS
    builds from the response it receives.  The response is the
    [formattedResponse] of the classifier: its [answer_type] is one of two
    non-empty strings, its [content] is a string, and it has no
    [question_type]. *)
Definition normalizedSolution (data : formattedResponse) : payload :=
  {| answer_type := Classifier.answer_type data;
     content :=
       or_else (Classifier.content data)
         (if truthy_opt (Classifier.code data)
          then match Classifier.code data with Some c => c | None => [] end
          else lit "");
     code :=
       if truthy_opt (Classifier.code data)
       then match Classifier.code data with Some c => c | None => [] end
       else or_else (Classifier.content data) (lit "");
     thoughts :=
       match Classifier.thoughts data with Some l => l | None => [] end;
     time_complexity := Classifier.time_complexity data;
     space_complexity := Classifier.space_complexity data;
     key_takeaways := Classifier.key_takeaways data;
     question_type := None |}.

(** The component: the state that a solution writes, and the entry of the
    query cache under the key ["solution"].  [None]: the cache holds no such
    query; [Some None]: the query is there and has no data yet. *)
Record component : Type :=
  { shown : view_state;
    solution_query : option (option payload) }.

(** [queryClient.getQueryData(["solution"])]; [None] is [undefined]. *)
Definition getQueryData (c : component) : option payload :=
  match solution_query c with
  | Some data => data
  | None => None
  end.

(** The subscription of the component to the query cache, for an event of
    the ["solution"] query: the state is applied from what the cache holds
    at that moment. *)
Definition on_solution_event (c : component) : component :=
  {| shown := applySolutionState (getQueryData c) (shown c);
     solution_query := solution_query c |}.

(** [queryClient.setQueryData(["solution"], data)] of TanStack Query: a
    query that the cache does not hold is built first, and the subscribers
    are told of the addition while it has no data; the data is then set and
    the subscribers are told of the update.  The subscribers run before
    [setQueryData] returns. *)
Definition setQueryData (data : payload) (c : component) : component :=
  let built :=
    match solution_query c with
    | None =>
      on_solution_event {| shown := shown c; solution_query := Some None |}
    | Some _ => c
    end in
  on_solution_event
    {| shown := shown built; solution_query := Some (Some data) |}.

(** The handler of SOLUTION_SUCCESS; [None] is a falsy [data]. *)
Definition onSolutionSuccess (data : option formattedResponse)
    (c : component) : component :=
  match data with
  | None => c
  | Some data =>
    let normalized := normalizedSolution data in
    let c1 := setQueryData normalized c in
    {| shown := applySolutionState (Some normalized) (shown c1);
       solution_query := solution_query c1 |}
  end.

(** [{solutionData && ...}]: the sections of the solution are rendered. *)
Definition shows_solution (st : view_state) : bool :=
  truthy_opt (solutionData st).

(** The complexity section of the rendered solution, when there is one. *)
Definition complexity_panel (st : view_state) : option complexity_view :=
  if shows_solution st then
    match answerType st with
    | AnswerCode =>
      Some (ComplexitySection (timeComplexityData st)
              (spaceComplexityData st)
              (negb (truthy_opt (timeComplexityData st))
               || negb (truthy_opt (spaceComplexityData st))))
    | AnswerAnalysis => None
    end
  else None.

(** The key takeaways are rendered for an answer that is not code and has
    at least one. *)
Definition takeaways_panel (st : view_state) : option (list str) :=
  if shows_solution st then
    match answerType st, keyTakeawaysData st with
    | AnswerAnalysis, Some (x :: l) => Some (x :: l)
    | _, _ => None
    end
  else None.

End Renderer.

(** ** The settings dialog *)

Module Settings.
Import Config.

Definition DEFAULT_MODELS (provider : Provider) : str :=
  match provider with
  | openai => lit "gpt5"
  | gemini => lit "gemini2.5flash"
  | anthropic => lit "claude-sonnet-4-5"
  end.

Definition DEFAULT_BASE_URLS (provider : Provider) : str :=
  match provider with
  | openai => lit "https://api.openai.com/v1"
  | gemini => lit "https://generativelanguage.googleapis.com"
  | anthropic => lit "https://api.anthropic.com"
  end.

(** The state of the dialog. *)
Record form : Type :=
  { apiKey : str;
    apiProvider : Provider;
    openaiModel : str;
    geminiModel : str;
    anthropicModel : str;
    openaiBaseUrl : str;
    geminiBaseUrl : str;
    anthropicBaseUrl : str }.

Definition model_of (provider : Provider) (f : form) : str :=
  match provider with
  | openai => openaiModel f
  | gemini => geminiModel f
  | anthropic => anthropicModel f
  end.

Definition baseUrl_of (provider : Provider) (f : form) : str :=
  match provider with
  | openai => openaiBaseUrl f
  | gemini => geminiBaseUrl f
  | anthropic => anthropicBaseUrl f
  end.

(** [if (!value.trim()) set(fallback)] *)
Definition unless_blank (value fallback : str) : str :=
  if negb (truthy (trim value)) then fallback else value.

Definition handleProviderChange (provider : Provider) (f : form) : form :=
  match provider with
  | openai =>
    {| apiKey := apiKey f;
       apiProvider := provider;
       openaiModel := unless_blank (openaiModel f) (DEFAULT_MODELS openai);
       geminiModel := geminiModel f;
       anthropicModel := anthropicModel f;
       openaiBaseUrl :=
         unless_blank (openaiBaseUrl f) (DEFAULT_BASE_URLS openai);
       geminiBaseUrl := geminiBaseUrl f;
       anthropicBaseUrl := anthropicBaseUrl f |}
  | gemini =>
    {| apiKey := apiKey f;
       apiProvider := provider;
       openaiModel := openaiModel f;
       geminiModel := unless_blank (geminiModel f) (DEFAULT_MODELS gemini);
       anthropicModel := anthropicModel f;
       openaiBaseUrl := openaiBaseUrl f;
       geminiBaseUrl :=
         unless_blank (geminiBaseUrl f) (DEFAULT_BASE_URLS gemini);
       anthropicBaseUrl := anthropicBaseUrl f |}
  | anthropic =>
    {| apiKey := apiKey f;
       apiProvider := provider;
       openaiModel := openaiModel f;
       geminiModel := geminiModel f;
       anthropicModel :=
         unless_blank (anthropicModel f) (DEFAULT_MODELS anthropic);
       openaiBaseUrl := openaiBaseUrl f;
       geminiBaseUrl := geminiBaseUrl f;
       anthropicBaseUrl :=
         unless_blank (anthropicBaseUrl f) (DEFAULT_BASE_URLS anthropic) |}
  end.

(** [maskApiKey]: [substring(0, 4)], three dots, [substring(length - 4)]. *)
Definition maskApiKey (key : str) : str :=
  if negb (truthy key) || (length key <? 10) then lit ""
  else firstn 4 key ++ lit "..." ++ skipn (length key - 4) key.

End Settings.

(** ** Sample replies *)

Module Samples.

(** A fenced block followed by a labelled answer. *)
Definition fence_and_label : str := lit "```python
print(1)
```
最终答案：B".


(** A fenced block whose lines end in carriage return and line feed, and a
    labelled answer. *)
Definition crlf_fenced : str :=
  lit "```python" ++ [carriage_return; newline] ++ lit "x = 1"
  ++ [carriage_return; newline] ++ lit "```"
  ++ [carriage_return; newline] ++ lit "最终答案：B".

(** Prose without fence, label or lone letter. *)
Definition plain_prose : str := lit "  The graph is bipartite.
It has no odd cycle.  ".

(** The reply of the end-to-end scenario. *)
Definition labelled_reply : str := lit "最终答案：C
因为C最符合题意".

(** A lone-letter line and no label. *)
Definition lone_letter_reply : str := lit "I think the answer is
 b
because of the second clause".

(** A Gemini reply cut off at the token limit before any text was
    produced. *)
Definition truncated_reply : Gemini.response :=
  {| Gemini.candidates :=
       Some [ {| Gemini.reply_parts := Some [ {| Gemini.text := Some (lit "") |} ];
                 Gemini.finishReason := Some (lit "MAX_TOKENS") |} ];
     Gemini.blockReason := None |}.

(** A Gemini reply cut off at the token limit with some text. *)
Definition partial_reply : Gemini.response :=
  {| Gemini.candidates :=
       Some [ {| Gemini.reply_parts :=
                   Some [ {| Gemini.text := Some (lit "The loop runs one time too") |} ];
                 Gemini.finishReason := Some (lit "MAX_TOKENS") |} ];
     Gemini.blockReason := None |}.

(** Configurations, sessions and screenshot queues for the sample runs. *)
Definition config_of (provider : Config.Provider) : Config.t :=
  {| Config.apiProvider := provider;
     Config.apiKey := lit "sample-key";
     Config.openaiModel := lit "gpt-4o";
     Config.geminiModel := lit "gemini-2.0-flash";
     Config.anthropicModel := lit "claude-3-7-sonnet-20250219";
     Config.openaiBaseUrl := None;
     Config.geminiBaseUrl := None;
     Config.anthropicBaseUrl := None;
     Config.language := lit "python" |}.

Definition one_shot : Coordinator.shots :=
  {| Coordinator.screenshotQueue := [lit "/tmp/shot-1.png"];
     Coordinator.extraScreenshotQueue := [];
     Coordinator.files := [(lit "/tmp/shot-1.png", lit "iVBORw0KGgo=")] |}.

Definition two_shots : Coordinator.shots :=
  {| Coordinator.screenshotQueue := [lit "/tmp/shot-1.png"];
     Coordinator.extraScreenshotQueue := [lit "/tmp/extra-1.png"];
     Coordinator.files :=
       [(lit "/tmp/shot-1.png", lit "iVBORw0KGgo=");
        (lit "/tmp/extra-1.png", lit "iVBORw0KGgp=")] |}.

Definition session_in (v : Coordinator.View)
    (info : option ProblemInfo.t) : Coordinator.session :=
  {| Coordinator.mainWindow := Some {| Coordinator.isDestroyed := false |};
     Coordinator.window_language := None;
     Coordinator.view := v;
     Coordinator.problemInfo := info;
     Coordinator.hasDebugged := false |}.

(** The queue view with one screenshot, nothing in flight. *)
Definition idle (provider : Config.Provider) : Coordinator.system :=
  {| Coordinator.now :=
       Coordinator.constructed (Return (config_of provider))
         (session_in Coordinator.queue None) one_shot;
     Coordinator.in_flight := [] |}.

Definition some_problem : ProblemInfo.t :=
  {| ProblemInfo.problem_statement := lit "Two Sum";
     ProblemInfo.constraints := lit "N/A";
     ProblemInfo.example_input := lit "N/A";
     ProblemInfo.example_output := lit "N/A";
     ProblemInfo.answer_expectations := lit "N/A";
     ProblemInfo.supporting_material := lit "N/A";
     ProblemInfo.evaluation_focus := lit "N/A";
     ProblemInfo.language_hint := lit "python";
     ProblemInfo.final_answer := lit "N/A";
     ProblemInfo.final_explanation := lit "N/A";
     ProblemInfo.reasoning_steps := [];
     ProblemInfo.raw_response := lit "N/A" |}.

(** The solutions view with an extra screenshot, after a solve run. *)
Definition solved (provider : Config.Provider) : Coordinator.system :=
  {| Coordinator.now :=
       Coordinator.constructed (Return (config_of provider))
         (session_in Coordinator.solutions (Some some_problem)) two_shots;
     Coordinator.in_flight := [] |}.

(** The solutions view with an extra screenshot but no problem context. *)
Definition without_context (provider : Config.Provider)
    : Coordinator.system :=
  {| Coordinator.now :=
       Coordinator.constructed (Return (config_of provider))
         (session_in Coordinator.solutions None) two_shots;
     Coordinator.in_flight := [] |}.

(** A Gemini reply with the labelled answer of the end-to-end scenario. *)
Definition gemini_answer : Gemini.response :=
  {| Gemini.candidates :=
       Some [ {| Gemini.reply_parts :=
                   Some [ {| Gemini.text := Some labelled_reply |} ];
                 Gemini.finishReason := Some (lit "STOP") |} ];
     Gemini.blockReason := None |}.

(** The rejection of an aborted axios call. *)
Definition canceled : js_error :=
  {| message := lit "canceled"; status := None; response_status := None;
     response_detail := None; is_cancel := true |}.

End Samples.

(** ** Further sample states, replies and errors *)

Module Cases.

(** A configuration without API key. *)
Definition without_key (provider : Config.Provider) : Config.t :=
  {| Config.apiProvider := provider;
     Config.apiKey := lit "";
     Config.openaiModel := lit "gpt-4o";
     Config.geminiModel := lit "gemini-2.0-flash";
     Config.anthropicModel := lit "claude-3-7-sonnet-20250219";
     Config.openaiBaseUrl := None;
     Config.geminiBaseUrl := None;
     Config.anthropicBaseUrl := None;
     Config.language := lit "python" |}.

(** The queue view with one screenshot and no key. *)
Definition keyless (provider : Config.Provider) : Coordinator.state :=
  Coordinator.constructed (Return (without_key provider))
    (Samples.session_in Coordinator.queue None) Samples.one_shot.

(** A queued screenshot whose file is gone. *)
Definition lost_shot : Coordinator.shots :=
  {| Coordinator.screenshotQueue := [lit "/tmp/shot-1.png"];
     Coordinator.extraScreenshotQueue := [];
     Coordinator.files := [] |}.

Definition nothing_on_disk (provider : Config.Provider) : Coordinator.state :=
  Coordinator.constructed (Return (Samples.config_of provider))
    (Samples.session_in Coordinator.queue None) lost_shot.

(** A rejection that carries the HTTP status 429. *)
Definition rate_limited : js_error :=
  {| message := lit "429 Too Many Requests"; status := Some 429%N;
     response_status := Some 429%N; response_detail := None;
     is_cancel := false |}.

(** A Gemini reply without candidates, blocked for safety. *)
Definition blocked_reply : Gemini.response :=
  {| Gemini.candidates := None; Gemini.blockReason := Some (lit "SAFETY") |}.

End Cases.

(** ** Sample states of the solutions view *)

Module Views.

(** The view before any answer. *)
Definition blank_view : Renderer.view_state :=
  {| Renderer.solutionData := None;
     Renderer.thoughtsData := None;
     Renderer.timeComplexityData := None;
     Renderer.spaceComplexityData := None;
     Renderer.answerType := AnswerCode;
     Renderer.keyTakeawaysData := None;
     Renderer.questionType := Some (lit "math") |}.

(** The component before its first answer: the cache holds no solution
    query. *)
Definition first_answer : Renderer.component :=
  {| Renderer.shown := blank_view; Renderer.solution_query := None |}.

(** A solution that names its question type in capitals. *)
Definition coding_solution : Renderer.payload :=
  {| Renderer.answer_type := AnswerCode;
     Renderer.content := lit "print(1)";
     Renderer.code := lit "print(1)";
     Renderer.thoughts := [];
     Renderer.time_complexity := None;
     Renderer.space_complexity := None;
     Renderer.key_takeaways := None;
     Renderer.question_type := Some (lit "Coding") |}.

End Views.

(** * Properties *)

(** ** The matcher on the constructs the source uses *)

Section MatcherFacts.

Variable R : Type.
Implicit Types (k : cont R) (c : captures) (s : str).

Lemma run_Lit l : forall i s c k,
  run (Lit l) i s c k =
  match strip_prefix l s with
  | Some s' => k (i + length l) s' c
  | None => None
  end.
Proof.
  induction l as [|x l IH]; intros i s c k; simpl.
  - now rewrite Nat.add_0_r.
  - destruct s as [|y s]; [reflexivity|].
    destruct (N.eqb x y); [|reflexivity].
    rewrite IH. now rewrite Nat.add_succ_r.
Qed.

(** A greedy star whose continuation cannot start with a code unit of the
    class never gives anything back. *)
Lemma star_deterministic p k :
  (forall j x s c, p x = true -> k j (x :: s) c = None) ->
  forall s i c,
    star p i s c k = k (i + length (takeWhile p s)) (dropWhile p s) c.
Proof.
  intros Hk. induction s as [|x s IH]; intros i c; simpl.
  - now rewrite Nat.add_0_r.
  - destruct (p x) eqn:Hp; simpl.
    + rewrite IH, Nat.add_succ_r. simpl.
      destruct (k _ (dropWhile p s) c) eqn:E; [reflexivity|].
      now apply Hk.
    + now rewrite Nat.add_0_r.
Qed.

End MatcherFacts.

(** [exec] returns the leftmost match. *)

Lemma exec_from_Some r : forall s i m,
  exec_from r i s = Some m ->
  exists pre suf,
    s = pre ++ suf /\ match_at r (i + length pre) suf = Some m /\
    forall pre' suf', s = pre' ++ suf' -> length pre' < length pre ->
      match_at r (i + length pre') suf' = None.
Proof.
  induction s as [|x s IH]; intros i m; simpl.
  - destruct (match_at r i []) eqn:E; [|discriminate]. intros [= ->].
    exists [], []. simpl. rewrite Nat.add_0_r. repeat split; auto.
    intros; lia.
  - destruct (match_at r i (x :: s)) eqn:E.
    + intros [= ->]. exists [], (x :: s). simpl. rewrite Nat.add_0_r.
      repeat split; auto. intros; lia.
    + intros H. apply IH in H as (pre & suf & -> & Hm & Hfirst).
      exists (x :: pre), suf. simpl. rewrite Nat.add_succ_r. repeat split; auto.
      intros [|y pre'] suf' Hs Hlen; simpl in *.
      * subst suf'. now rewrite Nat.add_0_r.
      * injection Hs as <- Hs. rewrite Nat.add_succ_r.
        apply Hfirst; [assumption | lia].
Qed.

Lemma exec_from_None r : forall s i,
  exec_from r i s = None ->
  forall pre suf, s = pre ++ suf -> match_at r (i + length pre) suf = None.
Proof.
  induction s as [|x s IH]; intros i; simpl.
  - destruct (match_at r i []) eqn:E; [discriminate|]. intros _ pre suf H.
    symmetry in H. apply app_eq_nil in H as [-> ->]. simpl.
    now rewrite Nat.add_0_r.
  - destruct (match_at r i (x :: s)) eqn:E; [discriminate|].
    intros H [|y pre] suf Hs; simpl in *.
    + subst suf. now rewrite Nat.add_0_r.
    + injection Hs as <- Hs. rewrite Nat.add_succ_r.
      now apply (IH (S i) H pre suf).
Qed.

(** ** Lists of code units *)

Lemma takeWhile_dropWhile p s : takeWhile p s ++ dropWhile p s = s.
Proof.
  induction s as [|x s IH]; simpl; [reflexivity|].
  destruct (p x); simpl; [now rewrite IH | reflexivity].
Qed.

Lemma takeWhile_all p s : forallb p (takeWhile p s) = true.
Proof.
  induction s as [|x s IH]; simpl; [reflexivity|].
  destruct (p x) eqn:E; simpl; [now rewrite E | reflexivity].
Qed.

Lemma app_length_inv (a b a' b' : str) :
  a ++ b = a' ++ b' -> length a = length a' -> a = a' /\ b = b'.
Proof.
  revert a'. induction a as [|x a IH]; intros [|y a'] H L; simpl in *;
    try discriminate.
  - now split.
  - injection H as -> H. injection L as L. destruct (IH _ H L) as [-> ->].
    now split.
Qed.

Lemma firstn_length_app (a b : str) : firstn (length a) (a ++ b) = a.
Proof. induction a as [|x a IH]; simpl; [reflexivity | now rewrite IH]. Qed.

Lemma firstn_takeWhile p s : firstn (length (takeWhile p s)) s = takeWhile p s.
Proof.
  induction s as [|x s IH]; simpl; [reflexivity|].
  destruct (p x); simpl; [now rewrite IH | reflexivity].
Qed.

(** A run of class members followed by a non-member is what [takeWhile] and
    [dropWhile] find. *)
Lemma span_app p a x b :
  forallb p a = true -> p x = false ->
  takeWhile p (a ++ x :: b) = a /\ dropWhile p (a ++ x :: b) = x :: b.
Proof.
  intros Ha Hx. induction a as [|y a IH]; simpl in *.
  - now rewrite Hx.
  - apply andb_true_iff in Ha as [Hy Ha]. rewrite Hy.
    destruct (IH Ha) as [-> ->]. now split.
Qed.

Lemma strip_prefix_app p r : strip_prefix p (p ++ r) = Some r.
Proof.
  induction p as [|x p IH]; simpl; [reflexivity|].
  now rewrite N.eqb_refl.
Qed.

Lemma strip_prefix_Some p : forall s r, strip_prefix p s = Some r -> s = p ++ r.
Proof.
  induction p as [|x p IH]; intros s r; simpl.
  - now intros [= ->].
  - destruct s as [|y s]; [discriminate|].
    destruct (N.eqb_spec x y) as [->|]; [|discriminate].
    intros H. now rewrite (IH _ _ H).
Qed.

Lemma strip_prefix_None p s r : strip_prefix p s = None -> s <> p ++ r.
Proof.
  intros H ->. now rewrite strip_prefix_app in H.
Qed.

Lemma find_sub_Some n : forall s b a,
  find_sub n s = Some (b, a) ->
  s = b ++ n ++ a /\
  forall b' a', s = b' ++ n ++ a' -> length b <= length b'.
Proof.
  induction s as [|x s IH]; intros b a; simpl.
  - destruct (strip_prefix n []) eqn:E; [|discriminate].
    intros [= <- <-]. split; [simpl; now apply strip_prefix_Some | intros; simpl; lia].
  - destruct (strip_prefix n (x :: s)) eqn:E.
    + intros [= <- <-]. split; [simpl; now apply strip_prefix_Some | intros; simpl; lia].
    + destruct (find_sub n s) as [[b0 a0]|] eqn:F; [|discriminate].
      intros [= <- <-]. destruct (IH _ _ eq_refl) as [-> Hmin]. split.
      * reflexivity.
      * intros [|y b'] a' H.
        -- exfalso. now apply (strip_prefix_None _ a') in E.
        -- simpl in H. injection H as _ H. apply Hmin in H. simpl. lia.
Qed.

Lemma find_sub_None n : forall s b a,
  find_sub n s = None -> s <> b ++ n ++ a.
Proof.
  induction s as [|x s IH]; intros b a; simpl.
  - destruct (strip_prefix n []) eqn:E; [discriminate|]. intros _ H.
    destruct b; simpl in H; [|discriminate].
    now apply (strip_prefix_None _ a) in E.
  - destruct (strip_prefix n (x :: s)) eqn:E; [discriminate|].
    destruct (find_sub n s) as [[b0 a0]|] eqn:F; [discriminate|].
    intros _ H. destruct b as [|y b]; simpl in H.
    + now apply (strip_prefix_None _ a) in E.
    + injection H as _ H. now apply (IH b a) in H.
Qed.

(** ** Character classes *)

Ltac eval_cu :=
  repeat match goal with
  | |- context [cu ?a] =>
    let v := eval vm_compute in (cu a) in change (cu a) with v
  | H : context [cu ?a] |- _ =>
    let v := eval vm_compute in (cu a) in change (cu a) with v in H
  end.

Ltac bool_props :=
  repeat match goal with
  | H : _ = true |- _ =>
    rewrite ?orb_true_iff, ?andb_true_iff, ?N.leb_le, ?N.eqb_eq, ?N.ltb_lt in H
  | H : _ = false |- _ =>
    rewrite ?orb_false_iff, ?andb_false_iff, ?N.leb_gt, ?N.eqb_neq, ?N.ltb_ge
      in H
  end.

Ltac class_arith :=
  unfold lang_char, colon_char, choice_char, is_ws, in_range, is_char,
    any_char, ignore_case, canonicalize, upper_cu, newline, carriage_return
    in *;
  eval_cu; bool_props.

Lemma choice_char_cases x :
  choice_char x = true ->
  In x [65; 66; 67; 68; 97; 98; 99; 100]%N.
Proof.
  intros H. class_arith. simpl. lia.
Qed.

Lemma colon_char_cases x : colon_char x = true -> x = 58%N \/ x = 65306%N.
Proof. intros H. class_arith. lia. Qed.

Lemma lang_char_not_newline x : lang_char x = true -> (newline =? x)%N = false.
Proof.
  intros H. destruct (N.eqb_spec newline x) as [<-|]; [discriminate|reflexivity].
Qed.

Lemma ws_not_choice x : is_ws x = true -> choice_char x = false.
Proof.
  intros H. destruct (choice_char x) eqn:E; [|reflexivity].
  apply choice_char_cases in E. simpl in E.
  repeat (destruct E as [<-|E]; [discriminate|]). contradiction.
Qed.

Lemma colon_not_ws x : colon_char x = true -> is_ws x = false.
Proof. intros H. now destruct (colon_char_cases _ H) as [-> | ->]. Qed.

Lemma colon_not_choice x : colon_char x = true -> choice_char x = false.
Proof. intros H. now destruct (colon_char_cases _ H) as [-> | ->]. Qed.

Lemma ignore_case_choice x :
  ignore_case (in_range "A" "D") x = choice_char x.
Proof.
  destruct (choice_char x) eqn:E.
  - apply choice_char_cases in E. simpl in E.
    repeat (destruct E as [<-|E]; [reflexivity|]). contradiction.
  - destruct (ignore_case (in_range "A" "D") x) eqn:F; [|reflexivity].
    exfalso. unfold ignore_case, canonicalize, upper_cu in F.
    destruct (x <? 128)%N eqn:L;
      [destruct ((97 <=? x) && (x <=? 122))%N eqn:M|];
      class_arith; lia.
Qed.

(** ** The fenced-block expression *)

Lemma lazy_any_find (R : Type) n (K : nat -> str -> captures -> R) g i0 s0 :
  forall s i c,
    lazy_star any_char i s c
      (fun j s' c' =>
         run (Lit n) j s' (set_capture g (firstn (j - i0) s0) c')
             (fun j' s'' c'' => Some (K j' s'' c''))) =
    match find_sub n s with
    | Some (b, a) =>
      Some (K (i + length b + length n) a
              (set_capture g (firstn (i + length b - i0) s0) c))
    | None => None
    end.
Proof.
  induction s as [|x s IH]; intros i c.
  - simpl. rewrite run_Lit. destruct (strip_prefix n []); simpl.
    + now rewrite Nat.add_0_r.
    + reflexivity.
  - simpl. rewrite run_Lit. destruct (strip_prefix n (x :: s)) eqn:E; simpl.
    + now rewrite Nat.add_0_r.
    + rewrite IH. destruct (find_sub n s) as [[b a]|]; [|reflexivity].
      simpl. now rewrite !Nat.add_succ_r.
Qed.

Lemma match_at_codeBlock i s :
  match_at codeBlockRegex i s =
  match fence_at s with
  | Some (lang, body) =>
    Some (MatchResult i
            (firstn (length fence + length lang + 1 + length body + length fence) s)
            [(2, body); (1, lang)])
  | None => None
  end.
Proof.
  unfold match_at, codeBlockRegex, fence_at.
  cbn [run]. rewrite run_Lit.
  destruct (strip_prefix fence s) as [s1|] eqn:E1; [|reflexivity].
  rewrite star_deterministic.
  2:{ intros j x r c Hx. cbn [run]. now rewrite lang_char_not_newline. }
  destruct (dropWhile lang_char s1) as [|x s2] eqn:E2; [reflexivity|].
  cbn [run].
  destruct (newline =? x)%N eqn:Ex; [|reflexivity].
  rewrite (lazy_any_find fence (fun j _ c =>
    {| Regex.index := i; matched := firstn (j - i) s; groups := c |})).
  destruct (find_sub fence s2) as [[body post]|] eqn:E3; [|reflexivity].
  apply find_sub_Some in E3 as [E3 _].
  f_equal. f_equal.
  - f_equal. lia.
  - unfold set_capture, no_captures. f_equal; f_equal.
    + replace (_ - _) with (length body) by lia.
      rewrite E3. apply firstn_length_app.
    + f_equal. replace (_ - _) with (length (takeWhile lang_char s1)) by lia.
      apply firstn_takeWhile.
Qed.


Lemma fence_at_Some s lang body :
  fence_at s = Some (lang, body) ->
  exists post,
    s = fence ++ lang ++ newline :: body ++ fence ++ post /\
    forallb lang_char lang = true /\
    forall lang' body' post',
      s = fence ++ lang' ++ newline :: body' ++ fence ++ post' ->
      forallb lang_char lang' = true ->
      lang' = lang /\ length body <= length body'.
Proof.
  unfold fence_at.
  destruct (strip_prefix fence s) as [s1|] eqn:E1; [|discriminate].
  destruct (dropWhile lang_char s1) as [|x s2] eqn:E2; [discriminate|].
  destruct (N.eqb_spec newline x) as [<-|]; [|discriminate].
  destruct (find_sub fence s2) as [[b a]|] eqn:E3; [|discriminate].
  intros [= <- <-]. apply strip_prefix_Some in E1.
  apply find_sub_Some in E3 as [E3 Hmin].
  pose proof (takeWhile_dropWhile lang_char s1) as Hs1. rewrite E2 in Hs1.
  exists a. split; [|split].
  - rewrite E3 in Hs1. rewrite E1. f_equal. symmetry. exact Hs1.
  - apply takeWhile_all.
  - intros lang' body' post' Hs Hl. rewrite E1 in Hs.
    apply app_inv_head in Hs. 
    destruct (span_app lang_char lang' newline (body' ++ fence ++ post') Hl eq_refl)
      as [Ht Hd].
    rewrite <- Hs in Ht, Hd. rewrite E2 in Hd. injection Hd as Hd.
    split; [now symmetry|]. apply (Hmin body' post'). now rewrite Hd.
Qed.

Lemma fence_at_None s lang body post :
  fence_at s = None ->
  forallb lang_char lang = true ->
  s <> fence ++ lang ++ newline :: body ++ fence ++ post.
Proof.
  unfold fence_at. intros H Hl ->.
  rewrite strip_prefix_app in H.
  destruct (span_app lang_char lang newline (body ++ fence ++ post) Hl eq_refl)
    as [Ht Hd].
  rewrite Hd, N.eqb_refl in H.
  destruct (find_sub fence (body ++ fence ++ post)) as [[b a]|] eqn:E3;
    [discriminate|].
  now apply (find_sub_None _ body post) in E3.
Qed.

Lemma exec_codeBlock_Some t m :
  exec codeBlockRegex t = Some m ->
  exists pre lang body post,
    first_fenced t pre lang body post /\
    index m = length pre /\ group m 1 = lang /\ group m 2 = body.
Proof.
  intros H. apply exec_from_Some in H as (pre & suf & -> & Hm & Hfirst).
  rewrite match_at_codeBlock in Hm.
  destruct (fence_at suf) as [[lang body]|] eqn:E; [|discriminate].
  injection Hm as <-.
  apply fence_at_Some in E as (post & -> & Hl & Hmin).
  exists pre, lang, body, post. repeat split; auto.
  intros pre' lang' body' post' [Ht Hl'].
  destruct (Nat.lt_trichotomy (length pre) (length pre')) as [L|[L|L]];
    [now left | right | exfalso].
  - apply app_length_inv in Ht as [<- Ht]; [|assumption].
    split; [reflexivity|]. now apply (Hmin lang' body' post').
  - specialize (Hfirst _ _ Ht L). rewrite match_at_codeBlock in Hfirst.
    destruct (fence_at _) as [[? ?]|] eqn:E; [discriminate|].
    now apply (fence_at_None lang' body' post') in E.
Qed.

Lemma exec_codeBlock_None t :
  exec codeBlockRegex t = None -> ~ has_fence t.
Proof.
  intros H (pre & lang & body & post & Ht & Hl).
  unfold exec in H. pose proof (@exec_from_None _ _ _ H _ _ Ht) as Hn.
  rewrite match_at_codeBlock in Hn.
  destruct (fence_at _) as [[? ?]|] eqn:E; [discriminate|].
  now apply (fence_at_None lang body post) in E.
Qed.


(** ** The labelled-answer expression *)

Lemma run_letterTail (R : Type) i s c (k : cont R) :
  run letterTail i s c k =
  match dropWhile is_ws s with
  | x :: r =>
    if choice_char x
    then k (S (i + length (takeWhile is_ws s))) r (set_capture 1 [x] c)
    else None
  | [] => None
  end.
Proof.
  unfold letterTail. cbn [run]. rewrite star_deterministic.
  2:{ intros j x r c' Hx. cbn [run]. now rewrite (ws_not_choice _ Hx). }
  destruct (dropWhile is_ws s) as [|x r]; [reflexivity|].
  cbn [run]. destruct (choice_char x); [|reflexivity].
  now replace (S _ - _) with 1 by lia.
Qed.

Lemma run_letter_after (R : Type) i s c (k : cont R) :
  run (Opt (Class colon_char) @@ letterTail) i s c k =
  run letterTail (i + colon_length s) (skip_colon s) c k.
Proof.
  cbn [run]. destruct s as [|x s]; cbn [colon_length skip_colon].
  - now rewrite Nat.add_0_r.
  - destruct (colon_char x) eqn:E.
    + rewrite Nat.add_1_r.
      destruct (run letterTail (S i) s c k) eqn:F; [reflexivity|].
      rewrite run_letterTail. cbn [dropWhile].
      now rewrite (colon_not_ws _ E), (colon_not_choice _ E).
    + now rewrite Nat.add_0_r.
Qed.

Lemma label_exclusive s r :
  strip_prefix (lit "最终答案") s = Some r -> strip_prefix (lit "答案") s = None.
Proof. intros H. apply strip_prefix_Some in H. now subst s. Qed.

Lemma run_Seq (R : Type) r1 r2 i s c (k : cont R) :
  run (r1 @@ r2) i s c k = run r1 i s c (fun i1 s1 c1 => run r2 i1 s1 c1 k).
Proof. reflexivity. Qed.

Lemma run_Alt (R : Type) r1 r2 i s c (k : cont R) :
  run (Alt r1 r2) i s c k =
  match run r1 i s c k with Some v => Some v | None => run r2 i s c k end.
Proof. reflexivity. Qed.

Lemma match_at_letter i s :
  match label_at s with
  | Some x =>
    exists m, match_at letterRegex i s = Some m /\
              index m = i /\ groups m = [(1, [x])]
  | None => match_at letterRegex i s = None
  end.
Proof.
  unfold match_at, letterRegex, label_at.
  change (Opt (Class colon_char) @@ Star is_ws @@ Group 1 (Class choice_char))
    with letterRest.
  rewrite run_Seq, run_Alt, !run_Lit.
  set (k := fun (j : nat) (_ : str) (c : captures) =>
              Some {| index := i; matched := firstn (j - i) s; groups := c |}).
  assert (forall j s1,
    match letter_after s1 with
    | Some x =>
      exists m, run letterRest j s1 no_captures k = Some m /\
                index m = i /\ groups m = [(1, [x])]
    | None => run letterRest j s1 no_captures k = None
    end) as Htail.
  { intros j s1. unfold letterRest.
    rewrite run_letter_after, run_letterTail. unfold letter_after.
    destruct (dropWhile is_ws (skip_colon s1)) as [|x r]; [reflexivity|].
    destruct (choice_char x); [|reflexivity].
    eexists. split; [reflexivity|]. now split. }
  destruct (strip_prefix (lit "最终答案") s) as [s1|] eqn:E1.
  - rewrite (label_exclusive _ E1).
    specialize (Htail (i + length (lit "最终答案")) s1).
    destruct (letter_after s1).
    + destruct Htail as (m & -> & ?). now exists m.
    + now rewrite Htail.
  - destruct (strip_prefix (lit "答案") s) as [s1|] eqn:E2; [|reflexivity].
    apply (Htail (i + length (lit "答案")) s1).
Qed.

Lemma skip_colon_spec s :
  exists colon, s = colon ++ skip_colon s /\
    (colon = [] \/ exists x, colon = [x] /\ colon_char x = true).
Proof.
  destruct s as [|x s]; simpl.
  - exists []. split; auto.
  - destruct (colon_char x) eqn:E.
    + exists [x]. split; eauto.
    + exists []. split; auto.
Qed.

Lemma letter_after_Some s x :
  letter_after s = Some x ->
  exists colon ws post,
    s = colon ++ ws ++ x :: post /\
    (colon = [] \/ exists y, colon = [y] /\ colon_char y = true) /\
    forallb is_ws ws = true /\ choice_char x = true.
Proof.
  unfold letter_after. intros H.
  destruct (skip_colon_spec s) as (colon & Hs & Hc).
  pose proof (takeWhile_dropWhile is_ws (skip_colon s)) as Hw.
  destruct (dropWhile is_ws (skip_colon s)) as [|y post]; [discriminate|].
  destruct (choice_char y) eqn:E; [|discriminate]. injection H as ->.
  exists colon, (takeWhile is_ws (skip_colon s)), post.
  repeat split; auto.
  - now rewrite Hw.
  - apply takeWhile_all.
Qed.

Lemma choice_not_ws x : choice_char x = true -> is_ws x = false.
Proof.
  intros H. destruct (is_ws x) eqn:E; [|reflexivity].
  apply ws_not_choice in E. congruence.
Qed.

Lemma choice_not_colon x : choice_char x = true -> colon_char x = false.
Proof.
  intros H. destruct (colon_char x) eqn:E; [|reflexivity].
  apply colon_not_choice in E. congruence.
Qed.

Lemma ws_not_colon x : is_ws x = true -> colon_char x = false.
Proof.
  intros H. destruct (colon_char x) eqn:E; [|reflexivity].
  apply colon_not_ws in E. congruence.
Qed.

Lemma letter_after_complete colon ws x post :
  (colon = [] \/ exists y, colon = [y] /\ colon_char y = true) ->
  forallb is_ws ws = true -> choice_char x = true ->
  letter_after (colon ++ ws ++ x :: post) = Some x.
Proof.
  intros Hc Hw Hx. unfold letter_after.
  assert (skip_colon (colon ++ ws ++ x :: post) = ws ++ x :: post) as ->.
  { destruct Hc as [-> | (y & -> & Hy)]; simpl.
    - destruct ws as [|w ws]; simpl in *.
      + now rewrite (choice_not_colon _ Hx).
      + apply andb_true_iff in Hw as [Hw _]. now rewrite (ws_not_colon _ Hw).
    - now rewrite Hy. }
  destruct (span_app is_ws ws x post Hw (choice_not_ws _ Hx)) as [_ ->].
  now rewrite Hx.
Qed.

Lemma label_at_Some s x :
  label_at s = Some x -> exists post, labelled s [] x post.
Proof.
  unfold label_at, labelled. intros H.
  destruct (strip_prefix (lit "最终答案") s) as [s1|] eqn:E1.
  - apply strip_prefix_Some in E1.
    apply letter_after_Some in H as (colon & ws & post & -> & Hc & Hw & Hx).
    exists post, (lit "最终答案"), colon, ws. repeat split; auto.
  - destruct (strip_prefix (lit "答案") s) as [s1|] eqn:E2; [|discriminate].
    apply strip_prefix_Some in E2.
    apply letter_after_Some in H as (colon & ws & post & -> & Hc & Hw & Hx).
    exists post, (lit "答案"), colon, ws. repeat split; auto.
Qed.

Lemma label_at_complete s x post :
  labelled s [] x post -> label_at s = Some x.
Proof.
  intros (label & colon & ws & Hs & Hl & Hc & Hw & Hx). simpl in Hs.
  unfold label_at. destruct Hl as [-> | ->]; subst s.
  - rewrite strip_prefix_app. now apply letter_after_complete.
  - replace (strip_prefix (lit "最终答案") _) with (@None str) by reflexivity.
    rewrite strip_prefix_app. now apply letter_after_complete.
Qed.

Lemma labelled_shift t pre x post :
  labelled (pre ++ t) pre x post <-> labelled t [] x post.
Proof.
  unfold labelled. split; intros (label & colon & ws & Hs & H);
    exists label, colon, ws; split; auto.
  - now apply app_inv_head in Hs.
  - simpl in Hs. now rewrite Hs.
Qed.

Lemma labelled_suffix t pre x post :
  labelled t pre x post -> exists suf, t = pre ++ suf /\ labelled suf [] x post.
Proof.
  intros (label & colon & ws & Hs & H).
  exists (label ++ colon ++ ws ++ x :: post). split; [assumption|].
  exists label, colon, ws. now split.
Qed.

Lemma exec_letter_Some t m :
  exec letterRegex t = Some m ->
  exists pre x post,
    first_labelled t pre x post /\ index m = length pre /\ group m 1 = [x].
Proof.
  intros H. apply exec_from_Some in H as (pre & suf & -> & Hm & Hfirst).
  pose proof (match_at_letter (0 + length pre) suf) as Hl.
  destruct (label_at suf) as [x|] eqn:E; [|congruence].
  destruct Hl as (m' & Hm' & Hi & Hg). rewrite Hm in Hm'. injection Hm' as <-.
  apply label_at_Some in E as [post E].
  exists pre, x, post. split; [split|split].
  - now apply labelled_shift.
  - intros pre' x' post' L.
    destruct (Nat.le_gt_cases (length pre) (length pre')) as [|Hlt];
      [assumption|exfalso].
    apply labelled_suffix in L as (suf' & Hs & L).
    specialize (Hfirst _ _ Hs Hlt).
    pose proof (match_at_letter (0 + length pre') suf') as Hl'.
    rewrite (label_at_complete L) in Hl'. destruct Hl' as (? & ? & _).
    congruence.
  - exact Hi.
  - unfold group. now rewrite Hg.
Qed.

Lemma exec_letter_None t : exec letterRegex t = None -> ~ has_label t.
Proof.
  intros H (pre & x & post & L).
  apply labelled_suffix in L as (suf & Hs & L).
  unfold exec in H. pose proof (@exec_from_None _ _ _ H _ _ Hs) as Hn.
  pose proof (match_at_letter (0 + length pre) suf) as Hl.
  rewrite (label_at_complete L) in Hl. destruct Hl as (? & ? & _). congruence.
Qed.

Lemma first_labelled_letter t pre x post pre' x' post' :
  first_labelled t pre x post -> first_labelled t pre' x' post' -> x = x'.
Proof.
  intros [L1 H1] [L2 H2].
  assert (length pre = length pre') as Lp.
  { specialize (H1 _ _ _ L2). specialize (H2 _ _ _ L1). lia. }
  apply labelled_suffix in L1 as (suf & Hs & L1).
  apply labelled_suffix in L2 as (suf' & Hs' & L2).
  rewrite Hs in Hs'. apply app_length_inv in Hs' as [_ <-]; [|assumption].
  apply label_at_complete in L1, L2. congruence.
Qed.

(** ** Trimming *)

Lemma trimStart_app a b :
  trimStart (a ++ b) =
  if forallb is_ws a then trimStart b else trimStart a ++ b.
Proof.
  induction a as [|x a IH]; simpl; [reflexivity|].
  destruct (is_ws x); simpl; [exact IH | reflexivity].
Qed.

Lemma trimStart_all_ws a : forallb is_ws a = true -> trimStart a = [].
Proof.
  induction a as [|x a IH]; simpl; [reflexivity|].
  destruct (is_ws x); simpl; [exact IH | discriminate].
Qed.

Lemma trimEnd_snoc_ws a x : is_ws x = true -> trimEnd (a ++ [x]) = trimEnd a.
Proof.
  intros H. unfold trimEnd. rewrite rev_unit. simpl. now rewrite H.
Qed.

Lemma trim_snoc_ws a x : is_ws x = true -> trim (a ++ [x]) = trim a.
Proof.
  intros H. unfold trim. rewrite trimStart_app.
  destruct (forallb is_ws a) eqn:E.
  - simpl. rewrite H. now rewrite (trimStart_all_ws _ E).
  - now apply trimEnd_snoc_ws.
Qed.

Lemma trimStart_head s x r : trimStart s = x :: r -> is_ws x = false.
Proof.
  induction s as [|y s IH]; simpl; [discriminate|].
  destruct (is_ws y) eqn:E; [exact IH|]. now intros [= <- <-].
Qed.

(** ** The solo-letter test and the line splitter *)

Lemma exec_from_solo_later : forall s i,
  0 < i -> exec_from soloLetterRegex i s = None.
Proof.
  induction s as [|x s IH]; intros i Hi; simpl;
    (destruct i; [lia|]); unfold match_at; simpl; [reflexivity|].
  apply IH. lia.
Qed.

Lemma test_solo l : test soloLetterRegex l = solo_letter l.
Proof.
  unfold test, exec. destruct l as [|x l]; [reflexivity|].
  cbn [exec_from]. rewrite exec_from_solo_later by lia.
  unfold match_at, soloLetterRegex. cbn [run Nat.eqb solo_letter].
  rewrite ignore_case_choice.
  destruct (choice_char x); destruct l; reflexivity.
Qed.

Lemma run_lineBreak q s :
  run lineBreakRegex q s no_captures (fun j rest _ => Some (j, rest)) =
  match s with
  | x :: s' =>
    if (newline =? x)%N then Some (S q, s')
    else
      match s' with
      | y :: s'' =>
        if ((carriage_return =? x) && (newline =? y))%N
        then Some (S (S q), s'')
        else None
      | [] => None
      end
  | [] => None
  end.
Proof.
  unfold lineBreakRegex. cbn [run].
  destruct s as [|x s']; [reflexivity|].
  destruct (N.eqb_spec carriage_return x) as [<-|Hx].
  - change (newline =? carriage_return)%N with false. cbn [andb].
    destruct s' as [|y s'']; [reflexivity|]. now destruct (newline =? y)%N.
  - cbn [andb]. destruct (newline =? x)%N; [reflexivity|]. now destruct s'.
Qed.

Lemma split_loop_lines : forall fuel s q piece,
  length s < fuel ->
  split_loop fuel lineBreakRegex q s piece = split_lines s piece.
Proof.
  induction fuel as [|fuel IH]; intros s q piece Hf; [lia|].
  destruct s as [|x s']; [reflexivity|].
  cbn [split_loop]. rewrite run_lineBreak. cbn [split_lines]. simpl in Hf.
  destruct (newline =? x)%N.
  - replace (Nat.eqb (S q) q) with false by (symmetry; apply Nat.eqb_neq; lia).
    cbn [andb]. f_equal. apply IH. lia.
  - destruct s' as [|y s'']; [apply IH; simpl; lia|].
    destruct ((carriage_return =? x) && (newline =? y))%N.
    + replace (Nat.eqb (S (S q)) q) with false
        by (symmetry; apply Nat.eqb_neq; lia).
      cbn [andb]. f_equal. apply IH. simpl in Hf. lia.
    + apply IH. simpl in *. lia.
Qed.

Lemma split_lineBreak s : split lineBreakRegex s = split_lines s [].
Proof.
  destruct s as [|x s]; [reflexivity|].
  unfold split. apply split_loop_lines. simpl. lia.
Qed.

(** Splitting at [\r?\n] and splitting at [\n] give the same trimmed
    pieces: a carriage return before the line feed is trimmed away. *)
Lemma split_lines_trim : forall n s piece,
  length s <= n ->
  map trim (split_lines s piece) = map trim (split_newline s piece).
Proof.
  induction n as [|n IH]; intros s piece Hn.
  - destruct s; [reflexivity | simpl in Hn; lia].
  - destruct s as [|x s']; [reflexivity|]. simpl in Hn.
    cbn [split_lines split_newline].
    destruct (newline =? x)%N eqn:Ex.
    + cbn [map]. f_equal. apply IH. lia.
    + destruct s' as [|y s'']; [reflexivity|].
      destruct (N.eqb_spec carriage_return x) as [<-|Hx]; cbn [andb].
      * destruct (newline =? y)%N eqn:Ey.
        -- cbn [split_newline]. rewrite Ey. cbn [map rev]. f_equal.
           ++ symmetry. now apply trim_snoc_ws.
           ++ apply IH. simpl in Hn. lia.
        -- apply IH. lia.
      * apply IH. lia.
Qed.

Lemma split_newline_line l :
  ~ In newline l -> forall piece, split_newline l piece = [rev piece ++ l].
Proof.
  induction l as [|x l IH]; intros Hl piece; cbn [split_newline app].
  - now rewrite app_nil_r.
  - destruct (N.eqb_spec newline x) as [<-|Hx]; [exfalso; apply Hl; now left|].
    rewrite IH by (intros H; apply Hl; now right).
    cbn [rev]. now rewrite <- app_assoc.
Qed.

Lemma split_newline_app l s :
  ~ In newline l -> forall piece,
  split_newline (l ++ newline :: s) piece =
  (rev piece ++ l) :: split_newline s [].
Proof.
  induction l as [|x l IH]; intros Hl piece; cbn [split_newline app].
  - now rewrite N.eqb_refl, app_nil_r.
  - destruct (N.eqb_spec newline x) as [<-|Hx]; [exfalso; apply Hl; now left|].
    rewrite IH by (intros H; apply Hl; now right).
    cbn [rev]. now rewrite <- app_assoc.
Qed.

Lemma split_newline_lines ls : forall t,
  lines_of t ls -> split_newline t [] = ls.
Proof.
  induction ls as [|l ls IH]; intros t (Hne & Ht & Hall); [contradiction|].
  inversion Hall as [|? ? Hl Hall']; subst.
  destruct ls as [|l' ls].
  - simpl. now rewrite split_newline_line.
  - change (join [newline] (l :: l' :: ls))
      with (l ++ newline :: join [newline] (l' :: ls)).
    rewrite split_newline_app by assumption. simpl. f_equal.
    apply IH. repeat split; [discriminate | assumption].
Qed.

Lemma split_newline_nonempty s piece : split_newline s piece <> [].
Proof.
  revert piece. induction s as [|x s IH]; intros piece; cbn [split_newline];
    [discriminate|]. destruct (newline =? x)%N; [discriminate | apply IH].
Qed.

Lemma split_newline_join : forall s piece,
  join [newline] (split_newline s piece) = rev piece ++ s.
Proof.
  induction s as [|x s IH]; intros piece; cbn [split_newline].
  - simpl. now rewrite app_nil_r.
  - destruct (newline =? x)%N eqn:Ex.
    + apply N.eqb_eq in Ex. subst x.
      specialize (IH []). cbn [rev app] in IH.
      destruct (split_newline s []) as [|l ls] eqn:E.
      * now apply split_newline_nonempty in E.
      * change (join [newline] (rev piece :: l :: ls))
          with (rev piece ++ newline :: join [newline] (l :: ls)).
        now rewrite IH.
    + rewrite IH. cbn [rev]. now rewrite <- app_assoc.
Qed.

Lemma split_newline_no_newline : forall s piece,
  ~ In newline piece ->
  Forall (fun l => ~ In newline l) (split_newline s piece).
Proof.
  induction s as [|x s IH]; intros piece Hp; cbn [split_newline].
  - constructor; [|constructor]. now rewrite <- in_rev.
  - destruct (N.eqb_spec newline x) as [<-|Hx].
    + constructor; [now rewrite <- in_rev | now apply IH].
    + apply IH. intros [H|H]; [now apply Hx | now apply Hp].
Qed.

Lemma lines_of_split t : lines_of t (split_newline t []).
Proof.
  repeat split.
  - apply split_newline_nonempty.
  - now rewrite split_newline_join.
  - now apply split_newline_no_newline.
Qed.

Lemma solo_letter_solo l : solo_letter (trim l) = true <-> exists x, solo l x.
Proof.
  unfold solo_letter, solo. split.
  - destruct (trim l) as [|x [|y r]]; try discriminate. eauto.
  - now intros (x & -> & Hx).
Qed.

Lemma find_first_app {A} (p : A -> bool) before x after :
  Forall (fun y => p y = false) before -> p x = true ->
  find_first p (before ++ x :: after) = Some x.
Proof.
  induction 1 as [|y before Hy _ IH]; intros Hx; simpl.
  - now rewrite Hx.
  - rewrite Hy. now apply IH.
Qed.

Lemma find_first_None {A} (p : A -> bool) l :
  find_first p l = None -> forall x, In x l -> p x = false.
Proof.
  induction l as [|y l IH]; simpl; [contradiction|].
  destruct (p y) eqn:E; [discriminate|].
  intros H x [<-|Hx]; [assumption | now apply IH].
Qed.

Lemma find_first_Some {A} (p : A -> bool) l x :
  find_first p l = Some x -> In x l /\ p x = true.
Proof.
  induction l as [|y l IH]; simpl; [discriminate|].
  destruct (p y) eqn:E.
  - intros [= <-]. now split; [left|].
  - intros H. destruct (IH H). now split; [right|].
Qed.

(** The lines the classifier searches, trimmed. *)
Lemma classifier_lines t :
  map trim (split lineBreakRegex t) = map trim (split_newline t []).
Proof. rewrite split_lineBreak. now apply split_lines_trim with (n := length t). Qed.

Lemma solo_search_first t l x :
  first_solo_line t l x ->
  find_first (test soloLetterRegex) (map trim (split lineBreakRegex t))
  = Some [x].
Proof.
  intros (before & after & Hl & [Ht Hx] & Hb).
  rewrite classifier_lines, (split_newline_lines Hl), map_app. cbn [map].
  rewrite Ht. apply find_first_app.
  - apply Forall_forall. intros y Hy. apply in_map_iff in Hy as (l' & <- & Hl').
    rewrite test_solo. destruct (solo_letter (trim l')) eqn:E; [|reflexivity].
    apply solo_letter_solo in E as [z Hz].
    rewrite Forall_forall in Hb. now destruct (Hb _ Hl' z).
  - rewrite test_solo. exact Hx.
Qed.

Lemma solo_search_None t :
  ~ has_solo_line t ->
  find_first (test soloLetterRegex) (map trim (split lineBreakRegex t)) = None.
Proof.
  intros Hn. rewrite classifier_lines.
  destruct (find_first _ _) as [l0|] eqn:E; [exfalso|reflexivity].
  apply find_first_Some in E as [Hin Hp].
  apply in_map_iff in Hin as (l & <- & Hl). rewrite test_solo in Hp.
  apply solo_letter_solo in Hp as [x Hx].
  apply Hn. exists (split_newline t []), l, x. split; [apply lines_of_split|].
  now split.
Qed.

(** ** [formatDirectResponse] *)

Lemma or_else_empty s : or_else s (lit "") = s.
Proof. now destruct s. Qed.

Lemma truthy_nonempty s : truthy s = true <-> s <> [].
Proof. destruct s; simpl; split; congruence. Qed.



Lemma format_unfenced fullText language :
  trim fullText <> [] -> ~ has_fence (trim fullText) ->
  exists info,
    formatDirectResponse fullText language =
    Return
      (analysis_response (trim fullText)
         match exec letterRegex (trim fullText) with
         | Some letterMatch => Some (toUpperCase (group letterMatch 1))
         | None =>
           match find_first (test soloLetterRegex)
                   (map trim (split lineBreakRegex (trim fullText))) with
           | Some soloLine => Some (toUpperCase soloLine)
           | None => None
           end
         end, info).
Proof.
  intros Hne Hnf. unfold formatDirectResponse. rewrite or_else_empty.
  apply truthy_nonempty in Hne. rewrite Hne. cbn [negb].
  destruct (exec codeBlockRegex (trim fullText)) as [m|] eqn:E.
  - apply exec_codeBlock_Some in E as (p & l & b & q & [H _] & _).
    exfalso. apply Hnf. now exists p, l, b, q.
  - destruct (exec letterRegex (trim fullText)) as [m|] eqn:El.
    + apply exec_letter_Some in El as (p & x & q & _ & _ & ->).
      eexists. reflexivity.
    + destruct (find_first _ _) as [l0|] eqn:Ef.
      * apply find_first_Some in Ef as [_ Hs]. rewrite test_solo in Hs.
        destruct l0 as [|x [|y r]]; try discriminate.
        eexists. reflexivity.
      * eexists. reflexivity.
Qed.

Lemma labelled_nonempty t pre x post : labelled t pre x post -> t <> [].
Proof.
  intros (label & colon & ws & -> & [-> | ->] & _) H;
    apply app_eq_nil in H as [_ H]; discriminate.
Qed.

Lemma lines_nonempty_solo t l x : first_solo_line t l x -> t <> [].
Proof.
  intros (before & after & Hl & [Ht _] & _) ->.
  pose proof (split_newline_lines Hl) as H. simpl in H.
  destruct before as [|b0 [|b1 before]]; try discriminate.
  injection H as <-. discriminate.
Qed.


(** C2: a text that is not blank, holds no fenced block, no labelled answer
    and no lone-letter line is classified as analysis: the call returns, the
    content is the trimmed text, and the letter, the thoughts, the takeaways,
    the code and the complexities are all absent. *)
Theorem prose_falls_back_to_analysis fullText language :
  trim fullText <> [] ->
  ~ has_fence (trim fullText) ->
  ~ has_label (trim fullText) ->
  ~ has_solo_line (trim fullText) ->
  exists info,
    formatDirectResponse fullText language =
    Return
      ({| answer_type := AnswerAnalysis;
          content := trim fullText;
          code := None;
          final_answer := None;
          thoughts := None;
          time_complexity := None;
          space_complexity := None;
          key_takeaways := None |}, info).
Proof.
  intros Hne Hnf Hnl Hns.
  destruct (format_unfenced fullText language Hne Hnf) as (info & ->).
  destruct (exec letterRegex (trim fullText)) as [m|] eqn:El.
  - apply exec_letter_Some in El as (p & x & q & [H _] & _).
    exfalso. apply Hnl. now exists p, x, q.
  - rewrite (solo_search_None Hns). eexists. reflexivity.
Qed.

(** C3 as amended: in a text without a fenced block, the labelled answer is
    searched first and a lone-letter line second ([chosen_letter]); the
    answer is an analysis whose letter is the upper-cased letter found and
    whose takeaways are the one entry naming it.  The label is 最终答案 or
    答案, then at most one colon, ASCII or full width, white space and a
    letter among [ABCDabcd]; a label in English is not searched for.  The
    text of the end-to-end scenario gives the letter "C" and the takeaway
    "正确选项：C". *)
Theorem choice_letter_is_extracted :
  (forall fullText language x,
     ~ has_fence (trim fullText) ->
     chosen_letter (trim fullText) x ->
     exists info,
       formatDirectResponse fullText language =
       Return
         ({| answer_type := AnswerAnalysis;
             content := trim fullText;
             code := None;
             final_answer := Some [upper_cu x];
             thoughts := None;
             time_complexity := None;
             space_complexity := None;
             key_takeaways := Some [lit "正确选项：" ++ [upper_cu x]] |}, info))
  /\
  (forall language,
     exists info,
       formatDirectResponse (lit "最终答案：C
因为C最符合题意") language =
       Return
         ({| answer_type := AnswerAnalysis;
             content := lit "最终答案：C
因为C最符合题意";
             code := None;
             final_answer := Some (lit "C");
             thoughts := None;
             time_complexity := None;
             space_complexity := None;
             key_takeaways := Some [lit "正确选项：C"] |}, info)).
Proof.
  split.
  - intros fullText language x Hnf [(pre & post & Hl) | (Hnl & l & Hs)].
    + pose proof (labelled_nonempty (proj1 Hl)) as Hne.
      destruct (format_unfenced fullText language Hne Hnf) as (info & ->).
      destruct (exec letterRegex (trim fullText)) as [m|] eqn:El.
      * apply exec_letter_Some in El as (p & y & q & Hl' & _ & ->).
        rewrite (first_labelled_letter Hl' Hl). eexists. reflexivity.
      * apply exec_letter_None in El. exfalso. apply El.
        exists pre, x, post. apply Hl.
    + pose proof (lines_nonempty_solo Hs) as Hne.
      destruct (format_unfenced fullText language Hne Hnf) as (info & ->).
      destruct (exec letterRegex (trim fullText)) as [m|] eqn:El.
      * apply exec_letter_Some in El as (p & y & q & [H _] & _).
        exfalso. apply Hnl. now exists p, y, q.
      * rewrite (solo_search_first Hs). eexists. reflexivity.
  - intros language. eexists. vm_compute. reflexivity.
Qed.

Lemma format_blank fullText language :
  trim fullText = [] ->
  formatDirectResponse fullText language = Throw (Error blank_message).
Proof.
  intros H. unfold formatDirectResponse, blank_message.
  rewrite or_else_empty, H. cbn [truthy negb]. reflexivity.
Qed.

Lemma no_solo_line t :
  find_first solo_letter (map trim (split_newline t [])) = None ->
  ~ has_solo_line t.
Proof.
  intros H (ls & l & x & Hl & Hin & Hx).
  rewrite <- (split_newline_lines Hl) in Hin.
  assert (solo_letter (trim l) = true) as Ht
    by (apply solo_letter_solo; now exists x).
  rewrite (find_first_None _ _ H (trim l)) in Ht; [discriminate|].
  now apply in_map.
Qed.


Lemma prose_falls_back_to_analysis_witness :
  trim Samples.plain_prose <> [] /\
  ~ has_fence (trim Samples.plain_prose) /\
  ~ has_label (trim Samples.plain_prose) /\
  ~ has_solo_line (trim Samples.plain_prose) /\
  exists info,
    formatDirectResponse Samples.plain_prose (lit "python") =
    Return
      ({| answer_type := AnswerAnalysis;
          content := trim Samples.plain_prose;
          code := None;
          final_answer := None;
          thoughts := None;
          time_complexity := None;
          space_complexity := None;
          key_takeaways := None |}, info).
Proof.
  assert (trim Samples.plain_prose <> []) as H1 by discriminate.
  assert (~ has_fence (trim Samples.plain_prose)) as H2
    by (apply exec_codeBlock_None; reflexivity).
  assert (~ has_label (trim Samples.plain_prose)) as H3
    by (apply exec_letter_None; reflexivity).
  assert (~ has_solo_line (trim Samples.plain_prose)) as H4
    by (apply no_solo_line; reflexivity).
  repeat split; try assumption.
  exact (prose_falls_back_to_analysis Samples.plain_prose (lit "python")
           H1 H2 H3 H4).
Defined.

Lemma choice_letter_is_extracted_witness :
  ~ has_fence (trim Samples.lone_letter_reply) /\
  chosen_letter (trim Samples.lone_letter_reply) 98%N /\
  exists info,
    formatDirectResponse Samples.lone_letter_reply (lit "python") =
    Return
      ({| answer_type := AnswerAnalysis;
          content := trim Samples.lone_letter_reply;
          code := None;
          final_answer := Some (lit "B");
          thoughts := None;
          time_complexity := None;
          space_complexity := None;
          key_takeaways := Some [lit "正确选项：B"] |}, info).
Proof.
  assert (~ has_fence (trim Samples.lone_letter_reply)) as H1
    by (apply exec_codeBlock_None; reflexivity).
  assert (chosen_letter (trim Samples.lone_letter_reply) 98%N) as H2.
  { right. split; [apply exec_letter_None; reflexivity|].
    exists (lit " b").
    exists [lit "I think the answer is"], [lit "because of the second clause"].
    repeat split; try reflexivity; try discriminate.
    - repeat constructor; vm_compute; intuition discriminate.
    - repeat constructor. intros y [H _]. discriminate H. }
  repeat split; try assumption.
  exact (proj1 choice_letter_is_extracted Samples.lone_letter_reply
           (lit "python") 98%N H1 H2).
Defined.


(** A fence whose tag is followed by a carriage return is not read as a
    fenced block: the expression asks for the line feed straight after the
    tag.  The labelled answer is then found. *)
Example crlf_fence_is_not_recognised :
  exists info,
    formatDirectResponse Samples.crlf_fenced (lit "python")
    = Return
        (analysis_response Samples.crlf_fenced (Some (lit "B")), info).
Proof. eexists. vm_compute. reflexivity. Qed.

(** Counterexample to C3 as stated: the text "final answer: B", with the
    label in English, holds no fenced block, and the answer is an analysis
    without a letter and without takeaways. *)
Lemma english_label_is_not_recognised :
  ~ has_fence (trim (lit "final answer: B")) /\
  exists info,
    formatDirectResponse (lit "final answer: B") (lit "python") =
    Return
      ({| answer_type := AnswerAnalysis;
          content := lit "final answer: B";
          code := None;
          final_answer := None;
          thoughts := None;
          time_complexity := None;
          space_complexity := None;
          key_takeaways := None |}, info).
Proof.
  split; [apply exec_codeBlock_None; vm_compute; reflexivity|].
  eexists. vm_compute. reflexivity.
Qed.

(** ** Requests, extraction and the client registry *)

Import Coordinator.

Lemma filter_map_true {A B} (p : B -> bool) (f : A -> B) l :
  (forall a, p (f a) = true) -> filter p (map f l) = map f l.
Proof.
  intros H. induction l as [|a l IH]; simpl; [reflexivity|].
  now rewrite H, IH.
Qed.

Lemma openai_images config text images :
  OpenAI.image_parts (OpenAI.solve_request config text images)
  = map (fun d => OpenAI.image_url_part (lit "data:image/png;base64," ++ d))
        images.
Proof.
  unfold OpenAI.image_parts, OpenAI.solve_request, OpenAI.solve_messages.
  cbn [OpenAI.messages flat_map OpenAI.content_of filter OpenAI.is_image].
  rewrite app_nil_r. now apply filter_map_true.
Qed.

Lemma gemini_images base config key text images signal :
  Gemini.image_parts (Gemini.solve_request base config key text images signal)
  = map (fun d => Gemini.inlineData_part (lit "image/png") d) images.
Proof.
  unfold Gemini.image_parts, Gemini.solve_request, Gemini.solve_body.
  cbn [Gemini.body_of Gemini.contents flat_map Gemini.parts].
  rewrite app_nil_r, filter_app. cbn [filter Gemini.is_image].
  rewrite app_nil_r. now apply filter_map_true.
Qed.

Lemma anthropic_images config text images :
  Anthropic.image_blocks (Anthropic.solve_request config text images)
  = map Anthropic.image_of images.
Proof.
  unfold Anthropic.image_blocks, Anthropic.solve_request.
  cbn [Anthropic.messages flat_map Anthropic.content filter Anthropic.is_image].
  rewrite app_nil_r. now apply filter_map_true.
Qed.

(** C4: with a configuration that loads and a client (for Gemini, a key) for
    its provider, [processScreenshotsHelper] reaches the call of that
    provider, and the request it sends holds one image part per screenshot,
    in the order of the screenshots: for OpenAI a text part followed by the
    image parts, for Gemini the image parts followed by the text part, for
    Anthropic a text block followed by base64 image blocks tagged
    "image/png". *)
Theorem solve_requests_carry_every_image screenshots signal st config :
  stored_config st = Return config ->
  client_missing config (clients st) = false ->
  match Config.apiProvider config,
        processScreenshotsHelper screenshots signal st with
  | Config.openai, AwaitOpenAI _ req _ _ =>
    well_formed_openai req (map data screenshots)
  | Config.gemini, AwaitGemini req _ _ =>
    well_formed_gemini req (map data screenshots)
  | Config.anthropic, AwaitAnthropic _ req _ _ =>
    well_formed_anthropic req (map data screenshots)
  | _, _ => False
  end.
Proof.
  intros Hc Hm. unfold client_missing in Hm.
  destruct (Config.apiProvider config) eqn:Ep;
    unfold processScreenshotsHelper, try_catch, loadConfig;
    cbv beta zeta; unfold bind at 1; cbv beta; rewrite Hc;
    cbn [lift ret throw bind bind_step catch_step];
    unfold solve_fullText; rewrite Ep;
    cbn [bind modify get bind_step catch_step].
  - destruct (openaiClient (clients st)) as [client|] eqn:Eo;
      [|discriminate Hm].
    rewrite Eo. cbn [bind ret bind_step catch_step await_openai].
    unfold well_formed_openai. eexists.
    rewrite openai_images, length_map. repeat split; reflexivity.
  - unfold truthy_opt in Hm.
    destruct (geminiApiKey (clients st)) as [key|] eqn:Eg;
      [destruct (truthy key); [|discriminate Hm]|discriminate Hm];
      cbn [bind ret bind_step catch_step await_gemini].
    unfold well_formed_gemini. eexists.
    rewrite gemini_images, length_map. repeat split; reflexivity.
  - destruct (anthropicClient (clients st)) as [client|] eqn:Eo;
      [|discriminate Hm].
    rewrite Eo. cbn [bind ret bind_step catch_step await_anthropic].
    unfold well_formed_anthropic. eexists.
    rewrite anthropic_images, length_map. repeat split; reflexivity.
Qed.

(** C9: after [initializeAIClient], whatever the fields held before, at most
    one provider family holds a client or a key; the provider of the loaded
    configuration gets its client (or key) when the configuration has an API
    key, and the two other families hold none. *)
Theorem at_most_one_live_client st :
  let r := clients (initializeAIClient st) in
  live_clients r <= 1 /\
  forall config,
    stored_config st = Return config ->
    match Config.apiProvider config with
    | Config.openai =>
      geminiApiKey r = None /\ anthropicClient r = None /\
      (truthy (Config.apiKey config) = true ->
       openaiClient r
       = Some {| OpenAI.apiKey := Config.apiKey config;
                 OpenAI.baseURL := Config.openaiBaseUrl config;
                 OpenAI.timeout := 60000;
                 OpenAI.maxRetries := 2 |})
    | Config.gemini =>
      openaiClient r = None /\ anthropicClient r = None /\
      (truthy (Config.apiKey config) = true ->
       geminiApiKey r = Some (Config.apiKey config))
    | Config.anthropic =>
      openaiClient r = None /\ geminiApiKey r = None /\
      (truthy (Config.apiKey config) = true ->
       anthropicClient r
       = Some {| Anthropic.apiKey := Config.apiKey config;
                 Anthropic.baseURL := Config.anthropicBaseUrl config;
                 Anthropic.timeout := 60000;
                 Anthropic.maxRetries := 2 |})
    end.
Proof.
  unfold initializeAIClient. split.
  - destruct (stored_config st) as [config|e];
      [destruct (Config.apiProvider config);
       destruct (truthy (Config.apiKey config))|];
      cbn; lia.
  - intros config ->.
    destruct (Config.apiProvider config);
      destruct (truthy (Config.apiKey config)); cbn;
      repeat split; auto; discriminate.
Qed.

(** ** The coordinator *)

Ltac run_proc :=
  repeat (progress
    (unfold bind, try_catch, try_finally, ret, throw, get, modify, send,
       setView, await_openai, await_gemini, await_anthropic, loadConfig,
       settle in *;
     cbn [bind_step catch_step finally_step lift reject no_call negb] in *;
     unfold ret, throw in *)).

Lemma canceled_text_names_no_credentials :
  names_credentials (lit "Processing was canceled by the user.") = false.
Proof. vm_compute. reflexivity. Qed.

Lemma solve_catch_cancel provider e :
  is_cancel e = true ->
  solve_catch provider e = failure (lit "Processing was canceled by the user.").
Proof. intros H. unfold solve_catch. now rewrite H. Qed.

(** A rejection that is a cancellation makes the solve helper return the
    canceled result, whatever the provider. *)
Lemma helper_reject_cancel screenshots signal st e st' x :
  is_cancel e = true ->
  reject (processScreenshotsHelper screenshots signal st) e st' = Some x ->
  x = Done (failure (lit "Processing was canceled by the user.")) st'.
Proof.
  intros He. unfold processScreenshotsHelper, try_catch, loadConfig.
  cbv beta zeta. unfold bind at 1. cbv beta.
  destruct (stored_config st) as [config|e0]; run_proc; [|discriminate].
  unfold solve_fullText.
  destruct (Config.apiProvider config); run_proc.
  - destruct (openaiClient (clients _)); run_proc; [|discriminate].
    intros [= <-]. now rewrite solve_catch_cancel.
  - destruct (geminiApiKey (clients st)) as [key|];
      [destruct (truthy key)|]; run_proc; try discriminate.
    intros [= <-]. now rewrite solve_catch_cancel.
  - destruct (anthropicClient (clients _)); run_proc; [|discriminate].
    intros [= <-]. now rewrite solve_catch_cancel.
Qed.

Ltac run_state :=
  cbn [stored_config clients controllers deps screenshotHelper sent
       with_sent with_deps with_clients with_controllers with_screenshotHelper
       set_view set_problemInfo set_hasDebugged clearExtraScreenshotQueue
       new_processing_controller new_extra_controller
       clear_processing_controller clear_extra_controller abort
       mainWindow window_language view problemInfo hasDebugged
       screenshotQueue extraScreenshotQueue files
       currentProcessingAbortController currentExtraProcessingAbortController
       next_controller aborted] in *.

Lemma solve_pipeline_reject_cancel st e st' x :
  is_cancel e = true ->
  reject (solve_pipeline st) e st' = Some x ->
  x = Done tt
        (clear_processing_controller
           (set_view queue
              (with_sent
                 (sent st' ++
                  [Send INITIAL_SOLUTION_ERROR
                     (error_text (lit "Processing was canceled by the user."))])
                 st'))).
Proof.
  intros He. unfold solve_pipeline. run_proc. run_state.
  destruct (screenshotQueue (screenshotHelper st)) as [|p0 ps] eqn:Eq;
    run_proc; [discriminate|].
  destruct (filter _ (p0 :: ps)) as [|q0 qs] eqn:Ef; run_proc; [discriminate|].
  destruct (load_screenshots _ (q0 :: qs)) as [|v0 vs] eqn:El; run_proc;
    [discriminate|].
  match goal with
  | |- context [processScreenshotsHelper ?a ?b ?c] =>
    pose proof (@helper_reject_cancel a b c e st') as Hh;
    destruct (processScreenshotsHelper a b c) as [r s|e0 s|c0 req s k|req s k|c0 req s k]
  end; run_proc.
  - destruct r; [|destruct (names_credentials error)]; run_proc; discriminate.
  - destruct (is_cancel e0); run_proc; discriminate.
  - intros [= <-]. rewrite (Hh _ He eq_refl). run_proc.
    rewrite canceled_text_names_no_credentials. run_proc. reflexivity.
  - intros [= <-]. rewrite (Hh _ He eq_refl). run_proc.
    rewrite canceled_text_names_no_credentials. run_proc. reflexivity.
  - intros [= <-]. rewrite (Hh _ He eq_refl). run_proc.
    rewrite canceled_text_names_no_credentials. run_proc. reflexivity.
Qed.

Lemma initialize_keeps st :
  stored_config (initializeAIClient st) = stored_config st /\
  controllers (initializeAIClient st) = controllers st /\
  deps (initializeAIClient st) = deps st /\
  screenshotHelper (initializeAIClient st) = screenshotHelper st /\
  sent (initializeAIClient st) = sent st.
Proof.
  unfold initializeAIClient.
  destruct (stored_config st) as [config|e] eqn:E;
    [destruct (Config.apiProvider config), (truthy (Config.apiKey config))|];
    cbn; rewrite ?E; repeat split; reflexivity.
Qed.

(** [processScreenshots] either returns at once without a call, leaving
    the controllers as they were, or throws on loading the configuration, or
    goes on as the pipeline of the current view, from the state it was
    called in or from that state with the clients initialized again. *)
Lemma processScreenshots_cases st :
  (exists st', processScreenshots st = Done tt st' /\
               controllers st' = controllers st) \/
  (exists e, processScreenshots st = Thrown e st) \/
  (exists st_a,
     (st_a = st \/ st_a = initializeAIClient st) /\
     processScreenshots st =
     match view (deps st) with
     | queue => solve_pipeline st_a
     | solutions => debug_pipeline st_a
     end).
Proof.
  unfold processScreenshots. run_proc.
  destruct (mainWindow (deps st)) as [w|]; run_proc; [|left; eauto].
  destruct (stored_config st) as [config|e] eqn:Ec; run_proc;
    [|right; left; eauto].
  destruct (initialize_keeps st) as (_ & Hc & Hd & _ & _).
  unfold ensure_client. run_proc.
  destruct (Config.apiProvider config).
  - destruct (openaiClient (clients st)); run_proc.
    + right; right. exists st. split; [now left | destruct (view (deps st)); reflexivity].
    + destruct (openaiClient (clients (initializeAIClient st))); run_proc.
      * right; right. exists (initializeAIClient st).
        split; [now right | rewrite Hd; destruct (view (deps st)); reflexivity].
      * left. eexists. split; [reflexivity|]. run_state. exact Hc.
  - destruct (truthy_opt (geminiApiKey (clients st))); run_proc.
    + right; right. exists st. split; [now left | destruct (view (deps st)); reflexivity].
    + destruct (truthy_opt (geminiApiKey (clients (initializeAIClient st))));
        run_proc.
      * right; right. exists (initializeAIClient st).
        split; [now right | rewrite Hd; destruct (view (deps st)); reflexivity].
      * left. eexists. split; [reflexivity|]. run_state. exact Hc.
  - destruct (anthropicClient (clients st)); run_proc.
    + right; right. exists st. split; [now left | destruct (view (deps st)); reflexivity].
    + destruct (anthropicClient (clients (initializeAIClient st))); run_proc.
      * right; right. exists (initializeAIClient st).
        split; [now right | rewrite Hd; destruct (view (deps st)); reflexivity].
      * left. eexists. split; [reflexivity|]. run_state. exact Hc.
Qed.

Lemma helper_awaits screenshots signal st :
  awaits_in (fun st1 => controllers st1 = controllers st)
            (fun req => Gemini.signal req = signal)
            (processScreenshotsHelper screenshots signal st).
Proof.
  unfold processScreenshotsHelper, try_catch, loadConfig.
  cbv beta zeta. unfold bind at 1. cbv beta.
  destruct (initialize_keeps st) as (_ & Hc & _).
  destruct (stored_config st) as [config|e0]; run_proc; [|exact I].
  unfold solve_fullText.
  destruct (Config.apiProvider config); run_proc.
  - destruct (openaiClient (clients st)) eqn:E1; run_proc.
    + rewrite E1. run_proc. reflexivity.
    + destruct (openaiClient (clients (initializeAIClient st))); run_proc;
        [exact Hc | exact I].
  - destruct (geminiApiKey (clients st)) as [key|];
      [destruct (truthy key)|]; run_proc; try exact I. now split.
  - destruct (anthropicClient (clients st)) eqn:E1; run_proc.
    + rewrite E1. run_proc. reflexivity.
    + destruct (anthropicClient (clients (initializeAIClient st))); run_proc;
        [exact Hc | exact I].
Qed.

Lemma awaits_in_bind {A B} P Q (x : step A) (f : A -> proc B) :
  awaits_in P Q x ->
  (forall a st, x = Done a st -> awaits_in P Q (f a st)) ->
  awaits_in P Q (bind_step x f).
Proof. destruct x; cbn; auto. Qed.

Lemma awaits_in_catch {A} P Q (x : step A) h :
  awaits_in P Q x ->
  (forall e st, x = Thrown e st -> awaits_in P Q (h e st)) ->
  awaits_in P Q (catch_step x h).
Proof. destruct x; cbn; auto. Qed.

Lemma awaits_in_finally {A} P Q (x : step A) f :
  awaits_in P Q x -> awaits_in P Q (finally_step x f).
Proof. destruct x; cbn; auto. Qed.

Lemma awaits_in_weaken {A} (P P' : state -> Prop) (Q Q' : Gemini.request -> Prop)
    (x : step A) :
  (forall s, P s -> P' s) -> (forall r, Q r -> Q' r) ->
  awaits_in P Q x -> awaits_in P' Q' x.
Proof. destruct x; cbn; intuition. Qed.

Lemma debug_helper_awaits screenshots signal st :
  awaits_in (fun st1 => controllers st1 = controllers st)
            (fun req => Gemini.signal req = signal)
            (processExtraScreenshotsHelper screenshots signal st).
Proof.
  unfold processExtraScreenshotsHelper, try_catch, loadConfig.
  cbv beta zeta. unfold bind at 1. cbv beta.
  destruct (stored_config st) as [config|e0]; run_proc; [|exact I].
  destruct (problemInfo (deps st)) as [info|]; run_proc; [|exact I].
  unfold debug_content.
  destruct (mainWindow (deps st)) as [w|], (Config.apiProvider config);
    run_proc; run_state.
  - destruct (openaiClient (clients st)); run_proc; [reflexivity | exact I].
  - destruct (truthy_opt (geminiApiKey (clients st))); run_proc;
      [now split | exact I].
  - destruct (anthropicClient (clients st)); run_proc; [reflexivity | exact I].
  - destruct (openaiClient (clients st)); run_proc; [reflexivity | exact I].
  - destruct (truthy_opt (geminiApiKey (clients st))); run_proc;
      [now split | exact I].
  - destruct (anthropicClient (clients st)); run_proc; [reflexivity | exact I].
Qed.

Lemma solve_pipeline_awaits st :
  awaits_in
    (fun st1 =>
       controllers st1 = controllers (new_processing_controller st))
    (fun req => Gemini.signal req = next_controller (controllers st))
    (solve_pipeline st).
Proof.
  unfold solve_pipeline. run_proc. run_state.
  destruct (screenshotQueue (screenshotHelper st)) as [|p0 ps];
    run_proc; [exact I|].
  destruct (filter _ (p0 :: ps)) as [|q0 qs]; run_proc; [exact I|].
  destruct (load_screenshots _ (q0 :: qs)) as [|v0 vs]; run_proc.
  - destruct (is_cancel _); run_proc; exact I.
  - apply awaits_in_finally, awaits_in_catch.
    + apply awaits_in_bind.
      * eapply awaits_in_weaken; [| |apply helper_awaits]; cbn beta.
        -- intros s ->. reflexivity.
        -- auto.
      * intros [data|error] s _; [|destruct (names_credentials error)];
          run_proc; exact I.
    + intros e s _. destruct (is_cancel e); run_proc; exact I.
Qed.

Lemma debug_pipeline_awaits st :
  awaits_in
    (fun st1 => controllers st1 = controllers (new_extra_controller st))
    (fun req => Gemini.signal req = next_controller (controllers st))
    (debug_pipeline st).
Proof.
  unfold debug_pipeline. run_proc. run_state.
  destruct (extraScreenshotQueue (screenshotHelper st)) as [|p0 ps];
    run_proc; [exact I|].
  destruct (filter _ (p0 :: ps)) as [|q0 qs]; run_proc; [exact I|].
  run_state.
  destruct (load_screenshots _ _) as [|v0 vs]; run_proc.
  - exact I.
  - apply awaits_in_finally, awaits_in_catch.
    + apply awaits_in_bind.
      * eapply awaits_in_weaken; [| |apply debug_helper_awaits]; cbn beta.
        -- intros s ->. reflexivity.
        -- auto.
      * intros [data|error] s _; run_proc; exact I.
    + intros e s _. destruct (is_cancel e); run_proc; exact I.
Qed.

Lemma processScreenshots_installs st :
  awaits_in (installs_fresh_controller st)
            (fun req => Gemini.signal req = next_controller (controllers st))
            (processScreenshots st).
Proof.
  destruct (initialize_keeps st) as (_ & Hc & _).
  destruct (processScreenshots_cases st)
    as [(st' & -> & _) | [(e & ->) | (st_a & Ha & ->)]]; try exact I.
  assert (controllers st_a = controllers st) as Hca
    by (destruct Ha as [-> | ->]; [reflexivity | exact Hc]).
  unfold installs_fresh_controller.
  destruct (view (deps st)).
  - eapply awaits_in_weaken; [| |apply solve_pipeline_awaits]; cbn beta.
    + intros s ->. unfold new_processing_controller. run_state.
      rewrite Hca. repeat split; reflexivity.
    + intros r ->. now rewrite Hca.
  - eapply awaits_in_weaken; [| |apply debug_pipeline_awaits]; cbn beta.
    + intros s ->. unfold new_extra_controller. run_state.
      rewrite Hca. repeat split; reflexivity.
    + intros r ->. now rewrite Hca.
Qed.

Lemma cancel_aborts_the_stored_controllers st :
  let st' := cancelOngoingRequests st in
  currentProcessingAbortController (controllers st') = None /\
  currentExtraProcessingAbortController (controllers st') = None /\
  forall c,
    In c (aborted (controllers st')) <->
    In c (aborted (controllers st)) \/
    currentProcessingAbortController (controllers st) = Some c \/
    currentExtraProcessingAbortController (controllers st) = Some c.
Proof.
  unfold cancelOngoingRequests.
  destruct (currentProcessingAbortController (controllers st)) as [c1|] eqn:E1;
    run_state;
    destruct (currentExtraProcessingAbortController (controllers st))
      as [c2|] eqn:E2; run_state;
    destruct (mainWindow (deps st)) as [[[]]|]; cbn; rewrite ?E1, ?E2;
    (split; [reflexivity|split; [reflexivity|]]); intros c;
    intuition (try congruence).
Qed.

(** C7 as amended: when the provider call of a solve run is rejected as
    canceled, the run reports it on the solution-error channel, as one event
    with the text "Processing was canceled by the user.", resets the view to
    the queue and clears its controller field; and [cancelOngoingRequests],
    when it aborted a controller and the window is alive, sends the
    NO_SCREENSHOTS signal. *)
Theorem user_abort_is_reported_on_the_error_channel :
  (forall st e st' x,
     view (deps st) = queue ->
     is_cancel e = true ->
     reject (processScreenshots st) e st' = Some x ->
     x = Done tt
           (clear_processing_controller
              (set_view queue
                 (with_sent
                    (sent st' ++
                     [Send INITIAL_SOLUTION_ERROR
                        (error_text
                           (lit "Processing was canceled by the user."))])
                    st')))) /\
  (forall st c w,
     currentProcessingAbortController (controllers st) = Some c ->
     mainWindow (deps st) = Some w -> isDestroyed w = false ->
     sent (cancelOngoingRequests st)
     = sent st ++ [Send NO_SCREENSHOTS no_payload]).
Proof.
  split.
  - intros st e st' x Hv He.
    destruct (processScreenshots_cases st)
      as [(s & -> & _) | [(e0 & ->) | (st_a & _ & ->)]]; try discriminate.
    rewrite Hv. now apply solve_pipeline_reject_cancel.
  - intros st c w Hc Hw Hd. unfold cancelOngoingRequests. rewrite Hc.
    run_state.
    destruct (currentExtraProcessingAbortController (controllers st));
      run_state; rewrite Hw, Hd; reflexivity.
Qed.

(** Counterexample to C7 as stated: a Gemini solve run is in flight, the user
    cancels, the call rejects as canceled, and the run sends an event on the
    solution-error channel; nothing stays in flight. *)
Lemma user_abort_surfaces_as_solution_error :
  option_map (fun sys => (events (observe sys), length (calls (observe sys))))
    (run_actions
       [call_processScreenshots; call_cancelOngoingRequests;
        settle_gemini 0 (Throw Samples.canceled)]
       (Samples.idle Config.gemini))
  = Some
      ([Send INITIAL_START no_payload;
        Send NO_SCREENSHOTS no_payload;
        Send INITIAL_SOLUTION_ERROR
          (error_text (lit "Processing was canceled by the user."))],
       0).
Proof. vm_compute. reflexivity. Qed.

(** C6 as amended: a run that reaches its provider call has stored a fresh
    controller in the field of its pipeline, in place of whatever the field
    held, and has aborted nothing (a Gemini request carries the signal of
    that fresh controller); controllers are aborted by
    [cancelOngoingRequests] only, which aborts the two it finds stored and
    clears both fields. *)
Theorem runs_replace_the_stored_controller :
  (forall st,
     awaits_in (installs_fresh_controller st)
       (fun req => Gemini.signal req = next_controller (controllers st))
       (processScreenshots st)) /\
  (forall st,
     let st' := cancelOngoingRequests st in
     currentProcessingAbortController (controllers st') = None /\
     currentExtraProcessingAbortController (controllers st') = None /\
     forall c,
       In c (aborted (controllers st')) <->
       In c (aborted (controllers st)) \/
       currentProcessingAbortController (controllers st) = Some c \/
       currentExtraProcessingAbortController (controllers st) = Some c).
Proof.
  split; [exact processScreenshots_installs
         | exact cancel_aborts_the_stored_controllers].
Qed.

(** Counterexample to C6 as stated: a second solve request starts while the
    first is in flight.  After the first request one call is in flight and
    the solve field holds controller 0; after the second, two calls are in
    flight, the field holds controller 1 and nothing has been aborted; the
    first call then resolves and its run emits the success event, the second
    call still in flight. *)
Lemma superseded_run_still_succeeds :
  option_map
    (fun sys => (abort_state (observe sys), length (calls (observe sys))))
    (run_actions [call_processScreenshots] (Samples.idle Config.gemini))
  = Some
      ({| currentProcessingAbortController := Some 0;
          currentExtraProcessingAbortController := None;
          next_controller := 1;
          aborted := [] |}, 1) /\
  option_map
    (fun sys => (abort_state (observe sys), length (calls (observe sys))))
    (run_actions [call_processScreenshots; call_processScreenshots]
       (Samples.idle Config.gemini))
  = Some
      ({| currentProcessingAbortController := Some 1;
          currentExtraProcessingAbortController := None;
          next_controller := 2;
          aborted := [] |}, 2) /\
  option_map
    (fun sys => (map on (events (observe sys)), length (calls (observe sys))))
    (run_actions
       [call_processScreenshots; call_processScreenshots;
        settle_gemini 0 (Return Samples.gemini_answer)]
       (Samples.idle Config.gemini))
  = Some
      ([INITIAL_START; INITIAL_START; PROBLEM_EXTRACTED; processing_status;
        SOLUTION_SUCCESS], 1).
Proof. repeat split; vm_compute; reflexivity. Qed.

Lemma debug_helper_without_context screenshots signal st :
  problemInfo (deps st) = None ->
  no_call (processExtraScreenshotsHelper screenshots signal st) /\
  forall config,
    stored_config st = Return config ->
    processExtraScreenshotsHelper screenshots signal st
    = Done (failure (lit "No problem info available")) st.
Proof.
  intros Hp. unfold processExtraScreenshotsHelper, try_catch, loadConfig.
  cbv beta zeta. rewrite Hp. run_proc.
  destruct (stored_config st) as [config|e0]; run_proc.
  - split; [exact I|]. intros c _. vm_compute. reflexivity.
  - split; [exact I|]. discriminate.
Qed.

Lemma debug_pipeline_without_context st :
  problemInfo (deps st) = None -> no_call (debug_pipeline st).
Proof.
  intros Hp. unfold debug_pipeline. run_proc. run_state.
  destruct (extraScreenshotQueue (screenshotHelper st)) as [|p0 ps];
    run_proc; [exact I|].
  destruct (filter _ (p0 :: ps)) as [|q0 qs]; run_proc; [exact I|].
  run_state.
  destruct (load_screenshots _ _) as [|v0 vs]; run_proc; [exact I|].
  match goal with
  | |- context [processExtraScreenshotsHelper ?a ?b ?c] =>
    destruct (@debug_helper_without_context a b c) as [Hn _];
      [run_state; exact Hp|];
    destruct (processExtraScreenshotsHelper a b c) as [[d|err] s|e0 s| | |]
  end; try contradiction; run_proc; try exact I.
  destruct (is_cancel e0); run_proc; exact I.
Qed.

(** C8: without a problem context the debug pipeline makes no provider
    call: the helper ends at once, with the error "No problem info
    available" when the configuration loads, and [processScreenshots] run in
    the solutions view ends without awaiting anything. *)
Theorem debug_without_context_fails_fast screenshots signal st :
  problemInfo (deps st) = None ->
  no_call (processExtraScreenshotsHelper screenshots signal st) /\
  (forall config,
     stored_config st = Return config ->
     processExtraScreenshotsHelper screenshots signal st
     = Done (failure (lit "No problem info available")) st) /\
  (view (deps st) = solutions -> no_call (processScreenshots st)).
Proof.
  intros Hp.
  destruct (debug_helper_without_context screenshots signal st Hp) as [H1 H2].
  split; [exact H1|]. split; [exact H2|]. intros Hv.
  destruct (initialize_keeps st) as (_ & _ & Hd & _).
  destruct (processScreenshots_cases st)
    as [(s & -> & _) | [(e0 & ->) | (st_a & Ha & ->)]]; try exact I.
  rewrite Hv. apply debug_pipeline_without_context.
  destruct Ha as [-> | ->]; [exact Hp | now rewrite Hd].
Qed.

Lemma debug_without_context_fails_fast_witness :
  problemInfo (deps (now (Samples.without_context Config.gemini))) = None /\
  view (deps (now (Samples.without_context Config.gemini))) = solutions /\
  no_call (processScreenshots (now (Samples.without_context Config.gemini))).
Proof.
  assert (problemInfo (deps (now (Samples.without_context Config.gemini)))
          = None) as Hp by (vm_compute; reflexivity).
  assert (view (deps (now (Samples.without_context Config.gemini)))
          = solutions) as Hv by (vm_compute; reflexivity).
  split; [exact Hp|]. split; [exact Hv|].
  exact (proj2 (proj2
    (debug_without_context_fails_fast [] 0
       (now (Samples.without_context Config.gemini)) Hp)) Hv).
Defined.

(** The run of the witness: the debug run starts, reports the missing
    context on the debug-error channel and leaves no call in flight. *)
Example debug_without_context_run :
  option_map (fun sys => (events (observe sys), calls (observe sys)))
    (run_actions [call_processScreenshots]
       (Samples.without_context Config.gemini))
  = Some
      ([Send DEBUG_START no_payload;
        Send DEBUG_ERROR (error_text (lit "No problem info available"))],
       []).
Proof. vm_compute. reflexivity. Qed.

Lemma solve_catch_blank provider :
  solve_catch provider (Error blank_message) = failure blank_message.
Proof. destruct provider as [[]|]; vm_compute; reflexivity. Qed.

Lemma blank_message_names_no_credentials :
  names_credentials blank_message = false.
Proof. vm_compute. reflexivity. Qed.

Lemma helper_resume_blank screenshots signal st r text st' x :
  reply_fullText r = Return text -> trim text = [] ->
  resume (processScreenshotsHelper screenshots signal st) r st' = Some x ->
  x = Done (failure blank_message) st'.
Proof.
  intros Hr Ht. unfold processScreenshotsHelper, try_catch, loadConfig.
  cbv beta zeta. unfold bind at 1. cbv beta.
  destruct (stored_config st) as [config|e0]; run_proc; [|discriminate].
  unfold solve_fullText.
  destruct (Config.apiProvider config); run_proc.
  - destruct (openaiClient (clients _)); run_proc; [|discriminate].
    destruct r; cbn [resume]; try discriminate. intros [= <-].
    injection Hr as Hr. run_proc.
    rewrite (format_blank _ _ (eq_trans (f_equal trim Hr) Ht)).
    run_proc. now rewrite solve_catch_blank.
  - destruct (geminiApiKey (clients st)) as [key|];
      [destruct (truthy key)|]; run_proc; try discriminate.
    destruct r; cbn [resume]; try discriminate. intros [= <-].
    cbn [reply_fullText] in Hr. rewrite Hr. run_proc.
    rewrite (format_blank _ _ Ht).
    run_proc. now rewrite solve_catch_blank.
  - destruct (anthropicClient (clients _)); run_proc; [|discriminate].
    destruct r; cbn [resume]; try discriminate. intros [= <-].
    injection Hr as Hr. run_proc.
    rewrite (format_blank _ _ (eq_trans (f_equal trim Hr) Ht)).
    run_proc. now rewrite solve_catch_blank.
Qed.

Lemma solve_pipeline_resume_blank st r text st' x :
  reply_fullText r = Return text -> trim text = [] ->
  resume (solve_pipeline st) r st' = Some x ->
  x = Done tt
        (clear_processing_controller
           (set_view queue
              (with_sent
                 (sent st' ++
                  [Send INITIAL_SOLUTION_ERROR (error_text blank_message)])
                 st'))).
Proof.
  intros Hr Ht. unfold solve_pipeline. run_proc. run_state.
  destruct (screenshotQueue (screenshotHelper st)) as [|p0 ps] eqn:Eq;
    run_proc; [discriminate|].
  destruct (filter _ (p0 :: ps)) as [|q0 qs] eqn:Ef; run_proc; [discriminate|].
  destruct (load_screenshots _ (q0 :: qs)) as [|v0 vs] eqn:El; run_proc.
  { destruct (is_cancel _); run_proc; discriminate. }
  match goal with
  | |- context [processScreenshotsHelper ?a ?b ?c] =>
    pose proof (fun y => @helper_resume_blank a b c r text st' y Hr Ht) as Hh;
    destruct (processScreenshotsHelper a b c)
      as [res s|e0 s|c0 req s k|req s k|c0 req s k]
  end; run_proc.
  - destruct res; [|destruct (names_credentials error)]; run_proc;
      discriminate.
  - destruct (is_cancel e0); run_proc; discriminate.
  - destruct r; cbn [resume] in *; try discriminate.
    intros [= <-]. rewrite (Hh _ eq_refl). run_proc.
    rewrite blank_message_names_no_credentials. run_proc. reflexivity.
  - destruct r; cbn [resume] in *; try discriminate.
    intros [= <-]. rewrite (Hh _ eq_refl). run_proc.
    rewrite blank_message_names_no_credentials. run_proc. reflexivity.
  - destruct r; cbn [resume] in *; try discriminate.
    intros [= <-]. rewrite (Hh _ eq_refl). run_proc.
    rewrite blank_message_names_no_credentials. run_proc. reflexivity.
Qed.

(** C10: a reply whose text is empty or white space only makes
    [formatDirectResponse] throw instead of giving an analysis answer; the
    solve helper turns the throw into a failed result for each of the three
    providers, and the solve run reports it on the solution-error channel:
    no success event is sent. *)
Theorem blank_reply_is_a_failure :
  (forall fullText language,
     trim fullText = [] ->
     formatDirectResponse fullText language = Throw (Error blank_message)) /\
  (forall screenshots signal st r text st' x,
     reply_fullText r = Return text -> trim text = [] ->
     resume (processScreenshotsHelper screenshots signal st) r st' = Some x ->
     x = Done (failure blank_message) st') /\
  (forall st r text st' x,
     view (deps st) = queue ->
     reply_fullText r = Return text -> trim text = [] ->
     resume (processScreenshots st) r st' = Some x ->
     x = Done tt
           (clear_processing_controller
              (set_view queue
                 (with_sent
                    (sent st' ++
                     [Send INITIAL_SOLUTION_ERROR (error_text blank_message)])
                    st')))).
Proof.
  split; [exact format_blank|]. split; [exact helper_resume_blank|].
  intros st r text st' x Hv Hr Ht.
  destruct (processScreenshots_cases st)
    as [(s & -> & _) | [(e0 & ->) | (st_a & _ & ->)]]; try discriminate.
  rewrite Hv. now apply solve_pipeline_resume_blank with (text := text).
Qed.

(** C5 on the failing input: a Gemini reply whose first candidate stopped
    at the token limit without text.  The solve extraction accepts it (as
    the empty text); the debug extraction throws, and the debug run reports
    a failure. *)
Theorem gemini_debug_rejects_a_truncated_reply :
  Gemini.extract Samples.truncated_reply = Return (lit "") /\
  Gemini.extract_debug Samples.truncated_reply
  = Throw (Error (lit "Gemini response missing text content")) /\
  option_map (fun sys => (map on (events (observe sys)),
                          last (events (observe sys))
                               (Send DEBUG_START no_payload),
                          calls (observe sys)))
    (run_actions
       [call_processScreenshots;
        settle_gemini 0 (Return Samples.truncated_reply)]
       (Samples.solved Config.gemini))
  = Some
      ([DEBUG_START; processing_status; processing_status; DEBUG_ERROR],
       Send DEBUG_ERROR
         (error_text (lit "Failed to process debug request with Gemini API. Please check your API key or try again later.")),
       []).
Proof. repeat split; vm_compute; reflexivity. Qed.

(** The debug path reads the first part only and never looks at the finish
    reason. *)
Lemma gemini_debug_extraction response first others part0 parts :
  Gemini.candidates response = Some (first :: others) ->
  Gemini.reply_parts first = Some (part0 :: parts) ->
  Gemini.extract_debug response =
  let debugContent :=
    match Gemini.text part0 with Some t => t | None => [] end in
  if truthy (trim debugContent) then Return debugContent
  else Throw (Error (lit "Gemini response missing text content")).
Proof.
  intros Hc Hp. unfold Gemini.extract_debug. rewrite Hc, Hp.
  destruct (Gemini.text part0) as [[|c t]|]; cbn [truthy_opt truthy];
    try reflexivity.
  cbv zeta. now destruct (truthy (trim (c :: t))).
Qed.

(** The solve path: the first candidate decides; without text the reply is
    an error unless the finish reason is MAX_TOKENS, and with text it is
    accepted whatever the finish reason. *)
Lemma gemini_solve_extraction response first others :
  Gemini.candidates response = Some (first :: others) ->
  Gemini.extract response =
  if truthy (Gemini.candidate_text first)
  then Return (Gemini.candidate_text first)
  else if Gemini.is_max_tokens (Gemini.finishReason first)
       then Return (lit "")
       else Throw (Error (lit "Gemini response missing text")).
Proof.
  intros H. unfold Gemini.extract. rewrite H.
  fold (Gemini.candidate_text first).
  destruct (Gemini.candidate_text first) eqn:E; cbn [truthy negb andb];
    [|reflexivity].
  now destruct (Gemini.is_max_tokens (Gemini.finishReason first)).
Qed.

(** ** Sample runs *)

(** A reply cut off at the token limit with some text is accepted by both
    extractions. *)
Example gemini_partial_text_is_accepted :
  Gemini.extract Samples.partial_reply
  = Return (lit "The loop runs one time too") /\
  Gemini.extract_debug Samples.partial_reply
  = Return (lit "The loop runs one time too").
Proof. split; vm_compute; reflexivity. Qed.

(** With one screenshot queued, the solve run of each provider reaches its
    call, and the request holds one image. *)
Example solve_runs_reach_their_call :
  map (fun provider =>
         option_map images_in
           (awaited (processScreenshots (now (Samples.idle provider)))))
      [Config.openai; Config.gemini; Config.anthropic]
  = [Some 1; Some 1; Some 1].
Proof. vm_compute. reflexivity. Qed.

Lemma solve_requests_carry_every_image_witness :
  stored_config (now (Samples.idle Config.gemini))
  = Return (Samples.config_of Config.gemini) /\
  client_missing (Samples.config_of Config.gemini)
    (clients (now (Samples.idle Config.gemini))) = false /\
  match
    processScreenshotsHelper
      [ {| path := lit "/tmp/shot-1.png"; data := lit "iVBORw0KGgo=" |};
        {| path := lit "/tmp/shot-2.png"; data := lit "iVBORw0KGgp=" |} ]
      0 (now (Samples.idle Config.gemini))
  with
  | AwaitGemini req _ _ =>
    well_formed_gemini req [lit "iVBORw0KGgo="; lit "iVBORw0KGgp="]
  | _ => False
  end.
Proof.
  assert (Hc : stored_config (now (Samples.idle Config.gemini))
               = Return (Samples.config_of Config.gemini))
    by (vm_compute; reflexivity).
  assert (Hm : client_missing (Samples.config_of Config.gemini)
                 (clients (now (Samples.idle Config.gemini))) = false)
    by (vm_compute; reflexivity).
  split; [exact Hc|]. split; [exact Hm|].
  exact (solve_requests_carry_every_image
           [ {| path := lit "/tmp/shot-1.png"; data := lit "iVBORw0KGgo=" |};
             {| path := lit "/tmp/shot-2.png"; data := lit "iVBORw0KGgp=" |} ]
           0 (now (Samples.idle Config.gemini)) Hc Hm).
Defined.

(** The debug request of Gemini puts the text first, unlike its solve
    request. *)
Example gemini_debug_request_order :
  option_map
    (fun c =>
       match c with
       | gemini_call req =>
         map (fun content => map Gemini.is_image (Gemini.parts content))
             (Gemini.contents (Gemini.body_of req))
       | _ => []
       end)
    (awaited (processScreenshots (now (Samples.solved Config.gemini))))
  = Some [[false; true; true]].
Proof. vm_compute. reflexivity. Qed.

Lemma at_most_one_live_client_witness :
  stored_config (now (Samples.solved Config.gemini))
  = Return (Samples.config_of Config.gemini) /\
  truthy (Config.apiKey (Samples.config_of Config.gemini)) = true /\
  live_clients
    (clients (initializeAIClient (now (Samples.solved Config.gemini)))) <= 1 /\
  openaiClient
    (clients (initializeAIClient (now (Samples.solved Config.gemini)))) = None /\
  anthropicClient
    (clients (initializeAIClient (now (Samples.solved Config.gemini)))) = None /\
  geminiApiKey
    (clients (initializeAIClient (now (Samples.solved Config.gemini))))
  = Some (Config.apiKey (Samples.config_of Config.gemini)).
Proof.
  assert (stored_config (now (Samples.solved Config.gemini))
          = Return (Samples.config_of Config.gemini)) as Hc
    by (vm_compute; reflexivity).
  assert (truthy (Config.apiKey (Samples.config_of Config.gemini)) = true)
    as Hk by (vm_compute; reflexivity).
  pose proof (at_most_one_live_client (now (Samples.solved Config.gemini)))
    as [H1 H2].
  specialize (H2 (Samples.config_of Config.gemini) Hc).
  cbn [Config.apiProvider Samples.config_of] in H2.
  destruct H2 as (Ho & Ha & Hg).
  split; [exact Hc|]. split; [exact Hk|]. split; [exact H1|].
  split; [exact Ho|]. split; [exact Ha|]. exact (Hg Hk).
Defined.

Lemma user_abort_is_reported_on_the_error_channel_witness :
  view (deps (now (Samples.idle Config.gemini))) = queue /\
  is_cancel Samples.canceled = true /\
  reject (processScreenshots (now (Samples.idle Config.gemini)))
    Samples.canceled (now (Samples.idle Config.gemini))
  = Some
      (Done tt
         (clear_processing_controller
            (set_view queue
               (with_sent
                  (sent (now (Samples.idle Config.gemini)) ++
                   [Send INITIAL_SOLUTION_ERROR
                      (error_text
                         (lit "Processing was canceled by the user."))])
                  (now (Samples.idle Config.gemini)))))).
Proof.
  assert (view (deps (now (Samples.idle Config.gemini))) = queue) as Hv
    by (vm_compute; reflexivity).
  assert (is_cancel Samples.canceled = true) as He by reflexivity.
  split; [exact Hv|]. split; [exact He|].
  destruct (reject (processScreenshots (now (Samples.idle Config.gemini)))
              Samples.canceled (now (Samples.idle Config.gemini)))
    as [x|] eqn:E.
  - f_equal.
    exact (proj1 user_abort_is_reported_on_the_error_channel
             (now (Samples.idle Config.gemini)) Samples.canceled
             (now (Samples.idle Config.gemini)) x Hv He E).
  - vm_compute in E. discriminate E.
Defined.

Lemma runs_replace_the_stored_controller_witness :
  awaited (processScreenshots (now (Samples.idle Config.gemini))) <> None /\
  awaits_in (installs_fresh_controller (now (Samples.idle Config.gemini)))
    (fun req =>
       Gemini.signal req
       = next_controller (controllers (now (Samples.idle Config.gemini))))
    (processScreenshots (now (Samples.idle Config.gemini))).
Proof.
  split.
  - vm_compute. discriminate.
  - exact (proj1 runs_replace_the_stored_controller
             (now (Samples.idle Config.gemini))).
Defined.

Lemma blank_reply_is_a_failure_witness :
  trim (lit "
  ") = [] /\
  formatDirectResponse (lit "
  ") (lit "python") = Throw (Error blank_message) /\
  view (deps (now (Samples.idle Config.gemini))) = queue /\
  reply_fullText (gemini_reply Samples.truncated_reply) = Return (lit "") /\
  resume (processScreenshots (now (Samples.idle Config.gemini)))
    (gemini_reply Samples.truncated_reply) (now (Samples.idle Config.gemini))
  = Some
      (Done tt
         (clear_processing_controller
            (set_view queue
               (with_sent
                  (sent (now (Samples.idle Config.gemini)) ++
                   [Send INITIAL_SOLUTION_ERROR (error_text blank_message)])
                  (now (Samples.idle Config.gemini)))))).
Proof.
  destruct blank_reply_is_a_failure as (H1 & _ & H3).
  assert (trim (lit "
  ") = []) as Ht by (vm_compute; reflexivity).
  assert (view (deps (now (Samples.idle Config.gemini))) = queue) as Hv
    by (vm_compute; reflexivity).
  assert (reply_fullText (gemini_reply Samples.truncated_reply)
          = Return (lit "")) as Hr by (vm_compute; reflexivity).
  assert (trim (lit "") = []) as Hb by reflexivity.
  split; [exact Ht|]. split; [exact (H1 _ _ Ht)|].
  split; [exact Hv|]. split; [exact Hr|].
  destruct (resume (processScreenshots (now (Samples.idle Config.gemini)))
              (gemini_reply Samples.truncated_reply)
              (now (Samples.idle Config.gemini))) as [x|] eqn:E.
  - f_equal.
    exact (H3 (now (Samples.idle Config.gemini))
              (gemini_reply Samples.truncated_reply) (lit "")
              (now (Samples.idle Config.gemini)) x Hv Hr Hb E).
  - vm_compute in E. discriminate E.
Defined.

(** ** Runs after their call *)

Lemma getLanguage_same st st0 :
  stored_config st0 = stored_config st -> deps st0 = deps st ->
  getLanguage st0 = getLanguage st.
Proof. unfold getLanguage. now intros -> ->. Qed.

Ltac same_state :=
  unfold clearExtraScreenshotQueue, set_problemInfo, set_hasDebugged, set_view,
    clear_processing_controller, clear_extra_controller,
    with_sent, with_deps, with_screenshotHelper, with_controllers;
  run_state; rewrite <- ?app_assoc; cbn [app]; reflexivity.

(** How the solve helper goes on after its call. *)
Lemma helper_continue screenshots signal st s st' x :
  continue (processScreenshotsHelper screenshots signal st) s st' = Some x ->
  exists config,
    stored_config st = Return config /\
    x = match classified s (getLanguage st) with
        | Return (resp, info) =>
          Done (success resp)
            (clearExtraScreenshotQueue
               (match mainWindow (deps st) with
                | Some _ =>
                  with_sent
                    (sent st' ++
                     [Send PROBLEM_EXTRACTED (problem_payload info);
                      Send processing_status
                        (status_payload
                           (providerLabel (Config.apiProvider config)
                            ++ lit " 已完成分析并生成答案") 100)])
                    (set_problemInfo (Some info) st')
                | None => set_problemInfo (Some info) st'
                end))
        | Throw e => Done (solve_catch (Some (Config.apiProvider config)) e) st'
        end.
Proof.
  unfold processScreenshotsHelper, try_catch, loadConfig.
  cbv beta zeta. unfold bind at 1. cbv beta.
  destruct (stored_config st) as [config|e0] eqn:Ec; run_proc.
  2:{ destruct s; cbn; discriminate. }
  intros H. exists config. split; [reflexivity|]. revert H.
  unfold solve_fullText, classified.
  destruct (Config.apiProvider config) eqn:Ep; run_proc.
  - destruct (openaiClient (clients _)); run_proc;
      [|destruct s; cbn; discriminate].
    destruct s as [[r|r|r]|e]; cbn [continue resume reject fullText_of reply_fullText];
      try discriminate; intros [= <-]; run_proc.
    + destruct (formatDirectResponse _ _) as [[resp info]|e]; run_proc.
      * destruct (mainWindow (deps st)); run_proc; same_state.
      * reflexivity.
    + reflexivity.
  - destruct (geminiApiKey (clients st)) as [key|];
      [destruct (truthy key)|]; run_proc;
      try (destruct s; cbn; discriminate).
    destruct s as [[r|r|r]|e]; cbn [continue resume reject fullText_of reply_fullText];
      try discriminate; intros [= <-]; run_proc.
    + destruct (Gemini.extract r) as [t|e]; run_proc; [|reflexivity].
      destruct (formatDirectResponse _ _) as [[resp info]|e]; run_proc.
      * destruct (mainWindow (deps st)); run_proc; same_state.
      * reflexivity.
    + reflexivity.
  - destruct (anthropicClient (clients _)); run_proc;
      [|destruct s; cbn; discriminate].
    destruct s as [[r|r|r]|e]; cbn [continue resume reject fullText_of reply_fullText];
      try discriminate; intros [= <-]; run_proc.
    + destruct (formatDirectResponse _ _) as [[resp info]|e]; run_proc.
      * destruct (mainWindow (deps st)); run_proc; same_state.
      * reflexivity.
    + reflexivity.
Qed.

Lemma solve_catch_failure provider e :
  exists error, solve_catch provider e = failure error.
Proof.
  unfold solve_catch.
  destruct (is_cancel e); [eauto|].
  destruct provider as [[]|].
  - destruct (status_is _ 401); [eauto|].
    destruct (status_is _ 429); [eauto|].
    destruct (status_is _ 500); eauto.
  - destruct (response_detail e) as [d|]; [destruct (truthy d)|]; eauto.
  - destruct (status_is _ 429); [eauto|].
    destruct (_ || _); eauto.
  - eauto.
Qed.


Lemma solve_pipeline_continue st s st' y :
  continue (solve_pipeline st) s st' = Some y ->
  exists config st'',
    stored_config st = Return config /\
    y = Done tt st'' /\
    stored_config st'' = stored_config st' /\
    clients st'' = clients st' /\
    controllers st'' = controllers (clear_processing_controller st') /\
    match classified s (getLanguage st) with
    | Return (resp, info) =>
      sent st'' =
      sent st'
      ++ match mainWindow (deps st) with
         | Some _ =>
           [Send PROBLEM_EXTRACTED (problem_payload info);
            Send processing_status
              (status_payload
                 (providerLabel (Config.apiProvider config)
                  ++ lit " 已完成分析并生成答案") 100)]
         | None => []
         end
      ++ [Send SOLUTION_SUCCESS (solution_payload resp)] /\
      deps st'' = deps (set_view solutions (set_problemInfo (Some info) st')) /\
      screenshotHelper st'' = screenshotHelper (clearExtraScreenshotQueue st')
    | Throw e =>
      exists error,
        solve_catch (Some (Config.apiProvider config)) e = failure error /\
        sent st'' =
        sent st'
        ++ [if names_credentials error then Send API_KEY_INVALID no_payload
            else Send INITIAL_SOLUTION_ERROR (error_text error)] /\
        deps st'' = deps (set_view queue st') /\
        screenshotHelper st'' = screenshotHelper st'
    end.
Proof.
  unfold solve_pipeline. run_proc. run_state.
  destruct (screenshotQueue (screenshotHelper st)) as [|p0 ps] eqn:Eq;
    run_proc; [destruct s; discriminate|].
  destruct (filter _ (p0 :: ps)) as [|q0 qs] eqn:Ef; run_proc;
    [destruct s; discriminate|].
  destruct (load_screenshots _ (q0 :: qs)) as [|v0 vs] eqn:El; run_proc.
  { destruct (is_cancel _); run_proc; destruct s; discriminate. }
  match goal with
  | |- context [processScreenshotsHelper ?a ?b ?c] =>
    pose proof (fun x => @helper_continue a b c s st' x) as Hh;
    assert (getLanguage c = getLanguage st) as Hl
      by (apply getLanguage_same; reflexivity);
    assert (mainWindow (deps c) = mainWindow (deps st)) as Hw by reflexivity;
    assert (stored_config c = stored_config st) as Hc by reflexivity;
    rewrite Hl, Hw, Hc in Hh; clear Hl Hw Hc;
    destruct (processScreenshotsHelper a b c)
      as [res s0|e0 s0|c0 req s0 k|req s0 k|c0 req s0 k]
  end; run_proc.
  1:{ destruct res; [|destruct (names_credentials error)]; run_proc;
      destruct s; discriminate. }
  1:{ destruct (is_cancel e0); run_proc; destruct s; discriminate. }
  all: destruct s as [[r|r|r]|e];
    cbn [continue resume reject] in *; try discriminate;
    intros [= <-]; destruct (Hh _ eq_refl) as (config & Hcfg & ->);
    exists config; clear Hh;
    (destruct (classified _ (getLanguage st)) as [[resp info]|err];
     [ run_proc; eexists; split; [exact Hcfg|]; split; [reflexivity|];
       destruct (mainWindow (deps st)); run_state;
       rewrite <- ?app_assoc; cbn [app]; repeat split; reflexivity
     | destruct (solve_catch_failure (Some (Config.apiProvider config)) err)
         as (error & He); rewrite He; run_proc;
       destruct (names_credentials error) eqn:En; run_proc;
       (eexists; split; [exact Hcfg|]; split; [reflexivity|];
        run_state; repeat split; try reflexivity;
        exists error; rewrite En; repeat split; reflexivity) ]).
Qed.



Lemma debug_helper_continue screenshots signal st s st' x :
  continue (processExtraScreenshotsHelper screenshots signal st) s st' = Some x ->
  exists res st'',
    x = Done res st'' /\
    stored_config st'' = stored_config st' /\
    clients st'' = clients st' /\
    controllers st'' = controllers st' /\
    deps st'' = deps st' /\
    screenshotHelper st'' = screenshotHelper st' /\
    match debug_text s with
    | Some t =>
      res = success (Debug.format t) /\
      sent st'' =
      sent st'
      ++ match mainWindow (deps st) with Some _ => [analysis_complete] | None => [] end
    | None =>
      (exists error, res = failure error) /\
      (sent st'' = sent st' \/ sent st'' = sent st' ++ [analysis_complete])
    end.
Proof.
  unfold processExtraScreenshotsHelper, try_catch, loadConfig.
  cbv beta zeta. unfold bind at 1. cbv beta.
  destruct (stored_config st) as [config|e0]; run_proc;
    [|destruct s; discriminate].
  destruct (problemInfo (deps st)) as [info|]; run_proc;
    [|destruct s; discriminate].
  unfold debug_content, analysis_complete.
  destruct (mainWindow (deps st)) as [w|], (Config.apiProvider config);
    run_proc; run_state.
  all: try (destruct (openaiClient (clients st)); run_proc;
            [|destruct s; discriminate]).
  all: try (destruct (truthy_opt (geminiApiKey (clients st))); run_proc;
            [|destruct s; discriminate]).
  all: try (destruct (anthropicClient (clients st)); run_proc;
            [|destruct s; discriminate]).
  all: destruct s as [[r|r|r]|e];
    cbn [continue resume reject debug_text] in *; try discriminate;
    intros [= <-]; run_proc.
  all: try (destruct (OpenAI.extract_debug r) as [[t|err]|err]; run_proc).
  all: try (destruct (Gemini.extract_debug r) as [t|err]; run_proc).
  all: try (destruct (Anthropic.extract_debug r) as [[t|err]|err]; run_proc).
  all: try (destruct (status_is (status _) 429); run_proc).
  all: try (destruct (status_is (status _) 413 || _); run_proc).
  all: do 2 eexists; (split; [reflexivity|]); run_state;
    do 5 (split; [reflexivity|]).
  all: try (split; [reflexivity|]; rewrite ?app_nil_r; reflexivity).
  all: try (split; [eexists; reflexivity|];
            first [left; reflexivity | right; reflexivity]).
Qed.

Lemma debug_pipeline_continue st s st' y :
  continue (debug_pipeline st) s st' = Some y ->
  exists st'',
    y = Done tt st'' /\
    stored_config st'' = stored_config st' /\
    clients st'' = clients st' /\
    controllers st'' = controllers (clear_extra_controller st') /\
    screenshotHelper st'' = screenshotHelper st' /\
    match debug_text s with
    | Some t =>
      sent st'' =
      sent st'
      ++ match mainWindow (deps st) with Some _ => [analysis_complete] | None => [] end
      ++ [Send DEBUG_SUCCESS (debug_payload (Debug.format t))] /\
      deps st'' = deps (set_hasDebugged true st')
    | None =>
      exists error,
        (sent st'' = sent st' ++ [Send DEBUG_ERROR (error_text error)] \/
         sent st'' =
         sent st' ++ [analysis_complete; Send DEBUG_ERROR (error_text error)]) /\
        deps st'' = deps st'
    end.
Proof.
  unfold debug_pipeline. run_proc. run_state.
  destruct (extraScreenshotQueue (screenshotHelper st)) as [|p0 ps];
    run_proc; [destruct s; discriminate|].
  destruct (filter _ (p0 :: ps)) as [|q0 qs]; run_proc;
    [destruct s; discriminate|].
  run_state.
  destruct (load_screenshots _ _) as [|v0 vs]; run_proc.
  { destruct s; discriminate. }
  match goal with
  | |- context [processExtraScreenshotsHelper ?a ?b ?c] =>
    pose proof (fun x => @debug_helper_continue a b c s st' x) as Hh;
    assert (mainWindow (deps c) = mainWindow (deps st)) as Hw by reflexivity;
    rewrite Hw in Hh; clear Hw;
    destruct (processExtraScreenshotsHelper a b c)
      as [res s0|e0 s0|c0 req s0 k|req s0 k|c0 req s0 k]
  end; run_proc.
  1:{ destruct res; run_proc; destruct s; discriminate. }
  1:{ destruct (is_cancel e0); run_proc; destruct s; discriminate. }
  all: destruct s as [[r|r|r]|e];
    cbn [continue resume reject] in *; try discriminate;
    intros [= <-];
    destruct (Hh _ eq_refl)
      as (res & st1 & -> & H1 & H2 & H3 & H4 & H5 & H6); clear Hh;
    (destruct (debug_text _) as [t|];
     [ destruct H6 as [-> H6]; run_proc; eexists; split; [reflexivity|];
       run_state; rewrite H1, H2, H3, H4, H5, H6, <- ?app_assoc;
       repeat split; reflexivity
     | destruct H6 as [[error ->] H6]; run_proc; eexists;
       split; [reflexivity|]; run_state; rewrite H1, H2, H3, H4, H5;
       repeat (split; [reflexivity|]); exists error;
       split; [|reflexivity];
       destruct H6 as [-> | ->]; rewrite <- ?app_assoc;
       [left | right]; reflexivity ]).
Qed.

(** A run that awaits a call went past the window and the configuration and
    is the pipeline of the view it was called in. *)
Lemma processScreenshots_continue st s st' y :
  continue (processScreenshots st) s st' = Some y ->
  exists w config st_a,
    mainWindow (deps st) = Some w /\
    stored_config st = Return config /\
    stored_config st_a = stored_config st /\
    deps st_a = deps st /\
    continue
      match view (deps st) with
      | queue => solve_pipeline st_a
      | solutions => debug_pipeline st_a
      end s st' = Some y.
Proof.
  destruct (initialize_keeps st) as (Hc & _ & Hd & _).
  unfold processScreenshots. run_proc.
  destruct (mainWindow (deps st)) as [w|] eqn:Ew; run_proc;
    [|destruct s; discriminate].
  destruct (stored_config st) as [config|e] eqn:Ec; run_proc;
    [|destruct s; discriminate].
  unfold ensure_client. run_proc.
  destruct (Config.apiProvider config).
  - destruct (openaiClient (clients st)); run_proc.
    + intros H. exists w, config, st. repeat split; auto.
      destruct (view (deps st)); exact H.
    + destruct (openaiClient (clients (initializeAIClient st))); run_proc;
        [|destruct s; discriminate].
      intros H. exists w, config, (initializeAIClient st).
      rewrite Hd in H. repeat split; auto.
      destruct (view (deps st)); exact H.
  - destruct (truthy_opt (geminiApiKey (clients st))); run_proc.
    + intros H. exists w, config, st. repeat split; auto.
      destruct (view (deps st)); exact H.
    + destruct (truthy_opt (geminiApiKey (clients (initializeAIClient st))));
        run_proc; [|destruct s; discriminate].
      intros H. exists w, config, (initializeAIClient st).
      rewrite Hd in H. repeat split; auto.
      destruct (view (deps st)); exact H.
  - destruct (anthropicClient (clients st)); run_proc.
    + intros H. exists w, config, st. repeat split; auto.
      destruct (view (deps st)); exact H.
    + destruct (anthropicClient (clients (initializeAIClient st))); run_proc;
        [|destruct s; discriminate].
      intros H. exists w, config, (initializeAIClient st).
      rewrite Hd in H. repeat split; auto.
      destruct (view (deps st)); exact H.
Qed.

Lemma catch_ret_not_thrown {A} (x : step A) (h : js_error -> A) e st :
  catch_step x (fun error => ret (h error)) <> Thrown e st.
Proof. destruct x; cbn; discriminate. Qed.

Lemma helper_not_thrown screenshots signal st e st1 :
  processScreenshotsHelper screenshots signal st <> Thrown e st1.
Proof.
  unfold processScreenshotsHelper, try_catch. cbv beta zeta.
  apply catch_ret_not_thrown with (h := solve_catch _).
Qed.

Lemma debug_helper_not_thrown screenshots signal st e st1 :
  processExtraScreenshotsHelper screenshots signal st <> Thrown e st1.
Proof.
  unfold processExtraScreenshotsHelper, try_catch. cbv beta zeta.
  apply catch_ret_not_thrown
    with (h := fun error =>
                 failure (or_else (message error)
                            (lit "Failed to process debug request"))).
Qed.

Lemma solve_pipeline_not_thrown st e st1 : solve_pipeline st <> Thrown e st1.
Proof.
  unfold solve_pipeline. run_proc. run_state.
  destruct (screenshotQueue (screenshotHelper st)) as [|p0 ps];
    run_proc; [discriminate|].
  destruct (filter _ (p0 :: ps)) as [|q0 qs]; run_proc; [discriminate|].
  destruct (load_screenshots _ (q0 :: qs)) as [|v0 vs]; run_proc.
  { destruct (is_cancel _); run_proc; discriminate. }
  match goal with
  | |- context [processScreenshotsHelper ?a ?b ?c] =>
    pose proof (@helper_not_thrown a b c) as Hn;
    destruct (processScreenshotsHelper a b c)
      as [res s0|e0 s0|c0 req s0 k|req s0 k|c0 req s0 k]
  end; run_proc; try discriminate.
  - destruct res; [|destruct (names_credentials error)]; run_proc; discriminate.
  - now destruct (Hn e0 s0).
Qed.

Lemma debug_pipeline_not_thrown st e st1 : debug_pipeline st <> Thrown e st1.
Proof.
  unfold debug_pipeline. run_proc. run_state.
  destruct (extraScreenshotQueue (screenshotHelper st)) as [|p0 ps];
    run_proc; [discriminate|].
  destruct (filter _ (p0 :: ps)) as [|q0 qs]; run_proc; [discriminate|].
  run_state.
  destruct (load_screenshots _ _) as [|v0 vs]; run_proc; [discriminate|].
  match goal with
  | |- context [processExtraScreenshotsHelper ?a ?b ?c] =>
    pose proof (@debug_helper_not_thrown a b c) as Hn;
    destruct (processExtraScreenshotsHelper a b c)
      as [res s0|e0 s0|c0 req s0 k|req s0 k|c0 req s0 k]
  end; run_proc; try discriminate.
  - destruct res; run_proc; discriminate.
  - now destruct (Hn e0 s0).
Qed.

(** X1: with a window that stays alive, [processScreenshots] does not
    reject once the configuration loads: before its provider call it
    returns, and after the call, however the call is settled, it returns
    without a second call when the settlement finds the window alive.  (On
    a destroyed window [webContents.send] throws, in the [catch] clauses as
    well, and the promise rejects; the statement leaves that case out.) *)
Theorem processScreenshots_never_rejects st config :
  stored_config st = Return config ->
  (forall w, mainWindow (deps st) = Some w -> isDestroyed w = false) ->
  (forall e st1, processScreenshots st <> Thrown e st1) /\
  forall s st' y,
    alive st' ->
    continue (processScreenshots st) s st' = Some y ->
    exists st'', y = Done tt st''.
Proof.
  intros Hc _. split.
  - intros e st1.
    unfold processScreenshots. run_proc.
    destruct (mainWindow (deps st)); run_proc; [|discriminate].
    rewrite Hc. run_proc. unfold ensure_client. run_proc.
    destruct (Config.apiProvider config).
    + destruct (openaiClient (clients st)); run_proc.
      * destruct (view (deps st));
          [apply solve_pipeline_not_thrown | apply debug_pipeline_not_thrown].
      * destruct (openaiClient (clients (initializeAIClient st))); run_proc;
          [|discriminate].
        destruct (view (deps (initializeAIClient st)));
          [apply solve_pipeline_not_thrown | apply debug_pipeline_not_thrown].
    + destruct (truthy_opt (geminiApiKey (clients st))); run_proc.
      * destruct (view (deps st));
          [apply solve_pipeline_not_thrown | apply debug_pipeline_not_thrown].
      * destruct (truthy_opt (geminiApiKey (clients (initializeAIClient st))));
          run_proc; [|discriminate].
        destruct (view (deps (initializeAIClient st)));
          [apply solve_pipeline_not_thrown | apply debug_pipeline_not_thrown].
    + destruct (anthropicClient (clients st)); run_proc.
      * destruct (view (deps st));
          [apply solve_pipeline_not_thrown | apply debug_pipeline_not_thrown].
      * destruct (anthropicClient (clients (initializeAIClient st))); run_proc;
          [|discriminate].
        destruct (view (deps (initializeAIClient st)));
          [apply solve_pipeline_not_thrown | apply debug_pipeline_not_thrown].
  - intros s st' y _ H.
    destruct (processScreenshots_continue _ _ _ H)
      as (w & c & st_a & _ & _ & _ & _ & H').
    destruct (view (deps st)).
    + destruct (solve_pipeline_continue _ _ _ H') as (c' & st'' & _ & -> & _).
      now exists st''.
    + destruct (debug_pipeline_continue _ _ _ H') as (st'' & -> & _).
      now exists st''.
Qed.

Lemma strip_prefix_app_l n : forall a b r,
  strip_prefix n a = Some r -> strip_prefix n (a ++ b) = Some (r ++ b).
Proof.
  induction n as [|x n IH]; intros a b r; cbn.
  - now intros [= ->].
  - destruct a as [|y a]; [discriminate|]. cbn.
    destruct (x =? y)%N; [apply IH | discriminate].
Qed.

Lemma includes_app_l n a b : includes a n = true -> includes (a ++ b) n = true.
Proof.
  induction a as [|y a IH]; cbn.
  - destruct (strip_prefix n []) as [r|] eqn:E; [|discriminate].
    intros _. destruct n; [|discriminate].
    destruct b; reflexivity.
  - destruct (strip_prefix n (y :: a)) as [r|] eqn:E.
    + intros _.
      change (y :: a ++ b) with ((y :: a) ++ b).
      now rewrite (strip_prefix_app_l _ _ b E).
    + intros H. destruct (strip_prefix n (y :: a ++ b)); [reflexivity|].
      now apply IH.
Qed.

Lemma gemini_extract_error r e :
  Gemini.extract r = Throw e ->
  exists m, e = Error m /\ m <> [] /\ includes m (lit "Gemini") = true.
Proof.
  unfold Gemini.extract.
  set (block := if truthy_opt (Gemini.blockReason r)
                then match Gemini.blockReason r with Some b => b | None => [] end
                else lit "no-candidates").
  assert (exists m, Error (lit "Empty response from Gemini API (" ++ block ++ lit ")")
                    = Error m /\ m <> [] /\ includes m (lit "Gemini") = true)
    as Hb.
  { eexists. split; [reflexivity|]. split.
    - intros H. apply app_eq_nil in H as [H _]. vm_compute in H. discriminate H.
    - apply includes_app_l. vm_compute. reflexivity. }
  destruct (Gemini.candidates r) as [[|first others]|]; cbv zeta.
  - intros [= <-]. exact Hb.
  - destruct (_ && _); [|discriminate]. intros [= <-].
    eexists. split; [reflexivity|]. split; vm_compute; [discriminate|reflexivity].
  - intros [= <-]. exact Hb.
Qed.

(** X2: a run that reached its provider call ends by setting the controller
    field of its pipeline to null, whatever the field holds by then (its own
    controller or that of a later run); the other field, the controllers
    aborted so far, the clients and the configuration are as they were when
    the call was settled. *)
Theorem finished_run_clears_its_controller st s st' y :
  continue (processScreenshots st) s st' = Some y ->
  exists st'',
    y = Done tt st'' /\
    controllers st'' =
    controllers
      match view (deps st) with
      | queue => clear_processing_controller st'
      | solutions => clear_extra_controller st'
      end /\
    clients st'' = clients st' /\
    stored_config st'' = stored_config st'.
Proof.
  intros H.
  destruct (processScreenshots_continue _ _ _ H)
    as (w & c & st_a & _ & _ & _ & _ & H').
  destruct (view (deps st)).
  - destruct (solve_pipeline_continue _ _ _ H')
      as (c' & st'' & _ & -> & H1 & H2 & H3 & _).
    exists st''. auto.
  - destruct (debug_pipeline_continue _ _ _ H')
      as (st'' & -> & H1 & H2 & H3 & _).
    exists st''. auto.
Qed.

(** X3: when the reply of a solve run is classified, the run sends
    PROBLEM_EXTRACTED with the problem info, the status "... 已完成分析并生成答案"
    and SOLUTION_SUCCESS with the answer, in this order and nothing else;
    it stores the problem info, switches to the solutions view, empties the
    extra screenshot queue and leaves the main queue as it is. *)
Theorem solve_success_opens_the_solutions_view
    st config r fullText resp info st' y :
  view (deps st) = queue ->
  stored_config st = Return config ->
  reply_fullText r = Return fullText ->
  formatDirectResponse fullText (getLanguage st) = Return (resp, info) ->
  resume (processScreenshots st) r st' = Some y ->
  exists st'',
    y = Done tt st'' /\
    sent st'' =
    sent st'
    ++ [Send PROBLEM_EXTRACTED (problem_payload info);
        Send processing_status
          (status_payload
             (providerLabel (Config.apiProvider config)
              ++ lit " 已完成分析并生成答案") 100);
        Send SOLUTION_SUCCESS (solution_payload resp)] /\
    view (deps st'') = solutions /\
    problemInfo (deps st'') = Some info /\
    hasDebugged (deps st'') = hasDebugged (deps st') /\
    extraScreenshotQueue (screenshotHelper st'') = [] /\
    screenshotQueue (screenshotHelper st'')
    = screenshotQueue (screenshotHelper st').
Proof.
  intros Hv Hc Hr Hf H.
  destruct (processScreenshots_continue st (replied r) st' H)
    as (w & c & st_a & Hw & Hc' & Hca & Hda & H').
  rewrite Hv in H'.
  destruct (solve_pipeline_continue _ _ _ H')
    as (c' & st'' & Hc'' & -> & _ & _ & _ & Hm).
  rewrite Hca, Hc in Hc''. injection Hc'' as <-.
  rewrite (getLanguage_same _ _ Hca Hda) in Hm.
  unfold classified in Hm. cbn [fullText_of] in Hm. rewrite Hr, Hf in Hm.
  rewrite Hda, Hw in Hm. destruct Hm as (Hs & Hd & Hh).
  exists st''. split; [reflexivity|]. rewrite Hs, Hd, Hh.
  repeat split; reflexivity.
Qed.

(** X4: when the call of a solve run is rejected, or no text can be taken
    from the reply, or the text is not classified, the run sends one event,
    API_KEY_INVALID when the text of the failure holds "API Key", "OpenAI",
    "Gemini" or "Anthropic" and INITIAL_SOLUTION_ERROR with that text
    otherwise; the view is the queue, and the problem info, the debug flag and
    the screenshot queues are untouched. *)
Theorem solve_failure_returns_to_the_queue st config s e st' y :
  view (deps st) = queue ->
  stored_config st = Return config ->
  classified s (getLanguage st) = Throw e ->
  continue (processScreenshots st) s st' = Some y ->
  exists st'' error,
    y = Done tt st'' /\
    solve_catch (Some (Config.apiProvider config)) e = failure error /\
    sent st'' =
    sent st'
    ++ [if names_credentials error then Send API_KEY_INVALID no_payload
        else Send INITIAL_SOLUTION_ERROR (error_text error)] /\
    view (deps st'') = queue /\
    problemInfo (deps st'') = problemInfo (deps st') /\
    hasDebugged (deps st'') = hasDebugged (deps st') /\
    screenshotHelper st'' = screenshotHelper st'.
Proof.
  intros Hv Hc He H.
  destruct (processScreenshots_continue st s st' H)
    as (w & c & st_a & Hw & Hc' & Hca & Hda & H').
  rewrite Hv in H'.
  destruct (solve_pipeline_continue _ _ _ H')
    as (c' & st'' & Hc'' & -> & _ & _ & _ & Hm).
  rewrite Hca, Hc in Hc''. injection Hc'' as <-.
  rewrite (getLanguage_same _ _ Hca Hda), He in Hm.
  destruct Hm as (error & H1 & H2 & H3 & H4).
  exists st'', error. rewrite H2, H3, H4. repeat split; auto.
Qed.

(** X7: a debug run that reached its provider call ends in one of two ways.
    With a reply that holds a text, it sends the status "Debug analysis
    complete" and DEBUG_SUCCESS with the formatted response and sets the
    debug flag; otherwise it sends DEBUG_ERROR with a text, after that status
    or without it, and leaves the flag.  The view, the problem info and both
    screenshot queues are untouched either way. *)
Theorem debug_run_outcome st s st' y :
  view (deps st) = solutions ->
  continue (processScreenshots st) s st' = Some y ->
  exists st'',
    y = Done tt st'' /\
    view (deps st'') = view (deps st') /\
    problemInfo (deps st'') = problemInfo (deps st') /\
    screenshotHelper st'' = screenshotHelper st' /\
    match debug_text s with
    | Some t =>
      sent st'' =
      sent st'
      ++ [Send processing_status
            (status_payload (lit "Debug analysis complete") 100);
          Send DEBUG_SUCCESS (debug_payload (Debug.format t))] /\
      hasDebugged (deps st'') = true
    | None =>
      exists error,
        (sent st'' = sent st' ++ [Send DEBUG_ERROR (error_text error)] \/
         sent st'' =
         sent st'
         ++ [Send processing_status
               (status_payload (lit "Debug analysis complete") 100);
             Send DEBUG_ERROR (error_text error)]) /\
        hasDebugged (deps st'') = hasDebugged (deps st')
    end.
Proof.
  intros Hv H.
  destruct (processScreenshots_continue st s st' H)
    as (w & c & st_a & Hw & Hc' & Hca & Hda & H').
  rewrite Hv in H'.
  destruct (debug_pipeline_continue _ _ _ H')
    as (st'' & -> & _ & _ & _ & Hh & Hm).
  exists st''. split; [reflexivity|].
  rewrite Hda, Hw in Hm.
  destruct (debug_text s) as [t|].
  - destruct Hm as [Hs Hd]. rewrite Hs, Hd, Hh. repeat split; reflexivity.
  - destruct Hm as (error & Hs & Hd). rewrite Hd, Hh.
    repeat split; try reflexivity. exists error. split; [exact Hs|reflexivity].
Qed.

Lemma openai_status_text e :
  is_cancel e = false ->
  (response_status e = Some 401%N \/ response_status e = Some 429%N \/
   response_status e = Some 500%N) ->
  exists error,
    solve_catch (Some Config.openai) e = failure error /\
    names_credentials error = true.
Proof.
  intros Hc H. unfold solve_catch. rewrite Hc.
  destruct H as [-> | [-> | ->]]; cbn [status_is N.eqb Pos.eqb];
    eexists; (split; [reflexivity|]); vm_compute; reflexivity.
Qed.

(** X5: with OpenAI, a rejection whose [error.response.status] is 401, 429
    or 500 ends the solve run with API_KEY_INVALID alone: the three messages
    of the [catch] clause hold the word "OpenAI", so none of them reaches the
    renderer as an error text. *)
Theorem openai_http_errors_ask_for_the_key st config e st' y :
  view (deps st) = queue ->
  stored_config st = Return config ->
  Config.apiProvider config = Config.openai ->
  is_cancel e = false ->
  (response_status e = Some 401%N \/ response_status e = Some 429%N \/
   response_status e = Some 500%N) ->
  reject (processScreenshots st) e st' = Some y ->
  exists st'',
    y = Done tt st'' /\
    sent st'' = sent st' ++ [Send API_KEY_INVALID no_payload] /\
    view (deps st'') = queue.
Proof.
  intros Hv Hc Hp Hn Hs H.
  destruct (processScreenshots_continue st (rejected e) st' H)
    as (w & c & st_a & Hw & Hc' & Hca & Hda & H').
  rewrite Hv in H'.
  destruct (solve_pipeline_continue _ _ _ H')
    as (c' & st'' & Hc'' & -> & _ & _ & _ & Hm).
  rewrite Hca, Hc in Hc''. injection Hc'' as <-.
  cbn in Hm. destruct Hm as (error & H1 & H2 & H3 & _).
  rewrite Hp in H1.
  destruct (openai_status_text e Hn Hs) as (error' & H1' & Hk).
  rewrite H1' in H1. injection H1 as ->. rewrite Hk in H2.
  exists st''. rewrite H2, H3. repeat split; reflexivity.
Qed.

(** X6: with Gemini, a reply from which the solve helper takes no text (no
    candidate, or a first candidate without text that did not stop at the
    token limit) ends the run with API_KEY_INVALID alone: the error messages
    of the extraction hold the word "Gemini". *)
Theorem gemini_extraction_errors_ask_for_the_key st config r e st' y :
  view (deps st) = queue ->
  stored_config st = Return config ->
  Config.apiProvider config = Config.gemini ->
  Gemini.extract r = Throw e ->
  resume (processScreenshots st) (gemini_reply r) st' = Some y ->
  exists st'',
    y = Done tt st'' /\
    sent st'' = sent st' ++ [Send API_KEY_INVALID no_payload] /\
    view (deps st'') = queue.
Proof.
  intros Hv Hc Hp He H.
  destruct (processScreenshots_continue st (replied (gemini_reply r)) st' H)
    as (w & c & st_a & Hw & Hc' & Hca & Hda & H').
  rewrite Hv in H'.
  destruct (solve_pipeline_continue _ _ _ H')
    as (c' & st'' & Hc'' & -> & _ & _ & _ & Hm).
  rewrite Hca, Hc in Hc''. injection Hc'' as <-.
  unfold classified in Hm. cbn [fullText_of reply_fullText] in Hm.
  rewrite He in Hm. destruct Hm as (error & H1 & H2 & H3 & _).
  rewrite Hp in H1.
  destruct (gemini_extract_error _ He) as (m & -> & Hm & Hi).
  assert (error = m) as ->.
  { revert H1. unfold solve_catch. cbn [is_cancel Error response_detail message].
    unfold or_else. destruct m; [contradiction|]. cbn [truthy].
    now intros [= <-]. }
  assert (names_credentials m = true) as Hk.
  { unfold names_credentials. rewrite Hi.
    now rewrite !orb_true_r. }
  rewrite Hk in H2.
  exists st''. rewrite H2, H3. repeat split; reflexivity.
Qed.


Lemma ensure_client_ready config st :
  client_missing config (clients st) = false ->
  ensure_client config st = Done true st.
Proof.
  unfold client_missing, ensure_client. run_proc.
  destruct (Config.apiProvider config).
  - destruct (openaiClient (clients st)); [reflexivity|discriminate].
  - destruct (truthy_opt (geminiApiKey (clients st))); [reflexivity|discriminate].
  - destruct (anthropicClient (clients st)); [reflexivity|discriminate].
Qed.

(** X8: with a window, a configuration without API key and no client for
    the configured provider, [processScreenshots] initializes the clients
    again, finds none, sends API_KEY_INVALID and returns: no other event, no
    controller, no change of the session or the queues. *)
Theorem missing_key_is_reported st w config :
  mainWindow (deps st) = Some w ->
  stored_config st = Return config ->
  truthy (Config.apiKey config) = false ->
  client_missing config (clients st) = true ->
  exists st1,
    processScreenshots st = Done tt st1 /\
    sent st1 = sent st ++ [Send API_KEY_INVALID no_payload] /\
    clients st1 = no_clients /\
    controllers st1 = controllers st /\
    deps st1 = deps st /\
    screenshotHelper st1 = screenshotHelper st.
Proof.
  intros Hw Hc Hk Hm. unfold processScreenshots. run_proc.
  rewrite Hw, Hc. run_proc. unfold ensure_client. run_proc.
  assert (initializeAIClient st = with_clients no_clients st) as Hi.
  { unfold initializeAIClient. rewrite Hc, Hk.
    now destruct (Config.apiProvider config). }
  revert Hm. unfold client_missing.
  destruct (Config.apiProvider config).
  - destruct (openaiClient (clients st)); [discriminate|]. intros _.
    run_proc. rewrite Hi. run_state. cbn. run_proc.
    eexists. split; [reflexivity|]. run_state. repeat split; reflexivity.
  - destruct (truthy_opt (geminiApiKey (clients st))); [discriminate|].
    intros _. run_proc. rewrite Hi. run_state. cbn. run_proc.
    eexists. split; [reflexivity|]. run_state. repeat split; reflexivity.
  - destruct (anthropicClient (clients st)); [discriminate|]. intros _.
    run_proc. rewrite Hi. run_state. cbn. run_proc.
    eexists. split; [reflexivity|]. run_state. repeat split; reflexivity.
Qed.

(** X9: when no queued screenshot of the current view exists on disk (the
    queue is empty or its files are gone), [processScreenshots] returns
    without a call and without creating a controller: in the queue view it
    sends INITIAL_START and NO_SCREENSHOTS, in the solutions view
    NO_SCREENSHOTS alone. *)
Theorem nothing_to_process_is_reported st w config :
  mainWindow (deps st) = Some w ->
  stored_config st = Return config ->
  client_missing config (clients st) = false ->
  filter (existsSync st)
    match view (deps st) with
    | queue => screenshotQueue (screenshotHelper st)
    | solutions => extraScreenshotQueue (screenshotHelper st)
    end = [] ->
  exists st1,
    processScreenshots st = Done tt st1 /\
    sent st1 =
    sent st
    ++ match view (deps st) with
       | queue => [Send INITIAL_START no_payload; Send NO_SCREENSHOTS no_payload]
       | solutions => [Send NO_SCREENSHOTS no_payload]
       end /\
    clients st1 = clients st /\
    controllers st1 = controllers st /\
    deps st1 = deps st /\
    screenshotHelper st1 = screenshotHelper st.
Proof.
  intros Hw Hc Hm Hf. unfold processScreenshots. run_proc.
  rewrite Hw, Hc. run_proc. rewrite (ensure_client_ready _ _ Hm). run_proc.
  destruct (view (deps st)).
  - unfold solve_pipeline. run_proc. run_state.
    destruct (screenshotQueue (screenshotHelper st)) as [|p0 ps]; run_proc.
    + eexists. split; [reflexivity|]. run_state.
      rewrite <- app_assoc. repeat split; reflexivity.
    + unfold existsSync in *. run_state. rewrite Hf. run_proc.
      eexists. split; [reflexivity|]. run_state.
      rewrite <- app_assoc. repeat split; reflexivity.
  - unfold debug_pipeline. run_proc. run_state.
    destruct (extraScreenshotQueue (screenshotHelper st)) as [|p0 ps]; run_proc.
    + eexists. split; [reflexivity|]. run_state. repeat split; reflexivity.
    + rewrite Hf. run_proc.
      eexists. split; [reflexivity|]. run_state. repeat split; reflexivity.
Qed.

Lemma cancel_keeps st :
  let st' := cancelOngoingRequests st in
  cancelOngoingRequests st' = st' /\
  stored_config st' = stored_config st /\
  clients st' = clients st /\
  screenshotHelper st' = screenshotHelper st /\
  mainWindow (deps st') = mainWindow (deps st) /\
  window_language (deps st') = window_language (deps st) /\
  view (deps st') = view (deps st) /\
  problemInfo (deps st') = None /\
  hasDebugged (deps st') = false /\
  sent st' =
  sent st
  ++ match currentProcessingAbortController (controllers st),
           currentExtraProcessingAbortController (controllers st),
           mainWindow (deps st) with
     | None, None, _ => []
     | _, _, Some w =>
       if isDestroyed w then [] else [Send NO_SCREENSHOTS no_payload]
     | _, _, None => []
     end.
Proof.
  unfold cancelOngoingRequests.
  destruct (currentProcessingAbortController (controllers st)) as [c1|] eqn:E1;
    run_state;
    destruct (currentExtraProcessingAbortController (controllers st))
      as [c2|] eqn:E2; run_state;
    destruct (mainWindow (deps st)) as [[[]]|] eqn:Ew; cbn;
    rewrite ?E1, ?E2, ?Ew, ?app_nil_r; cbn; rewrite ?E1, ?E2, ?Ew;
    repeat split; try reflexivity;
    unfold set_problemInfo, set_hasDebugged, with_deps, with_sent; cbn;
    rewrite ?Ew; reflexivity.
Qed.

(** X10: [cancelOngoingRequests] clears the problem info and the debug
    flag whether or not a request was in flight, keeps the view, the clients
    and the queues, and sends NO_SCREENSHOTS exactly when it found a stored
    controller and the window is alive; called a second time it changes
    nothing. *)
Theorem cancel_is_idempotent_and_forgets_the_problem st :
  let st' := cancelOngoingRequests st in
  cancelOngoingRequests st' = st' /\
  problemInfo (deps st') = None /\
  hasDebugged (deps st') = false /\
  view (deps st') = view (deps st) /\
  clients st' = clients st /\
  screenshotHelper st' = screenshotHelper st /\
  sent st' =
  sent st
  ++ match currentProcessingAbortController (controllers st),
           currentExtraProcessingAbortController (controllers st),
           mainWindow (deps st) with
     | None, None, _ => []
     | _, _, Some w =>
       if isDestroyed w then [] else [Send NO_SCREENSHOTS no_payload]
     | _, _, None => []
     end.
Proof.
  destruct (cancel_keeps st) as (H1 & _ & H3 & H4 & _ & _ & H7 & H8 & H9 & H10).
  cbv zeta. auto 10.
Qed.


(** X12: with a configuration that loads, a problem info and a client (for
    Gemini, a key) for the provider, [processExtraScreenshotsHelper] reaches
    the call of that provider, and the request it sends holds the text
    before the images: OpenAI a system message and a user message of a text
    part followed by one data-URL part per screenshot, Gemini one content of
    a text part followed by the inline image parts, Anthropic one message
    of a text block followed by the base64 image blocks. *)
Theorem debug_requests_put_the_text_first screenshots signal st config info :
  stored_config st = Return config ->
  problemInfo (deps st) = Some info ->
  client_missing config (clients st) = false ->
  match Config.apiProvider config,
        processExtraScreenshotsHelper screenshots signal st with
  | Config.openai, AwaitOpenAI _ req _ _ =>
    debug_openai req (map data screenshots)
  | Config.gemini, AwaitGemini req _ _ =>
    debug_gemini req (map data screenshots)
  | Config.anthropic, AwaitAnthropic _ req _ _ =>
    debug_anthropic req (map data screenshots)
  | _, _ => False
  end.
Proof.
  intros Hc Hi Hm. unfold client_missing in Hm.
  destruct (Config.apiProvider config) eqn:Ep;
    unfold processExtraScreenshotsHelper, try_catch, loadConfig;
    cbv beta zeta; unfold bind at 1; cbv beta; rewrite Hc; run_proc;
    rewrite Hi; run_proc; unfold debug_content; rewrite Ep;
    destruct (mainWindow (deps st)) as [w|]; run_proc; run_state.
  all: try (destruct (openaiClient (clients st)); [|discriminate Hm];
            run_proc; do 2 eexists; reflexivity).
  all: try (destruct (truthy_opt (geminiApiKey (clients st)));
            [|discriminate Hm]; run_proc; eexists; reflexivity).
  all: try (destruct (anthropicClient (clients st)); [|discriminate Hm];
            run_proc; eexists; reflexivity).
Qed.

Lemma load_screenshots_app st a b :
  load_screenshots st (a ++ b) = load_screenshots st a ++ load_screenshots st b.
Proof. unfold load_screenshots. apply flat_map_app. Qed.

Lemma load_screenshots_existing st l :
  load_screenshots st (filter (existsSync st) l) = load_screenshots st l.
Proof.
  unfold load_screenshots, existsSync.
  induction l as [|p l IH]; cbn; [reflexivity|].
  destruct (read_file (files (screenshotHelper st)) p) eqn:E; cbn;
    rewrite ?E, IH; reflexivity.
Qed.

Lemma images_flat_openai (l : list str) :
  flat_map
    (fun p =>
       match p with
       | OpenAI.image_url_part url => [url]
       | OpenAI.text_part _ => []
       end)
    (map (fun d => OpenAI.image_url_part (lit "data:image/png;base64," ++ d)) l)
  = map (fun d => lit "data:image/png;base64," ++ d) l.
Proof. induction l; cbn [map flat_map app]; [|rewrite IHl]; reflexivity. Qed.

Lemma images_flat_gemini (l : list str) :
  flat_map
    (fun p =>
       match p with
       | Gemini.inlineData_part _ d => [d]
       | Gemini.text_part _ => []
       end)
    (map (fun d => Gemini.inlineData_part (lit "image/png") d) l)
  = l.
Proof. induction l; cbn [map flat_map app]; [|rewrite IHl]; reflexivity. Qed.

Lemma images_flat_anthropic (l : list str) :
  flat_map
    (fun b =>
       match b with
       | Anthropic.image_block src => [Anthropic.data src]
       | Anthropic.text_block _ => []
       end)
    (map Anthropic.image_of l)
  = l.
Proof. induction l; cbn [map flat_map app]; [|rewrite IHl]; reflexivity. Qed.

Lemma helper_images screenshots signal st c :
  awaited (processScreenshotsHelper screenshots signal st) = Some c ->
  images_of c = map (carried c) (map data screenshots).
Proof.
  unfold processScreenshotsHelper, try_catch, loadConfig.
  cbv beta zeta. unfold bind at 1. cbv beta.
  destruct (stored_config st) as [config|e0]; run_proc; [|discriminate].
  unfold solve_fullText.
  destruct (Config.apiProvider config); run_proc.
  - destruct (openaiClient (clients _)); run_proc; [|discriminate].
    intros [= <-]. cbn [images_of OpenAI.solve_request OpenAI.messages
      OpenAI.solve_messages flat_map OpenAI.content_of app].
    rewrite app_nil_r. apply images_flat_openai.
  - destruct (geminiApiKey (clients st)) as [key|];
      [destruct (truthy key)|]; run_proc; try discriminate.
    intros [= <-]. cbn [images_of Gemini.solve_request Gemini.body_of
      Gemini.solve_body Gemini.contents flat_map Gemini.parts app].
    rewrite app_nil_r, flat_map_app, images_flat_gemini. cbn.
    rewrite app_nil_r. symmetry. apply map_id.
  - destruct (anthropicClient (clients _)); run_proc; [|discriminate].
    intros [= <-]. cbn [images_of Anthropic.solve_request Anthropic.messages
      flat_map Anthropic.content app].
    rewrite app_nil_r, images_flat_anthropic. symmetry. apply map_id.
Qed.

Lemma debug_helper_images screenshots signal st c :
  awaited (processExtraScreenshotsHelper screenshots signal st) = Some c ->
  images_of c = map (carried c) (map data screenshots).
Proof.
  unfold processExtraScreenshotsHelper, try_catch, loadConfig.
  cbv beta zeta. unfold bind at 1. cbv beta.
  destruct (stored_config st) as [config|e0]; run_proc; [|discriminate].
  destruct (problemInfo (deps st)) as [info|]; run_proc; [|discriminate].
  unfold debug_content.
  destruct (mainWindow (deps st)) as [w|], (Config.apiProvider config);
    run_proc; run_state.
  all: try (destruct (openaiClient (clients st)); run_proc; [|discriminate];
            intros [= <-];
            cbn [images_of OpenAI.debug_request OpenAI.messages flat_map
                 OpenAI.content_of app];
            rewrite app_nil_r; apply images_flat_openai).
  all: try (destruct (truthy_opt (geminiApiKey (clients st))); run_proc;
            [|discriminate]; intros [= <-];
            cbn [images_of Gemini.debug_request Gemini.body_of
                 Gemini.contents flat_map Gemini.parts app];
            rewrite app_nil_r, images_flat_gemini; symmetry; apply map_id).
  all: try (destruct (anthropicClient (clients st)); run_proc; [|discriminate];
            intros [= <-];
            cbn [images_of Anthropic.debug_request Anthropic.messages
                 flat_map Anthropic.content app];
            rewrite app_nil_r, images_flat_anthropic; symmetry; apply map_id).
Qed.

Lemma solve_pipeline_images st c :
  awaited (solve_pipeline st) = Some c ->
  images_of c
  = map (carried c)
      (map data (load_screenshots st (screenshotQueue (screenshotHelper st)))).
Proof.
  unfold solve_pipeline. run_proc. run_state.
  destruct (screenshotQueue (screenshotHelper st)) as [|p0 ps] eqn:Eq;
    run_proc; [discriminate|].
  change (existsSync (with_sent _ st)) with (existsSync st).
  change (load_screenshots (with_sent _ st)) with (load_screenshots st).
  rewrite load_screenshots_existing.
  destruct (filter _ (p0 :: ps)) as [|q0 qs] eqn:Ef; run_proc; [discriminate|].
  destruct (load_screenshots st (p0 :: ps)) as [|v0 vs] eqn:El; run_proc.
  { destruct (is_cancel _); run_proc; discriminate. }
  match goal with
  | |- context [processScreenshotsHelper ?a ?b ?c] =>
    pose proof (@helper_images a b c) as Hh;
    destruct (processScreenshotsHelper a b c)
      as [res s0|e0 s0|c0 req s0 k|req s0 k|c0 req s0 k]
  end; run_proc.
  - destruct res; [|destruct (names_credentials error)]; run_proc; discriminate.
  - destruct (is_cancel e0); run_proc; discriminate.
  - intros [= <-]. apply (Hh _ eq_refl).
  - intros [= <-]. apply (Hh _ eq_refl).
  - intros [= <-]. apply (Hh _ eq_refl).
Qed.

Lemma debug_pipeline_images st c :
  awaited (debug_pipeline st) = Some c ->
  images_of c
  = map (carried c)
      (map data
         (load_screenshots st
            (screenshotQueue (screenshotHelper st)
             ++ extraScreenshotQueue (screenshotHelper st)))).
Proof.
  unfold debug_pipeline. run_proc. run_state.
  destruct (extraScreenshotQueue (screenshotHelper st)) as [|p0 ps] eqn:Eq;
    run_proc; [discriminate|].
  destruct (filter _ (p0 :: ps)) as [|q0 qs] eqn:Ef; run_proc; [discriminate|].
  run_state.
  change (load_screenshots (with_sent _ st)) with (load_screenshots st).
  rewrite load_screenshots_app, <- Ef, load_screenshots_existing,
    <- load_screenshots_app.
  destruct (load_screenshots st _) as [|v0 vs] eqn:El; run_proc;
    [discriminate|].
  match goal with
  | |- context [processExtraScreenshotsHelper ?a ?b ?c] =>
    pose proof (@debug_helper_images a b c) as Hh;
    destruct (processExtraScreenshotsHelper a b c)
      as [res s0|e0 s0|c0 req s0 k|req s0 k|c0 req s0 k]
  end; run_proc.
  - destruct res; run_proc; discriminate.
  - destruct (is_cancel e0); run_proc; discriminate.
  - intros [= <-]. apply (Hh _ eq_refl).
  - intros [= <-]. apply (Hh _ eq_refl).
  - intros [= <-]. apply (Hh _ eq_refl).
Qed.

Lemma initialize_keeps_shots st :
  screenshotHelper (initializeAIClient st) = screenshotHelper st.
Proof. now destruct (initialize_keeps st) as (_ & _ & _ & H & _). Qed.

(** X13: the call that [processScreenshots] makes carries the screenshots
    of the queue that can be read from disk, in queue order, and no others:
    the main queue in the queue view, the main queue followed by the extra
    queue in the solutions view; a path without file is skipped. *)
Theorem requests_carry_the_queued_screenshots st c :
  awaited (processScreenshots st) = Some c ->
  images_of c
  = map (carried c)
      (map data
         (load_screenshots st
            match view (deps st) with
            | queue => screenshotQueue (screenshotHelper st)
            | solutions =>
              screenshotQueue (screenshotHelper st)
              ++ extraScreenshotQueue (screenshotHelper st)
            end)).
Proof.
  intros H.
  destruct (processScreenshots_cases st)
    as [(s1 & E & _) | [(e0 & E) | (st_a & Ha & E)]];
    rewrite E in H; try discriminate.
  assert (screenshotHelper st_a = screenshotHelper st) as Hs
    by (destruct Ha as [-> | ->];
        [reflexivity | apply initialize_keeps_shots]).
  assert (forall l, load_screenshots st_a l = load_screenshots st l) as Hl
    by (intros l; unfold load_screenshots; now rewrite Hs).
  destruct (view (deps st)).
  - rewrite (solve_pipeline_images _ H), Hl, Hs. reflexivity.
  - rewrite (debug_pipeline_images _ H), Hl, Hs. reflexivity.
Qed.

Lemma debug_run_without_context st w config :
  mainWindow (deps st) = Some w ->
  stored_config st = Return config ->
  client_missing config (clients st) = false ->
  view (deps st) = solutions ->
  problemInfo (deps st) = None ->
  filter (existsSync st) (extraScreenshotQueue (screenshotHelper st)) <> [] ->
  exists st1,
    processScreenshots st = Done tt st1 /\
    sent st1 =
    sent st
    ++ [Send DEBUG_START no_payload;
        Send DEBUG_ERROR (error_text (lit "No problem info available"))] /\
    deps st1 = deps st /\
    currentExtraProcessingAbortController (controllers st1) = None /\
    aborted (controllers st1) = aborted (controllers st).
Proof.
  intros Hw Hc Hm Hv Hp Hf. unfold processScreenshots. run_proc.
  rewrite Hw, Hc. run_proc. rewrite (ensure_client_ready _ _ Hm). run_proc.
  rewrite Hv. unfold debug_pipeline. run_proc. run_state.
  destruct (extraScreenshotQueue (screenshotHelper st)) as [|p0 ps] eqn:Eq;
    [now destruct Hf|]. run_proc.
  destruct (filter _ (p0 :: ps)) as [|q0 qs] eqn:Ef; [now destruct Hf|].
  run_proc. run_state.
  change (load_screenshots (with_sent _ st)) with (load_screenshots st).
  assert (load_screenshots st (screenshotQueue (screenshotHelper st) ++ q0 :: qs)
          <> []) as Hl.
  { rewrite load_screenshots_app. intros H. apply app_eq_nil in H as [_ H].
    assert (In q0 (filter (existsSync st) (p0 :: ps))) as Hin
      by (rewrite Ef; now left).
    apply filter_In in Hin as [_ Hin]. revert H Hin.
    unfold load_screenshots, existsSync. cbn [flat_map].
    destruct (read_file _ q0); [discriminate|]. discriminate. }
  destruct (load_screenshots st _) as [|v0 vs] eqn:El; [now destruct Hl|].
  run_proc.
  match goal with
  | |- context [processExtraScreenshotsHelper ?a ?b ?c] =>
    destruct (@debug_helper_without_context a b c) as [_ Hh];
      [run_state; exact Hp|];
    rewrite (Hh config) by (run_state; exact Hc)
  end.
  run_proc. eexists. split; [reflexivity|]. run_state.
  rewrite <- app_assoc. repeat split; reflexivity.
Qed.

(** X11: after [cancelOngoingRequests], a process request in the solutions
    view with an extra screenshot on disk makes no provider call: it sends
    DEBUG_START and DEBUG_ERROR "No problem info available", because the
    cancellation has discarded the problem context. *)
Theorem cancel_then_debug_fails_fast st w config :
  mainWindow (deps st) = Some w ->
  stored_config st = Return config ->
  client_missing config (clients st) = false ->
  view (deps st) = solutions ->
  filter (existsSync st) (extraScreenshotQueue (screenshotHelper st)) <> [] ->
  exists st1,
    processScreenshots (cancelOngoingRequests st) = Done tt st1 /\
    sent st1 =
    sent (cancelOngoingRequests st)
    ++ [Send DEBUG_START no_payload;
        Send DEBUG_ERROR (error_text (lit "No problem info available"))] /\
    hasDebugged (deps st1) = false.
Proof.
  intros Hw Hc Hm Hv Hf.
  destruct (cancel_keeps st)
    as (_ & H2 & H3 & H4 & H5 & _ & H7 & H8 & H9 & _).
  cbv zeta in *.
  destruct (@debug_run_without_context (cancelOngoingRequests st) w config)
    as (st1 & E & Hs & Hd & _).
  - now rewrite H5.
  - now rewrite H2.
  - now rewrite H3.
  - now rewrite H7.
  - exact H8.
  - unfold existsSync in *. now rewrite H4.
  - exists st1. rewrite Hd. auto.
Qed.

(** ** An invariant of the client registry *)

Section Respects.
Variable I : state -> Prop.

Lemma respects_bind {A B} (Q : outcome A -> state -> Prop)
    (P : outcome B -> state -> Prop) (x : step A) (f : A -> proc B) :
  respects I Q x ->
  (forall a st, Q (Return a) st -> respects I P (f a st)) ->
  (forall e st, Q (Throw e) st -> P (Throw e) st) ->
  respects I P (bind_step x f).
Proof.
  intros Hx Hf He. induction x as [a st|e st|c r st k IH|r st k IH|c r st k IH];
    cbn in *; auto.
  all: destruct Hx as [Hs Hk]; split; auto.
Qed.

Lemma respects_catch {A} (Q P : outcome A -> state -> Prop)
    (x : step A) (h : js_error -> proc A) :
  respects I Q x ->
  (forall a st, Q (Return a) st -> P (Return a) st) ->
  (forall e st, Q (Throw e) st -> respects I P (h e st)) ->
  respects I P (catch_step x h).
Proof.
  intros Hx Hf He. induction x as [a st|e st|c r st k IH|r st k IH|c r st k IH];
    cbn in *; auto.
  all: destruct Hx as [Hs Hk]; split; auto.
Qed.

Lemma respects_finally {A} (Q P : outcome A -> state -> Prop)
    (x : step A) (f : state -> state) :
  respects I Q x ->
  (forall o st, Q o st -> P o (f st)) ->
  respects I P (finally_step x f).
Proof.
  intros Hx Hf. induction x as [a st|e st|c r st k IH|r st k IH|c r st k IH];
    cbn in *; auto.
  all: destruct Hx as [Hs Hk]; split; auto.
Qed.

Lemma respects_weaken {A} (Q P : outcome A -> state -> Prop) (x : step A) :
  respects I Q x -> (forall o st, Q o st -> P o st) -> respects I P x.
Proof.
  intros Hx Hf. induction x as [a st|e st|c r st k IH|r st k IH|c r st k IH];
    cbn in *; auto.
  all: destruct Hx as [Hs Hk]; split; auto.
Qed.

End Respects.


Lemma stops_in_bind {A B} P (x : step A) (f : A -> proc B) :
  stops_in P x ->
  (forall a st, P st -> stops_in P (f a st)) ->
  stops_in P (bind_step x f).
Proof. destruct x; cbn; auto. Qed.

Lemma stops_in_catch {A} P (x : step A) h :
  stops_in P x ->
  (forall e st, P st -> stops_in P (h e st)) ->
  stops_in P (catch_step x h).
Proof. destruct x; cbn; auto. Qed.

Lemma stops_in_finally {A} (P : state -> Prop) (x : step A) f :
  stops_in P x -> (forall st, P st -> P (f st)) ->
  stops_in P (finally_step x f).
Proof. destruct x; cbn; auto. Qed.

Lemma respects_intro {A} (I : state -> Prop) (P : outcome A -> state -> Prop)
    (x : step A) :
  stops_in I x ->
  (forall a st, x = Done a st -> P (Return a) st) ->
  (forall e st, x = Thrown e st -> P (Throw e) st) ->
  (forall s st' y, I st' -> continue x s st' = Some y -> respects I P y) ->
  respects I P x.
Proof.
  destruct x as [a st|e st|c r st k|r st k|c r st k]; cbn [stops_in respects];
    intros Hs Hd Ht Hc; auto.
  - split; [exact Hs|]. intros [resp|e] st' Hi.
    + exact (Hc (replied (openai_reply resp)) st' _ Hi eq_refl).
    + exact (Hc (rejected e) st' _ Hi eq_refl).
  - split; [exact Hs|]. intros [resp|e] st' Hi.
    + exact (Hc (replied (gemini_reply resp)) st' _ Hi eq_refl).
    + exact (Hc (rejected e) st' _ Hi eq_refl).
  - split; [exact Hs|]. intros [resp|e] st' Hi.
    + exact (Hc (replied (anthropic_reply resp)) st' _ Hi eq_refl).
    + exact (Hc (rejected e) st' _ Hi eq_refl).
Qed.

Section Registry.
Variable J : registry -> Prop.
Hypothesis Jinit : forall st, J (clients (initializeAIClient st)).

Let I (st : state) : Prop := J (clients st).

Lemma helper_stops screenshots signal st :
  I st -> stops_in I (processScreenshotsHelper screenshots signal st).
Proof.
  intros Hi. unfold processScreenshotsHelper, try_catch, loadConfig.
  cbv beta zeta. unfold bind at 1. cbv beta.
  destruct (stored_config st) as [config|e0]; run_proc; [|exact Hi].
  unfold solve_fullText.
  destruct (Config.apiProvider config); run_proc.
  - destruct (openaiClient (clients st)) eqn:E1; run_proc.
    + rewrite E1. run_proc. exact Hi.
    + destruct (openaiClient (clients (initializeAIClient st))); run_proc;
        apply Jinit.
  - destruct (geminiApiKey (clients st)) as [key|];
      [destruct (truthy key)|]; run_proc; exact Hi.
  - destruct (anthropicClient (clients st)) eqn:E1; run_proc.
    + rewrite E1. run_proc. exact Hi.
    + destruct (anthropicClient (clients (initializeAIClient st))); run_proc;
        apply Jinit.
Qed.

Lemma debug_helper_stops screenshots signal st :
  I st -> stops_in I (processExtraScreenshotsHelper screenshots signal st).
Proof.
  intros Hi. unfold processExtraScreenshotsHelper, try_catch, loadConfig.
  cbv beta zeta. unfold bind at 1. cbv beta.
  destruct (stored_config st) as [config|e0]; run_proc; [|exact Hi].
  destruct (problemInfo (deps st)) as [info|]; run_proc; [|exact Hi].
  unfold debug_content.
  destruct (mainWindow (deps st)) as [w|], (Config.apiProvider config);
    run_proc; run_state.
  all: try (destruct (openaiClient (clients st)); run_proc; exact Hi).
  all: try (destruct (truthy_opt (geminiApiKey (clients st))); run_proc;
            exact Hi).
  all: try (destruct (anthropicClient (clients st)); run_proc; exact Hi).
Qed.

Lemma solve_pipeline_stops st : I st -> stops_in I (solve_pipeline st).
Proof.
  intros Hi. unfold solve_pipeline. run_proc. run_state.
  destruct (screenshotQueue (screenshotHelper st)) as [|p0 ps];
    run_proc; [exact Hi|].
  destruct (filter _ (p0 :: ps)) as [|q0 qs]; run_proc; [exact Hi|].
  destruct (load_screenshots _ (q0 :: qs)) as [|v0 vs]; run_proc.
  - destruct (is_cancel _); run_proc; exact Hi.
  - apply stops_in_finally; [|auto]. apply stops_in_catch.
    + apply stops_in_bind.
      * apply helper_stops. exact Hi.
      * intros [d|error] s Hs; [|destruct (names_credentials error)];
          run_proc; exact Hs.
    + intros e s Hs. destruct (is_cancel e); run_proc; exact Hs.
Qed.

Lemma debug_pipeline_stops st : I st -> stops_in I (debug_pipeline st).
Proof.
  intros Hi. unfold debug_pipeline. run_proc. run_state.
  destruct (extraScreenshotQueue (screenshotHelper st)) as [|p0 ps];
    run_proc; [exact Hi|].
  destruct (filter _ (p0 :: ps)) as [|q0 qs]; run_proc; [exact Hi|].
  run_state.
  destruct (load_screenshots _ _) as [|v0 vs]; run_proc.
  - exact Hi.
  - apply stops_in_finally; [|auto]. apply stops_in_catch.
    + apply stops_in_bind.
      * apply debug_helper_stops. exact Hi.
      * intros [d|error] s Hs; run_proc; exact Hs.
    + intros e s Hs. destruct (is_cancel e); run_proc; exact Hs.
Qed.

Lemma processScreenshots_stops st : I st -> stops_in I (processScreenshots st).
Proof.
  intros Hi.
  assert (forall st_a, st_a = st \/ st_a = initializeAIClient st -> I st_a)
    as Ha by (intros ? [-> | ->]; [exact Hi | apply Jinit]).
  unfold processScreenshots. run_proc.
  destruct (mainWindow (deps st)) as [w|]; run_proc; [|exact Hi].
  destruct (stored_config st) as [config|e]; run_proc; [|exact Hi].
  destruct (initialize_keeps st) as (_ & _ & Hd & _).
  unfold ensure_client. run_proc.
  destruct (Config.apiProvider config).
  - destruct (openaiClient (clients st)); run_proc.
    + destruct (view (deps st));
        [apply solve_pipeline_stops | apply debug_pipeline_stops]; auto.
    + destruct (openaiClient (clients (initializeAIClient st))); run_proc;
        [|apply Jinit].
      destruct (view (deps (initializeAIClient st)));
        [apply solve_pipeline_stops | apply debug_pipeline_stops]; auto.
  - destruct (truthy_opt (geminiApiKey (clients st))); run_proc.
    + destruct (view (deps st));
        [apply solve_pipeline_stops | apply debug_pipeline_stops]; auto.
    + destruct (truthy_opt (geminiApiKey (clients (initializeAIClient st))));
        run_proc; [|apply Jinit].
      destruct (view (deps (initializeAIClient st)));
        [apply solve_pipeline_stops | apply debug_pipeline_stops]; auto.
  - destruct (anthropicClient (clients st)); run_proc.
    + destruct (view (deps st));
        [apply solve_pipeline_stops | apply debug_pipeline_stops]; auto.
    + destruct (anthropicClient (clients (initializeAIClient st))); run_proc;
        [|apply Jinit].
      destruct (view (deps (initializeAIClient st)));
        [apply solve_pipeline_stops | apply debug_pipeline_stops]; auto.
Qed.

Lemma processScreenshots_respects st :
  I st -> respects I (fun _ st => I st) (processScreenshots st).
Proof.
  intros Hi. pose proof (processScreenshots_stops Hi) as Hs.
  apply respects_intro; auto.
  - intros a s E. rewrite E in Hs. exact Hs.
  - intros e s E. rewrite E in Hs. exact Hs.
  - intros s st' y Hi' H.
    destruct (processScreenshots_continue _ _ _ H)
      as (w & c & st_a & _ & _ & _ & _ & H').
    destruct (view (deps st)).
    + destruct (solve_pipeline_continue _ _ _ H')
        as (c' & st'' & _ & -> & _ & Hc & _).
      cbn. unfold I. now rewrite Hc.
    + destruct (debug_pipeline_continue _ _ _ H')
        as (st'' & -> & _ & Hc & _).
      cbn. unfold I. now rewrite Hc.
Qed.

Lemma cancel_clients st : clients (cancelOngoingRequests st) = clients st.
Proof.
  unfold cancelOngoingRequests.
  destruct (currentProcessingAbortController (controllers st)); run_state;
    destruct (currentExtraProcessingAbortController (controllers st));
    run_state; destruct (mainWindow (deps st)) as [[[]]|]; reflexivity.
Qed.

Lemma suspend_respects (x : step unit) others :
  respects I (fun _ st => I st) x ->
  Forall (pending_respects I) others ->
  I (now (suspend x others)) /\
  Forall (pending_respects I) (in_flight (suspend x others)).
Proof.
  intros Hx Ho. destruct x; cbn in *; auto.
  all: destruct Hx as [Hs Hk]; split; [exact Hs|];
    apply Forall_app; split; [exact Ho|]; repeat constructor; exact Hk.
Qed.

Lemma remove_nth_Forall {A} (P : A -> Prop) i l :
  Forall P l -> Forall P (remove_nth i l).
Proof.
  intros H. revert i. induction H as [|x l Hx Hl IH]; intros [|i]; cbn; auto.
Qed.

Lemma perform_respects a sys sys' :
  I (now sys) -> Forall (pending_respects I) (in_flight sys) ->
  perform a sys = Some sys' ->
  I (now sys') /\ Forall (pending_respects I) (in_flight sys').
Proof.
  intros Hi Hp. destruct a; cbn [perform].
  - intros [= <-]. apply suspend_respects; [|exact Hp].
    now apply processScreenshots_respects.
  - intros [= <-]. cbn. unfold I. rewrite cancel_clients. now split.
  - intros [= <-]. cbn. split; [apply Jinit | exact Hp].
  - destruct (nth_error (in_flight sys) i) as [[c r k|r k|c r k]|] eqn:E;
      try discriminate.
    destruct (rejects_as_cancel o); [discriminate|]. intros [= <-].
    apply suspend_respects; [|now apply remove_nth_Forall].
    apply nth_error_In in E.
    rewrite Forall_forall in Hp. exact (Hp _ E o _ Hi).
  - destruct (nth_error (in_flight sys) i) as [[c r k|r k|c r k]|] eqn:E;
      try discriminate.
    destruct (Bool.eqb _ _); [|discriminate]. intros [= <-].
    apply suspend_respects; [|now apply remove_nth_Forall].
    apply nth_error_In in E.
    rewrite Forall_forall in Hp. exact (Hp _ E o _ Hi).
  - destruct (nth_error (in_flight sys) i) as [[c r k|r k|c r k]|] eqn:E;
      try discriminate.
    destruct (rejects_as_cancel o); [discriminate|]. intros [= <-].
    apply suspend_respects; [|now apply remove_nth_Forall].
    apply nth_error_In in E.
    rewrite Forall_forall in Hp. exact (Hp _ E o _ Hi).
Qed.

Lemma run_actions_respects l : forall sys sys',
  I (now sys) -> Forall (pending_respects I) (in_flight sys) ->
  run_actions l sys = Some sys' ->
  I (now sys') /\ Forall (pending_respects I) (in_flight sys').
Proof.
  induction l as [|a l IH]; cbn [run_actions]; intros sys sys' Hi Hp.
  - intros [= <-]. now split.
  - destruct (perform a sys) as [sys1|] eqn:E; [|discriminate].
    destruct (@perform_respects a sys sys1 Hi Hp E) as [Hi1 Hp1].
    now apply IH.
Qed.

End Registry.

Lemma initialize_live st : live_clients (clients (initializeAIClient st)) <= 1.
Proof.
  unfold initializeAIClient.
  destruct (stored_config st) as [config|e];
    [destruct (Config.apiProvider config);
     destruct (truthy (Config.apiKey config))|];
    cbn; lia.
Qed.

(** X14: in every state reached from the constructor by process requests,
    cancellations, configuration updates and settlements of calls, in any
    order, at most one provider family holds a client or a key. *)
Theorem at_most_one_live_client_ever config d h l sys :
  run_actions l {| now := constructed config d h; in_flight := [] |} = Some sys ->
  live_clients (clients (now sys)) <= 1.
Proof.
  intros H.
  refine (proj1 (@run_actions_respects (fun r => live_clients r <= 1)
                   initialize_live l _ _ _ _ H)).
  - apply initialize_live.
  - constructor.
Qed.

(** ** The code of a debug response *)

Section StarBack.
Variable R : Type.
Variable p : char -> bool.
Variable k : cont R.
Hypothesis back : forall j x s c,
  p x = true -> k (S j) s c = None -> k j (x :: s) c = None.

Lemma cont_back : forall s i c,
  k (i + length (takeWhile p s)) (dropWhile p s) c = None -> k i s c = None.
Proof.
  induction s as [|x s IH]; intros i c; simpl.
  - now rewrite Nat.add_0_r.
  - destruct (p x) eqn:Hp; simpl.
    + rewrite Nat.add_succ_r. intros H. apply back; [exact Hp|].
      now apply IH.
    + now rewrite Nat.add_0_r.
Qed.

(** A greedy star whose continuation fails before a class member whenever it
    fails after it gives nothing back either. *)
Lemma star_greedy : forall s i c,
  star p i s c k = k (i + length (takeWhile p s)) (dropWhile p s) c.
Proof.
  induction s as [|x s IH]; intros i c; simpl.
  - now rewrite Nat.add_0_r.
  - destruct (p x) eqn:Hp; simpl.
    + rewrite IH, Nat.add_succ_r. simpl.
      destruct (k _ (dropWhile p s) c) eqn:E; [reflexivity|].
      apply back; [exact Hp|]. apply cont_back. exact E.
    + now rewrite Nat.add_0_r.
Qed.
End StarBack.

Lemma letter_not_backtick x s :
  Debug.letter x = true -> strip_prefix fence (x :: s) = None.
Proof.
  intros H. change fence with [96; 96; 96]%N. cbn [strip_prefix].
  destruct (N.eqb_spec 96 x) as [<-|]; [|reflexivity].
  vm_compute in H. discriminate H.
Qed.

Lemma find_sub_skip s :
  find_sub fence s =
  match find_sub fence (dropWhile Debug.letter s) with
  | Some (b, a) => Some (takeWhile Debug.letter s ++ b, a)
  | None => None
  end.
Proof.
  induction s as [|x s IH]; cbn [dropWhile takeWhile].
  - destruct (find_sub fence []) as [[b a]|]; reflexivity.
  - destruct (Debug.letter x) eqn:Hx.
    + cbn [find_sub]. rewrite (@letter_not_backtick x s Hx), IH.
      destruct (find_sub fence (dropWhile Debug.letter s)) as [[b a]|];
        reflexivity.
    + destruct (find_sub fence (x :: s)) as [[b a]|]; reflexivity.
Qed.

Lemma find_sub_suffix n u v : find_sub n (u ++ v) = None -> find_sub n v = None.
Proof.
  intros H. destruct (find_sub n v) as [[b a]|] eqn:E; [|reflexivity].
  apply find_sub_Some in E as [-> _].
  exfalso. apply (find_sub_None _ (u ++ b) a H). now rewrite app_assoc.
Qed.

Lemma match_at_debug_code i s :
  match_at Debug.codeRegex i s =
  match strip_prefix fence s with
  | Some s1 =>
    match find_sub fence (dropWhile Debug.letter s1) with
    | Some (b, a) =>
      Some (MatchResult i
              (firstn (length fence + length (takeWhile Debug.letter s1)
                       + length b + length fence) s)
              [(1, b)])
    | None => None
    end
  | None => None
  end.
Proof.
  unfold match_at, Debug.codeRegex.
  cbn [run]. rewrite run_Lit.
  destruct (strip_prefix fence s) as [s1|] eqn:E1; [|reflexivity].
  set (kf := fun (j : nat) (_ : str) (c : captures) =>
               Some {| Regex.index := i; matched := firstn (j - i) s;
                       groups := c |}).
  set (k := fun (j : nat) (s' : str) (c : captures) =>
              lazy_star any_char j s' c
                (fun i1 s1' c1 =>
                   run (Lit fence) i1 s1'
                     (set_capture 1 (firstn (i1 - j) s') c1) kf)).
  assert (forall j s' c,
            k j s' c =
            match find_sub fence s' with
            | Some (b, a) =>
              Some (MatchResult i (firstn (j + length b + length fence - i) s)
                      (set_capture 1 b c))
            | None => None
            end) as Hk.
  { intros j s' c. unfold k.
    rewrite (lazy_any_find fence (fun j' _ c' =>
      {| Regex.index := i; matched := firstn (j' - i) s; groups := c' |})).
    destruct (find_sub fence s') as [[b a]|] eqn:F; [|reflexivity].
    apply find_sub_Some in F as [F _]. do 3 f_equal.
    replace (j + length b - j) with (length b) by lia.
    rewrite F. apply firstn_length_app. }
  assert (forall j x s' c,
            Debug.letter x = true -> k (S j) s' c = None ->
            k j (x :: s') c = None) as Hback.
  { intros j x s' c Hx. rewrite !Hk. cbn [find_sub].
    rewrite (@letter_not_backtick x s' Hx).
    destruct (find_sub fence s') as [[b a]|]; [discriminate|reflexivity]. }
  change (match
            match s1 with
            | x :: s' =>
              if Debug.letter x
              then star Debug.letter (S (i + length fence)) s' no_captures k
              else None
            | [] => None
            end
          with
          | Some v => Some v
          | None => k (i + length fence) s1 no_captures
          end = match find_sub fence (dropWhile Debug.letter s1) with
                | Some (b, a) =>
                  Some (MatchResult i
                          (firstn (length fence
                                   + length (takeWhile Debug.letter s1)
                                   + length b + length fence) s)
                          [(1, b)])
                | None => None
                end).
  assert (length fence = 3) as Hf by reflexivity.
  destruct s1 as [|x s1'].
  - rewrite Hk. cbn [dropWhile takeWhile].
    destruct (find_sub fence []) as [[b a]|]; [|reflexivity].
    unfold set_capture, no_captures. do 3 f_equal. cbn [length]. lia.
  - cbn [dropWhile takeWhile]. destruct (Debug.letter x) eqn:Hx.
    + rewrite (@star_greedy _ Debug.letter k Hback), Hk.
      destruct (find_sub fence (dropWhile Debug.letter s1')) as [[b a]|] eqn:F.
      * unfold set_capture, no_captures. do 3 f_equal. cbn [length]. lia.
      * rewrite Hk, find_sub_skip. cbn [dropWhile]. rewrite Hx, F.
        reflexivity.
    + rewrite Hk.
      destruct (find_sub fence (x :: s1')) as [[b a]|]; [|reflexivity].
      unfold set_capture, no_captures. do 3 f_equal. cbn [length]. lia.
Qed.

Lemma dropWhile_takeWhile_app p s b :
  (b = [] \/ exists x r, b = x :: r /\ p x = false) ->
  dropWhile p (takeWhile p s ++ b) = b.
Proof.
  intros Hb. induction s as [|y s IH]; cbn [takeWhile].
  - destruct Hb as [-> | (x & r & -> & Hx)]; cbn; [reflexivity|now rewrite Hx].
  - destruct (p y) eqn:Hy; cbn; rewrite ?Hy; [exact IH|].
    destruct Hb as [-> | (x & r & -> & Hx)]; cbn; [reflexivity|now rewrite Hx].
Qed.

Lemma dropWhile_stops p s :
  dropWhile p s = [] \/ exists x r, dropWhile p s = x :: r /\ p x = false.
Proof.
  induction s as [|y s IH]; cbn; [now left|].
  destruct (p y) eqn:Hy; [exact IH|]. right. now exists y, s.
Qed.

(** A prefix of a list that begins with a non-member begins with one too. *)
Lemma find_sub_head p n s b a :
  find_sub n (dropWhile p s) = Some (b, a) ->
  b = [] \/ exists x r, b = x :: r /\ p x = false.
Proof.
  intros H. apply find_sub_Some in H as [H _].
  destruct b as [|x r]; [now left|]. right. exists x, r. split; [reflexivity|].
  destruct (dropWhile_stops p s) as [E | (y & r' & E & Hy)];
    rewrite E in H; [discriminate|].
  now injection H as -> _.
Qed.

Lemma exec_from_no_closing : forall t i,
  (forall pre s1, t = pre ++ fence ++ s1 -> find_sub fence s1 = None) ->
  exec_from Debug.codeRegex i t = None.
Proof.
  induction t as [|x t IH]; intros i H; cbn [exec_from];
    rewrite match_at_debug_code.
  - destruct (strip_prefix fence []) as [s1|] eqn:E; [|reflexivity].
    apply strip_prefix_Some in E. discriminate E.
  - destruct (strip_prefix fence (x :: t)) as [s1|] eqn:E.
    + apply strip_prefix_Some in E.
      pose proof (H [] s1 E) as Hn. rewrite find_sub_skip in Hn.
      destruct (find_sub fence (dropWhile Debug.letter s1)) as [[b a]|];
        [discriminate|].
      apply IH. intros pre s1' ->. apply (H (x :: pre) s1'). reflexivity.
    + apply IH. intros pre s1' ->. apply (H (x :: pre) s1'). reflexivity.
Qed.

Lemma exec_from_debug_code : forall s i,
  option_map (fun m => group m 1) (exec_from Debug.codeRegex i s) =
  match find_sub fence s with
  | Some (_, rest) =>
    match find_sub fence rest with
    | Some (inner, _) => Some (dropWhile Debug.letter inner)
    | None => None
    end
  | None => None
  end.
Proof.
  induction s as [|x s IH]; intros i; cbn [exec_from];
    rewrite match_at_debug_code.
  - cbn [find_sub].
    destruct (strip_prefix fence []) as [s1|] eqn:E; [|reflexivity].
    apply strip_prefix_Some in E. discriminate E.
  - cbn [find_sub].
    destruct (strip_prefix fence (x :: s)) as [s1|] eqn:E.
    + rewrite (find_sub_skip s1).
      destruct (find_sub fence (dropWhile Debug.letter s1)) as [[b a]|] eqn:F.
      * cbn. f_equal. symmetry. apply dropWhile_takeWhile_app.
        exact (find_sub_head _ _ _ F).
      * rewrite exec_from_no_closing; [reflexivity|].
        intros pre s1' Ht. apply strip_prefix_Some in E.
        assert (find_sub fence s1 = None) as Hn
          by (rewrite find_sub_skip, F; reflexivity).
        change fence with [96; 96; 96]%N in *. cbn [app] in *.
        injection E as -> E. subst s.
        destruct pre as [|y0 [|y1 pre]]; cbn [app] in Ht.
        -- injection Ht as Ht. subst s1.
           apply (find_sub_suffix _ [96%N] s1' Hn).
        -- injection Ht as _ Ht. subst s1.
           apply (find_sub_suffix _ [96; 96]%N s1' Hn).
        -- injection Ht as _ _ Ht. subst s1.
           apply (find_sub_suffix _ (pre ++ [96; 96; 96]%N) s1').
           now rewrite <- app_assoc.
    + rewrite IH.
      destruct (find_sub fence s) as [[b a]|]; reflexivity.
Qed.


(** X15: the code of a debug response is the text between the first three
    backticks of the reply and the next three, without its leading ASCII
    letters, trimmed; it is the placeholder "// Debug mode - see analysis
    below" when the reply has no such pair or nothing is left between them
    after the letters.  ([find_sub] gives the first occurrence.) *)
Theorem debug_code_is_the_first_fenced_text debugContent :
  Debug.code (Debug.format debugContent) =
  match find_sub fence debugContent with
  | Some (_, rest) =>
    match find_sub fence rest with
    | Some (inner, _) =>
      let body := dropWhile Debug.letter inner in
      if truthy body then trim body else placeholder
    | None => placeholder
    end
  | None => placeholder
  end.
Proof.
  unfold Debug.format, placeholder. cbn [Debug.code].
  pose proof (exec_from_debug_code debugContent 0) as H.
  fold (exec Debug.codeRegex debugContent) in H.
  destruct (exec Debug.codeRegex debugContent) as [m|];
    cbn [option_map] in H.
  - destruct (find_sub fence debugContent) as [[pre rest]|]; [|discriminate].
    destruct (find_sub fence rest) as [[inner post]|]; [|discriminate].
    injection H as H. rewrite H. cbv zeta. reflexivity.
  - destruct (find_sub fence debugContent) as [[pre rest]|]; [|reflexivity].
    destruct (find_sub fence rest) as [[inner post]|]; [discriminate|].
    reflexivity.
Qed.

(** ** Matches move forward *)

Section Advances.
Variable R : Type.

Lemma star_advances p (k : cont R) : forall s i c v,
  star p i s c k = Some v ->
  exists j s' c', i <= j /\ k j s' c' = Some v.
Proof.
  induction s as [|x s IH]; intros i c v; simpl.
  - intros H. exists i, [], c. auto.
  - destruct (p x).
    + destruct (star p (S i) s c k) eqn:E.
      * intros [= ->]. apply IH in E as (j & s' & c' & Hj & Hk).
        exists j, s', c'. split; [lia | exact Hk].
      * intros H. exists i, (x :: s), c. auto.
    + intros H. exists i, (x :: s), c. auto.
Qed.

Lemma lazy_star_advances p (k : cont R) : forall s i c v,
  lazy_star p i s c k = Some v ->
  exists j s' c', i <= j /\ k j s' c' = Some v.
Proof.
  induction s as [|x s IH]; intros i c v; simpl.
  - destruct (k i [] c) eqn:E; [|discriminate].
    intros [= ->]. exists i, [], c. auto.
  - destruct (k i (x :: s) c) eqn:E.
    + intros [= ->]. exists i, (x :: s), c. auto.
    + destruct (p x); [|discriminate]. intros H.
      apply IH in H as (j & s' & c' & Hj & Hk).
      exists j, s', c'. split; [lia | exact Hk].
Qed.

Lemma run_advances r : forall i s c (k : cont R) v,
  run r i s c k = Some v ->
  exists j s' c', i <= j /\ k j s' c' = Some v.
Proof.
  induction r as [|p|r1 IH1 r2 IH2|r1 IH1 r2 IH2|r1 IH1|p|p|n r1 IH1| |];
    intros i s c k v H; simpl in H.
  - exists i, s, c. auto.
  - destruct s as [|x s]; [discriminate|].
    destruct (p x); [|discriminate]. exists (S i), s, c. auto.
  - apply IH1 in H as (j1 & s1 & c1 & H1 & H).
    apply IH2 in H as (j2 & s2 & c2 & H2 & H).
    exists j2, s2, c2. split; [lia | exact H].
  - destruct (run r1 i s c k) eqn:E.
    + injection H as ->. now apply IH1 in E.
    + now apply IH2 in H.
  - destruct (run r1 i s c k) eqn:E.
    + injection H as ->. now apply IH1 in E.
    + exists i, s, c. auto.
  - now apply star_advances in H.
  - now apply lazy_star_advances in H.
  - apply IH1 in H as (j & s' & c' & Hj & H).
    exists j, s', (set_capture n (firstn (j - i) s) c'). auto.
  - destruct (Nat.eqb i 0); [|discriminate]. exists i, s, c. auto.
  - destruct s; [|discriminate]. exists i, [], c. auto.
Qed.

End Advances.

Lemma match_at_index r i s m : match_at r i s = Some m -> index m = i.
Proof.
  unfold match_at. intros H.
  apply run_advances in H as (j & s' & c' & _ & H).
  injection H as <-. reflexivity.
Qed.

(** Every match of a global search after the first starts past the first
    code unit of the subject. *)
Lemma match_all_loop_later r : forall fuel i s t,
  In t (match_all_loop fuel r (S i) s) ->
  exists j suf m, match_at r (S j) suf = Some m /\ t = matched m.
Proof.
  induction fuel as [|fuel IH]; intros i s t; cbn [match_all_loop];
    [intros []|].
  destruct (exec_from r (S i) s) as [m|] eqn:E; [|intros []].
  apply exec_from_Some in E as (pre & suf & Hs & Hm & _).
  pose proof (match_at_index _ _ _ Hm) as Hi. cbv zeta.
  intros [<-|Hin].
  - exists (i + length pre), suf, m. auto.
  - destruct (length s <? _); [destruct Hin|].
    rewrite Hi in Hin.
    destruct (Nat.eqb (length (matched m)) 0);
      cbn [Nat.add] in Hin; now apply IH in Hin.
Qed.

Lemma match_all_later r s n t :
  nth_error (match_all r s) (S n) = Some t ->
  exists j suf m, match_at r (S j) suf = Some m /\ t = matched m.
Proof.
  unfold match_all. cbn [match_all_loop].
  destruct (exec_from r 0 s) as [m|] eqn:E; [|discriminate].
  cbv zeta. cbn [nth_error]. intros H. apply nth_error_In in H.
  destruct (length s <? _); [destruct H|].
  apply exec_from_Some in E as (pre & suf & Hs & Hm & _).
  pose proof (match_at_index _ _ _ Hm) as Hi. cbn [Nat.add] in Hi.
  destruct (Nat.eqb (length (matched m)) 0) eqn:El.
  - now apply match_all_loop_later in H.
  - apply Nat.eqb_neq in El.
    destruct (index m + length (matched m)) as [|e] eqn:Ee; [lia|].
    now apply match_all_loop_later in H.
Qed.

(** ** The thoughts of a debug response *)

Lemma blank_is_space x : Debug.blank x = true -> x = 32%N.
Proof. unfold Debug.blank, is_char. intros H. now apply N.eqb_eq in H. Qed.

Lemma marker_not_ws x :
  Debug.bullet x = true \/ Debug.digit x = true -> is_ws x = false.
Proof.
  unfold Debug.bullet, Debug.digit, is_char, in_range, is_ws, cu.
  cbn [N_of_ascii N_of_digits N.add N.mul]. intros H.
  repeat rewrite ?orb_true_iff, ?andb_true_iff, ?N.eqb_eq, ?N.leb_le in H.
  repeat rewrite ?orb_false_iff, ?andb_false_iff, ?N.eqb_neq, ?N.leb_gt.
  lia.
Qed.

Lemma lead_later : forall s i, exec_from Debug.leadRegex (S i) s = None.
Proof.
  induction s as [|x s IH]; intros i; cbn [exec_from]; unfold match_at;
    unfold Debug.leadRegex at 1; cbn [run Nat.eqb]; [reflexivity | apply IH].
Qed.

(** The expression that removes the marker is anchored at the start of the
    text: it leaves a match that starts with a line feed as it is. *)
Lemma lead_after_newline u :
  replace Debug.leadRegex (lit "") (newline :: u) = newline :: u.
Proof.
  unfold replace, exec. cbn [exec_from]. rewrite lead_later.
  unfold match_at, Debug.leadRegex, Debug.marker. cbn [run Nat.eqb star].
  reflexivity.
Qed.

Lemma trimStart_blanks b x r :
  forallb Debug.blank b = true -> is_ws x = false ->
  trimStart (b ++ x :: r) = x :: r.
Proof.
  intros Hb Hx. induction b as [|y b IH]; cbn [app trimStart].
  - now rewrite Hx.
  - cbn [forallb] in Hb. apply andb_true_iff in Hb as [Hy Hb].
    apply blank_is_space in Hy. subst y. cbn. now apply IH.
Qed.

Lemma trimStart_snoc a x :
  is_ws x = false -> exists a', trimStart (a ++ [x]) = a' ++ [x].
Proof.
  intros Hx. induction a as [|y a IH]; cbn [app trimStart].
  - rewrite Hx. now exists [].
  - destruct (is_ws y); [exact IH|]. now exists (y :: a).
Qed.

Lemma trimEnd_head x r :
  is_ws x = false -> exists r', trimEnd (x :: r) = x :: r'.
Proof.
  intros Hx. unfold trimEnd. cbn [rev].
  destruct (trimStart_snoc (rev r) x Hx) as [a' ->].
  exists (rev a'). rewrite rev_app_distr. reflexivity.
Qed.

Lemma match_at_bullet_later i s m :
  match_at Debug.bulletRegex (S i) s = Some m ->
  exists b x r,
    matched m = newline :: b ++ x :: r /\ forallb Debug.blank b = true /\
    (Debug.bullet x = true \/ Debug.digit x = true).
Proof.
  unfold match_at, Debug.bulletRegex. cbn [run Nat.eqb].
  destruct s as [|y s1]; [intros H; discriminate H|].
  destruct (N.eqb_spec newline y) as [<-|]; [|intros H; discriminate H].
  set (K := fun (j : nat) (_ : str) (c : captures) =>
              Some (MatchResult (S i) (firstn (j - S i) (newline :: s1)) c)).
  set (G := Group 1 (Class Debug.not_newline @@ Star Debug.not_newline)).
  change (star Debug.blank (S (S i)) s1 no_captures
            (fun i1 s2 c1 => run (Debug.marker @@ G) i1 s2 c1 K) = Some m ->
          exists b x r,
            matched m = newline :: b ++ x :: r /\
            forallb Debug.blank b = true /\
            (Debug.bullet x = true \/ Debug.digit x = true)).
  rewrite star_deterministic.
  2:{ intros j x s c Hx. apply blank_is_space in Hx. subst x.
      unfold Debug.marker. cbn [run]. reflexivity. }
  pose proof (takeWhile_dropWhile Debug.blank s1) as Hs1.
  pose proof (takeWhile_all Debug.blank s1) as Hb.
  set (b := takeWhile Debug.blank s1) in *.
  destruct (dropWhile Debug.blank s1) as [|x s2];
    [intros H; unfold Debug.marker in H; cbn [run] in H; discriminate H|].
  intros H.
  assert (Hx : Debug.bullet x = true \/ Debug.digit x = true).
  { destruct (Debug.bullet x) eqn:E1; [now left|].
    destruct (Debug.digit x) eqn:E2; [now right|].
    unfold Debug.marker in H. cbn [run] in H. rewrite E1, E2 in H.
    discriminate H. }
  exists b, x.
  change (run Debug.marker (S (S i) + length b) (x :: s2) no_captures
            (fun i1 s3 c1 => run G i1 s3 c1 K) = Some m) in H.
  apply run_advances in H as (j1 & s' & c' & Hj1 & H).
  unfold G in H. cbn [run] in H.
  destruct s' as [|z s'']; [discriminate H|].
  destruct (Debug.not_newline z); [|discriminate H].
  apply star_advances in H as (j & s3 & c3 & Hj & H).
  unfold K in H. injection H as <-. cbn [matched]. rewrite <- Hs1.
  assert (Hm : j - S i = S (length b + S (j - S i - 2 - length b))) by lia.
  rewrite Hm. cbn [firstn]. rewrite firstn_app_2. cbn [firstn].
  eexists. repeat split; [exact Hb | exact Hx].
Qed.

(** X16: a debug response has between one and five thoughts, and every
    thought after the first starts with its list marker (a bullet or a
    digit): the expression that removes the marker is anchored at the start
    of the matched text, and a match that is not at the start of the reply
    begins with a line feed. *)
Theorem later_thoughts_keep_their_marker debugContent :
  let thoughts := Debug.thoughts (Debug.format debugContent) in
  1 <= length thoughts /\ length thoughts <= 5 /\
  forall n t, nth_error thoughts (S n) = Some t ->
    exists x r,
      t = x :: r /\ (Debug.bullet x = true \/ Debug.digit x = true).
Proof.
  cbv zeta. unfold Debug.format. cbv zeta. cbn [Debug.thoughts].
  match goal with
  | |- context [match_all Debug.bulletRegex ?t] => set (text := t)
  end.
  destruct (match_all Debug.bulletRegex text) as [|p0 ps] eqn:E.
  - split; [cbn [length]; lia|]. split; [cbn [length]; lia|].
    intros [|n] t H; discriminate H.
  - split; [|split].
    + rewrite length_firstn, length_map. cbn [length]. lia.
    + rewrite length_firstn. lia.
    + intros n t H.
      assert (Hn : nth_error
                (map (fun point => trim (replace Debug.leadRegex (lit "") point))
                     (p0 :: ps)) (S n) = Some t).
      { rewrite nth_error_firstn in H.
        destruct (S n <? 5); [exact H | discriminate H]. }
      rewrite nth_error_map in Hn.
      destruct (nth_error (p0 :: ps) (S n)) as [point|] eqn:Ep;
        [|discriminate Hn].
      injection Hn as <-. rewrite <- E in Ep.
      apply match_all_later in Ep as (j & suf & m & Hm & ->).
      apply match_at_bullet_later in Hm as (b & x & r & -> & Hb & Hx).
      rewrite lead_after_newline. exists x.
      pose proof (marker_not_ws x Hx) as Hw.
      unfold trim. change (trimStart (newline :: b ++ x :: r))
        with (trimStart (b ++ x :: r)).
      rewrite (trimStart_blanks b x r Hb Hw).
      destruct (trimEnd_head x r Hw) as [r' ->].
      exists r'. split; [reflexivity | exact Hx].
Qed.

(** ** Waiting for the renderer *)

Lemma wait_loop_spec polls : forall remaining attempts,
  match Startup.wait_loop remaining attempts polls with
  | Return n =>
    attempts <= n < attempts + remaining /\ polls n = Return true /\
    forall m, attempts <= m < n -> polls m = Return false
  | Throw e =>
    (e = Error (lit "App failed to initialize after 5 seconds") /\
     forall m, attempts <= m < attempts + remaining ->
       polls m = Return false) \/
    (exists n, attempts <= n < attempts + remaining /\ polls n = Throw e /\
       forall m, attempts <= m < n -> polls m = Return false)
  end.
Proof.
  induction remaining as [|remaining IH]; intros attempts; cbn [Startup.wait_loop].
  - left. split; [reflexivity|]. intros m Hm. lia.
  - destruct (polls attempts) as [[|]|e] eqn:E.
    + split; [lia|]. split; [exact E|]. intros m Hm. lia.
    + specialize (IH (S attempts)).
      assert (Hstep : forall m n, attempts <= m < n ->
                (forall m', S attempts <= m' < n -> polls m' = Return false) ->
                polls m = Return false).
      { intros m n Hm Hall. destruct (Nat.eq_dec m attempts) as [->|Hne];
          [exact E | apply Hall; lia]. }
      destruct (Startup.wait_loop remaining (S attempts) polls) as [n|e].
      * destruct IH as (Hn & Hp & Hall). split; [lia|]. split; [exact Hp|].
        intros m Hm. now apply (Hstep m n).
      * destruct IH as [[He Hall]|(n & Hn & Hp & Hall)].
        -- left. split; [exact He|]. intros m Hm.
           apply (Hstep m (attempts + S remaining)); [lia|].
           intros m' Hm'. apply Hall. lia.
        -- right. exists n. split; [lia|]. split; [exact Hp|].
           intros m Hm. now apply (Hstep m n).
    + right. exists attempts. split; [lia|]. split; [exact E|].
      intros m Hm. lia.
Qed.

(** X17: [waitForInitialization] returns at the first truthy poll, which is
    among the first fifty, after one 100 ms timer for each falsy poll before
    it; it rejects with "App failed to initialize after 5 seconds" when
    fifty polls were falsy, and with the rejection of the first poll that
    rejects otherwise.  [getCredits] answers 999 in all these cases and
    without a window. *)
Theorem waitForInitialization_gives_up_after_fifty_polls polls :
  match Startup.waitForInitialization polls with
  | Return n =>
    n < 50 /\ polls n = Return true /\
    forall m, m < n -> polls m = Return false
  | Throw e =>
    (e = Error (lit "App failed to initialize after 5 seconds") /\
     forall m, m < 50 -> polls m = Return false) \/
    (exists n, n < 50 /\ polls n = Throw e /\
       forall m, m < n -> polls m = Return false)
  end /\
  forall mainWindow, Startup.getCredits mainWindow polls = 999%N.
Proof.
  split.
  - unfold Startup.waitForInitialization.
    pose proof (wait_loop_spec polls Startup.maxAttempts 0) as H.
    destruct (Startup.wait_loop Startup.maxAttempts 0 polls) as [n|e].
    + destruct H as (Hn & Hp & Hall). split; [exact (proj2 Hn)|].
      split; [exact Hp|]. intros m Hm. apply Hall. lia.
    + destruct H as [[He Hall]|(n & Hn & Hp & Hall)].
      * left. split; [exact He|]. intros m Hm. apply Hall.
        change Startup.maxAttempts with 50. lia.
      * right. exists n. split; [exact (proj2 Hn)|]. split; [exact Hp|].
        intros m Hm. apply Hall. lia.
  - intros [w|]; unfold Startup.getCredits; [|reflexivity].
    destruct (Startup.waitForInitialization polls); reflexivity.
Qed.

(** ** The settings dialog *)

Lemma unless_blank_filled value fallback :
  trim fallback <> [] -> trim (Settings.unless_blank value fallback) <> [].
Proof.
  intros Hf. unfold Settings.unless_blank.
  destruct (trim value) eqn:E; cbn [truthy negb]; [exact Hf|].
  rewrite E. discriminate.
Qed.

Lemma unless_blank_keeps value fallback :
  trim value <> [] -> Settings.unless_blank value fallback = value.
Proof.
  intros Hv. unfold Settings.unless_blank.
  destruct (trim value); [now elim Hv | reflexivity].
Qed.

(** X18: [handleProviderChange] selects the provider and leaves its model
    and base URL non-blank: a blank one becomes the default of the provider,
    one that holds text is kept; the API key and the fields of the other
    providers are untouched. *)
Theorem provider_change_fills_only_blank_fields provider f :
  let f' := Settings.handleProviderChange provider f in
  Settings.apiProvider f' = provider /\
  Settings.apiKey f' = Settings.apiKey f /\
  trim (Settings.model_of provider f') <> [] /\
  trim (Settings.baseUrl_of provider f') <> [] /\
  (trim (Settings.model_of provider f) <> [] ->
   Settings.model_of provider f' = Settings.model_of provider f) /\
  (trim (Settings.baseUrl_of provider f) <> [] ->
   Settings.baseUrl_of provider f' = Settings.baseUrl_of provider f) /\
  forall other, other <> provider ->
    Settings.model_of other f' = Settings.model_of other f /\
    Settings.baseUrl_of other f' = Settings.baseUrl_of other f.
Proof.
  cbv zeta. split; [destruct provider; reflexivity|].
  split; [destruct provider; reflexivity|].
  split; [destruct provider; apply unless_blank_filled; vm_compute; discriminate|].
  split; [destruct provider; apply unless_blank_filled; vm_compute; discriminate|].
  split; [destruct provider; apply unless_blank_keeps|].
  split; [destruct provider; apply unless_blank_keeps|].
  intros other Ho. destruct provider, other; try (now elim Ho); split; reflexivity.
Qed.

(** X19: [maskApiKey] shows nothing of a key shorter than ten code units;
    of a longer key it shows eleven code units that depend only on the first
    four and the last four of the key. *)
Theorem mask_shows_only_the_ends_of_a_key key :
  (length key < 10 -> Settings.maskApiKey key = []) /\
  (10 <= length key ->
   length (Settings.maskApiKey key) = 11 /\
   forall key', 10 <= length key' ->
     firstn 4 key' = firstn 4 key ->
     skipn (length key' - 4) key' = skipn (length key - 4) key ->
     Settings.maskApiKey key' = Settings.maskApiKey key).
Proof.
  unfold Settings.maskApiKey. split.
  - intros H. apply Nat.ltb_lt in H. rewrite H, orb_true_r. reflexivity.
  - intros H.
    assert (Hk : forall k : str, 10 <= length k ->
              (negb (truthy k) || (length k <? 10)) = false).
    { intros k Hlen. destruct k; [simpl in Hlen; lia|].
      cbn [truthy negb orb]. apply Nat.ltb_ge. exact Hlen. }
    rewrite (Hk key H). split.
    + rewrite !length_app, length_firstn, length_skipn.
      change (length (lit "...")) with 3. lia.
    + intros key' H' Hf Hs. rewrite (Hk key' H'), Hf, Hs. reflexivity.
Qed.

(** ** The complexity texts *)

Lemma canonicalize_cases x :
  (~ (97 <= x <= 122)%N /\ canonicalize x = x) \/
  ((97 <= x <= 122)%N /\ canonicalize x = (x - 32)%N).
Proof.
  unfold canonicalize, upper_cu.
  destruct (N.ltb_spec x 128) as [Hlt|Hge]; [|left; split; [lia | reflexivity]].
  destruct ((97 <=? x) && (x <=? 122))%N eqn:E.
  - apply andb_true_iff in E as [E1 E2].
    apply N.leb_le in E1, E2. right. split; [lia | reflexivity].
  - left. split; [|reflexivity]. intros [H1 H2].
    apply N.leb_le in H1, H2. rewrite H1, H2 in E. discriminate E.
Qed.

Lemma is_O x :
  (canonicalize x =? canonicalize (cu "O"))%N
  = ((x =? cu "O") || (x =? cu "o"))%N.
Proof.
  change (canonicalize (cu "O")) with 79%N. change (cu "O") with 79%N.
  change (cu "o") with 111%N.
  destruct (canonicalize_cases x) as [[Hx ->]|[Hx ->]];
    destruct (N.eqb_spec (x - 32) 79), (N.eqb_spec x 79), (N.eqb_spec x 111);
    cbn [orb]; try reflexivity; lia.
Qed.

Lemma is_mark x (t : N) :
  (t < 65)%N -> (canonicalize x =? t)%N = (x =? t)%N.
Proof.
  intros Ht. destruct (canonicalize_cases x) as [[Hx ->]|[Hx ->]];
    [reflexivity|].
  destruct (N.eqb_spec (x - 32) t), (N.eqb_spec x t); try reflexivity; lia.
Qed.

Lemma not_paren_spec x : Renderer.not_paren x = negb (x =? cu ")")%N.
Proof.
  unfold Renderer.not_paren, ignore_case, is_char.
  now rewrite (is_mark x (t := cu ")")).
Qed.

Lemma match_at_bigO i s :
  match match_at Renderer.bigORegex i s with
  | Some _ => true
  | None => false
  end = Renderer.big_o_at s.
Proof.
  unfold match_at, Renderer.bigORegex, Renderer.big_o_at.
  change (lit "O(") with [cu "O"; cu "("]. change (lit ")") with [cu ")"].
  cbn [LitI run].
  destruct s as [|o [|p [|x rest]]]; try reflexivity.
  - destruct (_ =? _)%N; reflexivity.
  - destruct (_ =? _)%N; [|reflexivity]. destruct (_ =? _)%N; reflexivity.
  - rewrite is_O. destruct ((o =? cu "O") || (o =? cu "o"))%N; [|reflexivity].
    change (canonicalize (cu "(")) with (cu "(").
    rewrite (is_mark p (t := cu "(")) by reflexivity.
    destruct (p =? cu "(")%N; [|reflexivity].
    rewrite not_paren_spec. destruct (x =? cu ")")%N; [reflexivity|].
    cbn [andb negb].
    rewrite star_deterministic.
    2:{ intros j y s c Hy. rewrite not_paren_spec in Hy.
        change (canonicalize (cu ")")) with (cu ")").
        rewrite (is_mark y (t := cu ")")) by reflexivity.
        destruct (y =? cu ")")%N; [discriminate Hy | reflexivity]. }
    destruct (dropWhile Renderer.not_paren rest) as [|y r]; [reflexivity|].
    change (canonicalize (cu ")")) with (cu ")").
    rewrite (is_mark y (t := cu ")")) by reflexivity.
    destruct (y =? cu ")")%N; reflexivity.
Qed.

Lemma test_bigO_iff c :
  test Renderer.bigORegex c = true <->
  exists pre suf, c = pre ++ suf /\ Renderer.big_o_at suf = true.
Proof.
  unfold test, exec. split.
  - destruct (exec_from Renderer.bigORegex 0 c) as [m|] eqn:E;
      [intros _ | discriminate].
    apply exec_from_Some in E as (pre & suf & Hs & Hm & _).
    exists pre, suf. split; [exact Hs|].
    rewrite <- (match_at_bigO (0 + length pre) suf), Hm. reflexivity.
  - intros (pre & suf & Hs & Hb).
    destruct (exec_from Renderer.bigORegex 0 c) as [m|] eqn:E;
      [reflexivity|].
    pose proof (@exec_from_None _ _ _ E pre suf Hs) as Hn.
    rewrite <- (match_at_bigO (0 + length pre) suf), Hn in Hb.
    discriminate Hb.
Qed.

Lemma dropWhile_reaches_paren post : forall mid,
  exists y r,
    dropWhile Renderer.not_paren (mid ++ cu ")" :: post) = y :: r /\
    y = cu ")".
Proof.
  induction mid as [|a mid IH]; cbn [app dropWhile].
  - rewrite not_paren_spec, N.eqb_refl. cbn [negb]. eauto.
  - rewrite not_paren_spec.
    destruct (N.eqb_spec a (cu ")")) as [->|]; cbn [negb]; [eauto | exact IH].
Qed.

Lemma big_o_at_iff s :
  Renderer.big_o_at s = true <->
  exists o x mid post,
    s = o :: cu "(" :: x :: mid ++ cu ")" :: post /\
    (o = cu "O" \/ o = cu "o") /\ x <> cu ")".
Proof.
  unfold Renderer.big_o_at. split.
  - destruct s as [|o [|p [|x rest]]]; try discriminate.
    intros H. apply andb_true_iff in H as [H Hd].
    apply andb_true_iff in H as [H Hx].
    apply andb_true_iff in H as [Ho Hp].
    apply N.eqb_eq in Hp. subst p.
    pose proof (takeWhile_dropWhile Renderer.not_paren rest) as Hr.
    destruct (dropWhile Renderer.not_paren rest) as [|y r]; [discriminate|].
    apply N.eqb_eq in Hd. subst y.
    exists o, x, (takeWhile Renderer.not_paren rest), r.
    rewrite Hr. split; [reflexivity|]. split.
    + apply orb_true_iff in Ho as [Ho|Ho]; apply N.eqb_eq in Ho; auto.
    + intros ->. rewrite N.eqb_refl in Hx. discriminate Hx.
  - intros (o & x & mid & post & -> & Ho & Hx).
    destruct (dropWhile_reaches_paren post mid) as (y & r & -> & ->).
    rewrite N.eqb_refl.
    replace (x =? cu ")")%N with false
      by (symmetry; now apply N.eqb_neq).
    destruct Ho as [-> | ->]; reflexivity.
Qed.

Lemma test_bigO c : test Renderer.bigORegex c = true <-> Renderer.big_o_term c.
Proof.
  rewrite test_bigO_iff. unfold Renderer.big_o_term. split.
  - intros (pre & suf & -> & H). apply big_o_at_iff in H
      as (o & x & mid & post & -> & Ho & Hx).
    now exists pre, o, x, mid, post.
  - intros (pre & o & x & mid & post & -> & Ho & Hx).
    exists pre, (o :: cu "(" :: x :: mid ++ cu ")" :: post).
    split; [reflexivity|]. apply big_o_at_iff. now exists o, x, mid, post.
Qed.

(** X20: [formatComplexity] answers "Complexity not available" for a blank
    text, returns a text that holds a big-O term as it is, and wraps every
    other text in "O(" and ")". *)
Theorem complexity_is_wrapped_unless_it_holds_a_big_o c :
  (trim c = [] ->
   Renderer.formatComplexity (Some c) = lit "Complexity not available") /\
  (trim c <> [] -> Renderer.big_o_term c -> Renderer.formatComplexity (Some c) = c) /\
  (trim c <> [] -> ~ Renderer.big_o_term c ->
   Renderer.formatComplexity (Some c) = lit "O(" ++ c ++ lit ")").
Proof.
  unfold Renderer.formatComplexity.
  assert (Hb : negb (truthy c) || eqb_str (trim c) (lit "")
               = match trim c with [] => true | _ => false end).
  { destruct c as [|x c]; [reflexivity|]. cbn [truthy negb orb].
    unfold eqb_str. change (lit "") with (@nil char).
    destruct (list_eq_dec N.eq_dec (trim (x :: c)) []) as [->|Hn];
      [reflexivity|].
    destruct (trim (x :: c)); [now elim Hn | reflexivity]. }
  rewrite Hb. repeat split.
  - intros ->. reflexivity.
  - intros Hn Ht. destruct (trim c); [now elim Hn|].
    apply test_bigO in Ht. now rewrite Ht.
  - intros Hn Ht. destruct (trim c); [now elim Hn|].
    destruct (test Renderer.bigORegex c) eqn:E; [|reflexivity].
    apply test_bigO in E. now elim Ht.
Qed.

(** ** The solutions view *)

(** X21: when the handler of SOLUTION_SUCCESS receives the response of the
    classifier, the cache holds the normalized solution and the view holds
    the content and the answer type of the response.  The question type of
    the view is kept when the cache held a solution query before, and is
    null when the handler creates the query: the subscription to the cache
    is told of the new query while it has no data and resets the view.  The
    solution is rendered unless the answer is code with an empty body; an
    analysis has no reasoning steps to list; the complexity section of a
    rendered code answer is "Calculating complexity..." and never a
    complexity; the key takeaways rendered are those of the response;
    applying the same solution once more changes nothing. *)
Theorem classified_answer_on_screen fullText language resp info c :
  formatDirectResponse fullText language = Return (resp, info) ->
  let c' := Renderer.onSolutionSuccess (Some resp) c in
  let st' := Renderer.shown c' in
  Renderer.solution_query c'
  = Some (Some (Renderer.normalizedSolution resp)) /\
  Renderer.solutionData st' = Some (content resp) /\
  Renderer.answerType st' = answer_type resp /\
  Renderer.questionType st' =
  match Renderer.solution_query c with
  | Some _ => Renderer.questionType (Renderer.shown c)
  | None => None
  end /\
  (answer_type resp = AnswerAnalysis ->
   Renderer.thoughtsData st' = Some []) /\
  (Renderer.shows_solution st' = false <->
   answer_type resp = AnswerCode /\ content resp = []) /\
  Renderer.complexity_panel st' =
  (if Renderer.shows_solution st' then
     match answer_type resp with
     | AnswerCode => Some Renderer.Calculating
     | AnswerAnalysis => None
     end
   else None) /\
  Renderer.takeaways_panel st' = key_takeaways resp /\
  Renderer.applySolutionState (Some (Renderer.normalizedSolution resp)) st'
  = st'.
Proof.
  intros H. unfold formatDirectResponse in H. cbv zeta in H.
  destruct (trim (or_else fullText (lit ""))) as [|x trimmed] eqn:Et;
    [discriminate H|].
  cbn [truthy negb] in H.
  destruct (exec codeBlockRegex (x :: trimmed)) as [m|].
  - injection H as <- _.
    unfold Renderer.onSolutionSuccess, Renderer.setQueryData,
      Renderer.on_solution_event, Renderer.getQueryData,
      Renderer.applySolutionState,
      Renderer.normalizedSolution, Renderer.complexity_panel,
      Renderer.takeaways_panel, Renderer.shows_solution,
      Renderer.ComplexitySection, Renderer.normalizeQuestionType.
    destruct (Renderer.solution_query c) as [q|]; cbn -[lit trim];
      (destruct (trim (group m 2)) as [|y code]; cbn -[lit];
       repeat split; try reflexivity; try discriminate;
       intros [_ E]; discriminate E).
  - injection H as <- _.
    unfold Renderer.onSolutionSuccess, Renderer.setQueryData,
      Renderer.on_solution_event, Renderer.getQueryData,
      Renderer.applySolutionState,
      Renderer.normalizedSolution, Renderer.complexity_panel,
      Renderer.takeaways_panel, Renderer.shows_solution,
      Renderer.ComplexitySection, Renderer.normalizeQuestionType.
    destruct (Renderer.solution_query c) as [q|];
      cbn -[lit exec find_first toUpperCase app];
      (repeat split; try reflexivity; try discriminate;
       [ intros [E _]; discriminate E
       | destruct (exec letterRegex (x :: trimmed)) as [lm|];
         [ destruct (toUpperCase (group lm 1)); reflexivity
         | destruct (find_first _ _) as [l|]; [|reflexivity];
           destruct l; [reflexivity|]; cbn -[lit app]; reflexivity ] ]).
Qed.

(** ** The address of a Gemini request *)

Lemma strip_slash_snoc base :
  Gemini.strip_slash (base ++ [cu "/"]) = base.
Proof.
  unfold Gemini.strip_slash. rewrite rev_app_distr. cbn [rev app].
  rewrite N.eqb_refl. apply rev_involutive.
Qed.

Lemma strip_slash_other base :
  (forall r, base <> r ++ [cu "/"]) -> Gemini.strip_slash base = base.
Proof.
  intros H. unfold Gemini.strip_slash.
  destruct (rev base) as [|c r] eqn:E; [reflexivity|].
  destruct (N.eqb_spec c (cu "/")) as [->|]; [|reflexivity].
  exfalso. apply (H (rev r)).
  rewrite <- (rev_involutive base), E. reflexivity.
Qed.

(** X22: the address of a Gemini request is the base URL, "/models/", the
    model, ":generateContent?key=" and the key; one trailing slash of the
    base URL is dropped, a second one stays, and a base URL of the
    configuration is used in the same way when the instance has none. *)
Theorem gemini_endpoint_drops_one_trailing_slash base config key :
  base <> [] -> (forall r, base <> r ++ [cu "/"]) ->
  let address b :=
    b ++ lit "/models/" ++ Config.geminiModel config
    ++ lit ":generateContent?key=" ++ key in
  Gemini.endpoint (Some base) config key = address base /\
  Gemini.endpoint (Some (base ++ lit "/")) config key = address base /\
  Gemini.endpoint (Some (base ++ lit "//")) config key
  = address (base ++ lit "/") /\
  Gemini.endpoint None
    {| Config.apiProvider := Config.apiProvider config;
       Config.apiKey := Config.apiKey config;
       Config.openaiModel := Config.openaiModel config;
       Config.geminiModel := Config.geminiModel config;
       Config.anthropicModel := Config.anthropicModel config;
       Config.openaiBaseUrl := Config.openaiBaseUrl config;
       Config.geminiBaseUrl := Some (base ++ lit "/");
       Config.anthropicBaseUrl := Config.anthropicBaseUrl config;
       Config.language := Config.language config |} key
  = address base.
Proof.
  intros Hb Hs. cbv zeta. unfold Gemini.endpoint. cbv zeta.
  assert (Ht : forall t, truthy_opt (Some (base ++ t)) = true).
  { intros t. destruct base; [now elim Hb | reflexivity]. }
  change (lit "/") with [cu "/"].
  change (lit "//") with ([cu "/"] ++ [cu "/"]).
  repeat split.
  - pose proof (Ht []) as Ht0. rewrite app_nil_r in Ht0. rewrite Ht0. cbv beta iota.
    f_equal. now apply strip_slash_other.
  - rewrite (Ht [cu "/"]). cbv beta iota. f_equal. apply strip_slash_snoc.
  - rewrite (Ht _). cbv beta iota. f_equal. rewrite app_assoc.
    apply strip_slash_snoc.
  - cbn [truthy_opt Config.geminiBaseUrl Config.geminiModel].
    change (truthy (base ++ [cu "/"])) with (truthy_opt (Some (base ++ [cu "/"]))).
    rewrite (Ht [cu "/"]). cbv beta iota. f_equal. apply strip_slash_snoc.
Qed.

(** ** The two objects of a classified answer *)

Lemma upper_choice x :
  choice_char x = true -> in_range "A" "D" (upper_cu x) = true.
Proof.
  unfold choice_char, in_range, upper_cu, cu.
  cbn [N_of_ascii N_of_digits N.add N.mul]. intros H.
  apply orb_true_iff in H as [H|H]; apply andb_true_iff in H as [H1 H2];
    apply N.leb_le in H1, H2.
  - replace ((97 <=? x) && (x <=? 122))%N with false.
    + apply andb_true_iff. split; apply N.leb_le; lia.
    + symmetry. apply andb_false_iff. left. apply N.leb_gt. lia.
  - replace ((97 <=? x) && (x <=? 122))%N with true.
    + apply andb_true_iff. split; apply N.leb_le; lia.
    + symmetry. apply andb_true_iff. split; apply N.leb_le; lia.
Qed.

(** X23: the two objects that [formatDirectResponse] returns agree.  The
    raw response of the problem info is the trimmed reply, which is not
    empty.  A code answer carries the trimmed body of the first fenced block
    as content and as code, no letter and no takeaways; its language hint
    is the tag of the fence, or the fallback language when the fence has no
    tag.  An analysis is returned for a reply without fenced block; its
    content is the trimmed reply, its language hint "N/A", and its letter,
    when it has one, is one upper-case letter from A to D that the problem
    info and the single takeaway repeat. *)
Theorem classified_answers_are_well_formed fullText language resp info :
  formatDirectResponse fullText language = Return (resp, info) ->
  trim fullText <> [] /\
  ProblemInfo.raw_response info = trim fullText /\
  match answer_type resp with
  | AnswerCode =>
    (exists pre lang body post,
       first_fenced (trim fullText) pre lang body post /\
       content resp = trim body /\
       ProblemInfo.language_hint info = or_else lang language) /\
    code resp = Some (content resp) /\
    final_answer resp = None /\ key_takeaways resp = None /\
    ProblemInfo.final_answer info = lit "N/A"
  | AnswerAnalysis =>
    ~ has_fence (trim fullText) /\
    content resp = trim fullText /\ code resp = None /\
    ProblemInfo.language_hint info = lit "N/A" /\
    match final_answer resp with
    | Some l =>
      (exists x, l = [x] /\ in_range "A" "D" x = true) /\
      key_takeaways resp = Some [lit "正确选项：" ++ l] /\
      ProblemInfo.final_answer info = l
    | None =>
      key_takeaways resp = None /\
      ProblemInfo.final_answer info = lit "N/A"
    end
  end.
Proof.
  intros H. unfold formatDirectResponse in H. rewrite or_else_empty in H.
  cbv zeta in H.
  destruct (trim fullText) as [|c t] eqn:Et; [discriminate H|].
  cbn [truthy negb] in H. split; [discriminate|].
  destruct (exec codeBlockRegex (c :: t)) as [m|] eqn:Ec.
  - injection H as <- <-.
    cbn [answer_type content code final_answer key_takeaways
         ProblemInfo.raw_response ProblemInfo.language_hint
         ProblemInfo.final_answer].
    split; [reflexivity|].
    apply exec_codeBlock_Some in Ec
      as (pre & lang & body & post & Hf & _ & -> & ->).
    repeat split; try reflexivity; try apply Hf.
    exists pre, lang, body, post. repeat split; try reflexivity; apply Hf.
  - apply exec_codeBlock_None in Ec. injection H as <- <-.
    cbn [answer_type content code final_answer key_takeaways
         ProblemInfo.raw_response ProblemInfo.language_hint
         ProblemInfo.final_answer].
    split; [reflexivity|]. split; [exact Ec|].
    do 3 (split; [reflexivity|]).
    destruct (exec letterRegex (c :: t)) as [m|] eqn:El.
    + apply exec_letter_Some in El as (p & y & q & [Hl _] & _ & ->).
      destruct Hl as (_ & _ & _ & _ & _ & _ & _ & Hy).
      cbn [toUpperCase map truthy or_else].
      split; [|split; reflexivity].
      exists (upper_cu y). split; [reflexivity | now apply upper_choice].
    + destruct (find_first _ _) as [l0|] eqn:Ef; [|split; reflexivity].
      apply find_first_Some in Ef as [_ Hs]. rewrite test_solo in Hs.
      destruct l0 as [|y [|z r]]; try discriminate Hs.
      cbn [solo_letter] in Hs.
      cbn [toUpperCase map truthy or_else].
      split; [|split; reflexivity].
      exists (upper_cu y). split; [reflexivity | now apply upper_choice].
Qed.

(** ** The question type of the view *)

Lemma eqb_str_eq a b : eqb_str a b = true -> a = b.
Proof.
  unfold eqb_str. destruct (list_eq_dec N.eq_dec a b); [auto | discriminate].
Qed.

Lemma normalizeQuestionType_allowed value :
  Renderer.allowed (Renderer.normalizeQuestionType value).
Proof.
  unfold Renderer.normalizeQuestionType.
  destruct (negb (truthy_opt value)); [exact I|]. cbv zeta.
  destruct (existsb _ _) eqn:E; [|exact I].
  apply existsb_exists in E as (q & Hq & Heq).
  apply eqb_str_eq in Heq. cbn [Renderer.allowed]. now rewrite Heq.
Qed.

(** X24: the question type of the view is null or one of the six allowed
    types, and [applySolutionState] keeps it so whatever the solution names
    as its question type; an allowed type is accepted as it is and in
    capitals. *)
Theorem question_type_stays_allowed p st :
  Renderer.allowed (Renderer.questionType st) ->
  Renderer.allowed
    (Renderer.questionType (Renderer.applySolutionState p st)) /\
  forall q, In q Renderer.allowedQuestionTypes ->
    Renderer.normalizeQuestionType (Some q) = Some q /\
    Renderer.normalizeQuestionType (Some (toUpperCase q)) = Some q.
Proof.
  intros Hst. split.
  - destruct p as [payload|]; [|exact I].
    cbn [Renderer.applySolutionState Renderer.questionType].
    pose proof (normalizeQuestionType_allowed
                  (Renderer.question_type payload)) as Hn.
    destruct (Renderer.normalizeQuestionType _) as [n|];
      [|exact Hst].
    cbn [truthy_opt]. destruct (truthy n); [exact Hn | exact Hst].
  - intros q Hq. unfold Renderer.allowedQuestionTypes in Hq.
    cbn [In] in Hq.
    repeat (destruct Hq as [<-|Hq]; [split; vm_compute; reflexivity|]).
    destruct Hq.
Qed.

(** ** Sample runs of the further properties *)

Lemma processScreenshots_never_rejects_witness :
  stored_config (now (Samples.idle Config.gemini))
  = Return (Samples.config_of Config.gemini) /\
  alive (now (Samples.idle Config.gemini)) /\
  (forall e st1,
     processScreenshots (now (Samples.idle Config.gemini)) <> Thrown e st1) /\
  match
    continue (processScreenshots (now (Samples.idle Config.gemini)))
      (rejected Samples.canceled) (now (Samples.idle Config.gemini))
  with
  | Some y => exists st'', y = Done tt st''
  | None => False
  end.
Proof.
  assert (stored_config (now (Samples.idle Config.gemini))
          = Return (Samples.config_of Config.gemini)) as Hc
    by (vm_compute; reflexivity).
  assert (alive (now (Samples.idle Config.gemini))) as Ha
    by (exists {| isDestroyed := false |}; split; reflexivity).
  assert (forall w,
            mainWindow (deps (now (Samples.idle Config.gemini))) = Some w ->
            isDestroyed w = false) as Hw
    by (intros w H; vm_compute in H; injection H as <-; reflexivity).
  split; [exact Hc|]. split; [exact Ha|].
  split;
    [exact (proj1 (processScreenshots_never_rejects
                     (now (Samples.idle Config.gemini)) Hc Hw))|].
  destruct (continue (processScreenshots (now (Samples.idle Config.gemini)))
              (rejected Samples.canceled) (now (Samples.idle Config.gemini)))
    as [y|] eqn:E; [|vm_compute in E; discriminate E].
  exact (proj2 (processScreenshots_never_rejects
                  (now (Samples.idle Config.gemini)) Hc Hw)
           (rejected Samples.canceled) (now (Samples.idle Config.gemini)) y
           Ha E).
Defined.

Lemma debug_requests_put_the_text_first_witness :
  stored_config (now (Samples.solved Config.gemini))
  = Return (Samples.config_of Config.gemini) /\
  problemInfo (deps (now (Samples.solved Config.gemini)))
  = Some Samples.some_problem /\
  client_missing (Samples.config_of Config.gemini)
    (clients (now (Samples.solved Config.gemini))) = false /\
  match
    processExtraScreenshotsHelper
      [ {| path := lit "/tmp/shot-1.png"; data := lit "iVBORw0KGgo=" |};
        {| path := lit "/tmp/extra-1.png"; data := lit "iVBORw0KGgp=" |} ]
      0 (now (Samples.solved Config.gemini))
  with
  | AwaitGemini req _ _ =>
    debug_gemini req [lit "iVBORw0KGgo="; lit "iVBORw0KGgp="]
  | _ => False
  end.
Proof.
  assert (Hc : stored_config (now (Samples.solved Config.gemini))
               = Return (Samples.config_of Config.gemini))
    by (vm_compute; reflexivity).
  assert (Hi : problemInfo (deps (now (Samples.solved Config.gemini)))
               = Some Samples.some_problem)
    by (vm_compute; reflexivity).
  assert (Hm : client_missing (Samples.config_of Config.gemini)
                 (clients (now (Samples.solved Config.gemini))) = false)
    by (vm_compute; reflexivity).
  split; [exact Hc|]. split; [exact Hi|]. split; [exact Hm|].
  exact (debug_requests_put_the_text_first
           [ {| path := lit "/tmp/shot-1.png"; data := lit "iVBORw0KGgo=" |};
             {| path := lit "/tmp/extra-1.png"; data := lit "iVBORw0KGgp=" |} ]
           0 (now (Samples.solved Config.gemini)) Hc Hi Hm).
Defined.

Lemma finished_run_clears_its_controller_witness :
  match
    continue (processScreenshots (now (Samples.idle Config.gemini)))
      (rejected Samples.canceled) (now (Samples.idle Config.gemini))
  with
  | Some y =>
    exists st'',
      y = Done tt st'' /\
      controllers st'' =
      controllers
        match view (deps (now (Samples.idle Config.gemini))) with
        | queue =>
          clear_processing_controller (now (Samples.idle Config.gemini))
        | solutions =>
          clear_extra_controller (now (Samples.idle Config.gemini))
        end /\
      clients st'' = clients (now (Samples.idle Config.gemini)) /\
      stored_config st'' = stored_config (now (Samples.idle Config.gemini))
  | None => False
  end.
Proof.
  destruct (continue (processScreenshots (now (Samples.idle Config.gemini)))
              (rejected Samples.canceled) (now (Samples.idle Config.gemini)))
    as [y|] eqn:E.
  - exact (finished_run_clears_its_controller
             (now (Samples.idle Config.gemini)) (rejected Samples.canceled)
             (now (Samples.idle Config.gemini)) E).
  - vm_compute in E. discriminate E.
Defined.

Lemma solve_success_opens_the_solutions_view_witness :
  view (deps (now (Samples.idle Config.gemini))) = queue /\
  stored_config (now (Samples.idle Config.gemini))
  = Return (Samples.config_of Config.gemini) /\
  reply_fullText (gemini_reply Samples.gemini_answer)
  = Return Samples.labelled_reply /\
  match
    formatDirectResponse Samples.labelled_reply
      (getLanguage (now (Samples.idle Config.gemini))),
    resume (processScreenshots (now (Samples.idle Config.gemini)))
      (gemini_reply Samples.gemini_answer) (now (Samples.idle Config.gemini))
  with
  | Return (resp, info), Some y =>
    exists st'',
      y = Done tt st'' /\
      sent st'' =
      sent (now (Samples.idle Config.gemini))
      ++ [Send PROBLEM_EXTRACTED (problem_payload info);
          Send processing_status
            (status_payload
               (providerLabel
                  (Config.apiProvider (Samples.config_of Config.gemini))
                ++ lit " 已完成分析并生成答案") 100);
          Send SOLUTION_SUCCESS (solution_payload resp)] /\
      view (deps st'') = solutions /\
      problemInfo (deps st'') = Some info /\
      hasDebugged (deps st'')
      = hasDebugged (deps (now (Samples.idle Config.gemini))) /\
      extraScreenshotQueue (screenshotHelper st'') = [] /\
      screenshotQueue (screenshotHelper st'')
      = screenshotQueue (screenshotHelper (now (Samples.idle Config.gemini)))
  | _, _ => False
  end.
Proof.
  assert (view (deps (now (Samples.idle Config.gemini))) = queue) as Hv
    by (vm_compute; reflexivity).
  assert (stored_config (now (Samples.idle Config.gemini))
          = Return (Samples.config_of Config.gemini)) as Hc
    by (vm_compute; reflexivity).
  assert (reply_fullText (gemini_reply Samples.gemini_answer)
          = Return Samples.labelled_reply) as Hr
    by (vm_compute; reflexivity).
  split; [exact Hv|]. split; [exact Hc|]. split; [exact Hr|].
  destruct (formatDirectResponse Samples.labelled_reply
              (getLanguage (now (Samples.idle Config.gemini))))
    as [[resp info]|e] eqn:F.
  - destruct (resume (processScreenshots (now (Samples.idle Config.gemini)))
                (gemini_reply Samples.gemini_answer)
                (now (Samples.idle Config.gemini))) as [y|] eqn:E.
    + exact (solve_success_opens_the_solutions_view
               (now (Samples.idle Config.gemini))
               (gemini_reply Samples.gemini_answer)
               (now (Samples.idle Config.gemini)) Hv Hc Hr F E).
    + vm_compute in E. discriminate E.
  - vm_compute in F. discriminate F.
Defined.

Lemma solve_failure_returns_to_the_queue_witness :
  view (deps (now (Samples.idle Config.gemini))) = queue /\
  stored_config (now (Samples.idle Config.gemini))
  = Return (Samples.config_of Config.gemini) /\
  classified (replied (gemini_reply Samples.truncated_reply))
    (getLanguage (now (Samples.idle Config.gemini)))
  = Throw (Error blank_message) /\
  match
    continue (processScreenshots (now (Samples.idle Config.gemini)))
      (replied (gemini_reply Samples.truncated_reply))
      (now (Samples.idle Config.gemini))
  with
  | Some y =>
    exists st'' error,
      y = Done tt st'' /\
      solve_catch
        (Some (Config.apiProvider (Samples.config_of Config.gemini)))
        (Error blank_message)
      = failure error /\
      sent st'' =
      sent (now (Samples.idle Config.gemini))
      ++ [if names_credentials error then Send API_KEY_INVALID no_payload
          else Send INITIAL_SOLUTION_ERROR (error_text error)] /\
      view (deps st'') = queue /\
      problemInfo (deps st'')
      = problemInfo (deps (now (Samples.idle Config.gemini))) /\
      hasDebugged (deps st'')
      = hasDebugged (deps (now (Samples.idle Config.gemini))) /\
      screenshotHelper st''
      = screenshotHelper (now (Samples.idle Config.gemini))
  | None => False
  end.
Proof.
  assert (view (deps (now (Samples.idle Config.gemini))) = queue) as Hv
    by (vm_compute; reflexivity).
  assert (stored_config (now (Samples.idle Config.gemini))
          = Return (Samples.config_of Config.gemini)) as Hc
    by (vm_compute; reflexivity).
  assert (classified (replied (gemini_reply Samples.truncated_reply))
            (getLanguage (now (Samples.idle Config.gemini)))
          = Throw (Error blank_message)) as He
    by (vm_compute; reflexivity).
  split; [exact Hv|]. split; [exact Hc|]. split; [exact He|].
  destruct (continue (processScreenshots (now (Samples.idle Config.gemini)))
              (replied (gemini_reply Samples.truncated_reply))
              (now (Samples.idle Config.gemini))) as [y|] eqn:E.
  - exact (solve_failure_returns_to_the_queue
             (now (Samples.idle Config.gemini)) _
             (now (Samples.idle Config.gemini)) Hv Hc He E).
  - vm_compute in E. discriminate E.
Defined.

Lemma openai_http_errors_ask_for_the_key_witness :
  view (deps (now (Samples.idle Config.openai))) = queue /\
  stored_config (now (Samples.idle Config.openai))
  = Return (Samples.config_of Config.openai) /\
  Config.apiProvider (Samples.config_of Config.openai) = Config.openai /\
  is_cancel Cases.rate_limited = false /\
  response_status Cases.rate_limited = Some 429%N /\
  match
    reject (processScreenshots (now (Samples.idle Config.openai)))
      Cases.rate_limited (now (Samples.idle Config.openai))
  with
  | Some y =>
    exists st'',
      y = Done tt st'' /\
      sent st'' =
      sent (now (Samples.idle Config.openai))
      ++ [Send API_KEY_INVALID no_payload] /\
      view (deps st'') = queue
  | None => False
  end.
Proof.
  assert (view (deps (now (Samples.idle Config.openai))) = queue) as Hv
    by (vm_compute; reflexivity).
  assert (stored_config (now (Samples.idle Config.openai))
          = Return (Samples.config_of Config.openai)) as Hc
    by (vm_compute; reflexivity).
  assert (response_status Cases.rate_limited = Some 429%N) as Hs
    by reflexivity.
  repeat (split; [first [exact Hv | exact Hc | reflexivity]|]).
  destruct (reject (processScreenshots (now (Samples.idle Config.openai)))
              Cases.rate_limited (now (Samples.idle Config.openai)))
    as [y|] eqn:E.
  - exact (openai_http_errors_ask_for_the_key
             (now (Samples.idle Config.openai)) Cases.rate_limited
             (now (Samples.idle Config.openai)) Hv Hc eq_refl eq_refl
             (or_intror (or_introl Hs)) E).
  - vm_compute in E. discriminate E.
Defined.

Lemma gemini_extraction_errors_ask_for_the_key_witness :
  view (deps (now (Samples.idle Config.gemini))) = queue /\
  stored_config (now (Samples.idle Config.gemini))
  = Return (Samples.config_of Config.gemini) /\
  Config.apiProvider (Samples.config_of Config.gemini) = Config.gemini /\
  Gemini.extract Cases.blocked_reply
  = Throw (Error (lit "Empty response from Gemini API (SAFETY)")) /\
  match
    resume (processScreenshots (now (Samples.idle Config.gemini)))
      (gemini_reply Cases.blocked_reply) (now (Samples.idle Config.gemini))
  with
  | Some y =>
    exists st'',
      y = Done tt st'' /\
      sent st'' =
      sent (now (Samples.idle Config.gemini))
      ++ [Send API_KEY_INVALID no_payload] /\
      view (deps st'') = queue
  | None => False
  end.
Proof.
  assert (view (deps (now (Samples.idle Config.gemini))) = queue) as Hv
    by (vm_compute; reflexivity).
  assert (stored_config (now (Samples.idle Config.gemini))
          = Return (Samples.config_of Config.gemini)) as Hc
    by (vm_compute; reflexivity).
  assert (Gemini.extract Cases.blocked_reply
          = Throw (Error (lit "Empty response from Gemini API (SAFETY)")))
    as He by (vm_compute; reflexivity).
  split; [exact Hv|]. split; [exact Hc|]. split; [reflexivity|].
  split; [exact He|].
  destruct (resume (processScreenshots (now (Samples.idle Config.gemini)))
              (gemini_reply Cases.blocked_reply)
              (now (Samples.idle Config.gemini))) as [y|] eqn:E.
  - exact (gemini_extraction_errors_ask_for_the_key
             (now (Samples.idle Config.gemini)) Cases.blocked_reply
             (now (Samples.idle Config.gemini)) Hv Hc eq_refl He E).
  - vm_compute in E. discriminate E.
Defined.

Lemma debug_run_outcome_witness :
  view (deps (now (Samples.solved Config.gemini))) = solutions /\
  match
    continue (processScreenshots (now (Samples.solved Config.gemini)))
      (replied (gemini_reply Samples.gemini_answer))
      (now (Samples.solved Config.gemini))
  with
  | Some y =>
    exists st'',
      y = Done tt st'' /\
      view (deps st'') = view (deps (now (Samples.solved Config.gemini))) /\
      problemInfo (deps st'')
      = problemInfo (deps (now (Samples.solved Config.gemini))) /\
      screenshotHelper st''
      = screenshotHelper (now (Samples.solved Config.gemini)) /\
      match debug_text (replied (gemini_reply Samples.gemini_answer)) with
      | Some t =>
        sent st'' =
        sent (now (Samples.solved Config.gemini))
        ++ [Send processing_status
              (status_payload (lit "Debug analysis complete") 100);
            Send DEBUG_SUCCESS (debug_payload (Debug.format t))] /\
        hasDebugged (deps st'') = true
      | None =>
        exists error,
          (sent st'' =
           sent (now (Samples.solved Config.gemini))
           ++ [Send DEBUG_ERROR (error_text error)] \/
           sent st'' =
           sent (now (Samples.solved Config.gemini))
           ++ [Send processing_status
                 (status_payload (lit "Debug analysis complete") 100);
               Send DEBUG_ERROR (error_text error)]) /\
          hasDebugged (deps st'')
          = hasDebugged (deps (now (Samples.solved Config.gemini)))
      end
  | None => False
  end.
Proof.
  assert (view (deps (now (Samples.solved Config.gemini))) = solutions) as Hv
    by (vm_compute; reflexivity).
  split; [exact Hv|].
  destruct (continue (processScreenshots (now (Samples.solved Config.gemini)))
              (replied (gemini_reply Samples.gemini_answer))
              (now (Samples.solved Config.gemini))) as [y|] eqn:E.
  - exact (debug_run_outcome
             (now (Samples.solved Config.gemini)) _
             (now (Samples.solved Config.gemini)) Hv E).
  - vm_compute in E. discriminate E.
Defined.

Lemma missing_key_is_reported_witness :
  mainWindow (deps (Cases.keyless Config.openai))
  = Some {| isDestroyed := false |} /\
  stored_config (Cases.keyless Config.openai)
  = Return (Cases.without_key Config.openai) /\
  truthy (Config.apiKey (Cases.without_key Config.openai)) = false /\
  client_missing (Cases.without_key Config.openai)
    (clients (Cases.keyless Config.openai)) = true /\
  exists st1,
    processScreenshots (Cases.keyless Config.openai) = Done tt st1 /\
    sent st1
    = sent (Cases.keyless Config.openai) ++ [Send API_KEY_INVALID no_payload] /\
    clients st1 = no_clients /\
    controllers st1 = controllers (Cases.keyless Config.openai) /\
    deps st1 = deps (Cases.keyless Config.openai) /\
    screenshotHelper st1 = screenshotHelper (Cases.keyless Config.openai).
Proof.
  assert (mainWindow (deps (Cases.keyless Config.openai))
          = Some {| isDestroyed := false |}) as Hw
    by (vm_compute; reflexivity).
  assert (stored_config (Cases.keyless Config.openai)
          = Return (Cases.without_key Config.openai)) as Hc
    by (vm_compute; reflexivity).
  assert (truthy (Config.apiKey (Cases.without_key Config.openai)) = false)
    as Hk by (vm_compute; reflexivity).
  assert (client_missing (Cases.without_key Config.openai)
            (clients (Cases.keyless Config.openai)) = true) as Hm
    by (vm_compute; reflexivity).
  split; [exact Hw|]. split; [exact Hc|]. split; [exact Hk|].
  split; [exact Hm|].
  exact (missing_key_is_reported (Cases.keyless Config.openai) Hw Hc Hk Hm).
Defined.

Lemma nothing_to_process_is_reported_witness :
  mainWindow (deps (Cases.nothing_on_disk Config.anthropic))
  = Some {| isDestroyed := false |} /\
  stored_config (Cases.nothing_on_disk Config.anthropic)
  = Return (Samples.config_of Config.anthropic) /\
  client_missing (Samples.config_of Config.anthropic)
    (clients (Cases.nothing_on_disk Config.anthropic)) = false /\
  filter (existsSync (Cases.nothing_on_disk Config.anthropic))
    match view (deps (Cases.nothing_on_disk Config.anthropic)) with
    | queue =>
      screenshotQueue (screenshotHelper (Cases.nothing_on_disk Config.anthropic))
    | solutions =>
      extraScreenshotQueue
        (screenshotHelper (Cases.nothing_on_disk Config.anthropic))
    end = [] /\
  exists st1,
    processScreenshots (Cases.nothing_on_disk Config.anthropic) = Done tt st1 /\
    sent st1 =
    sent (Cases.nothing_on_disk Config.anthropic)
    ++ match view (deps (Cases.nothing_on_disk Config.anthropic)) with
       | queue =>
         [Send INITIAL_START no_payload; Send NO_SCREENSHOTS no_payload]
       | solutions => [Send NO_SCREENSHOTS no_payload]
       end /\
    clients st1 = clients (Cases.nothing_on_disk Config.anthropic) /\
    controllers st1 = controllers (Cases.nothing_on_disk Config.anthropic) /\
    deps st1 = deps (Cases.nothing_on_disk Config.anthropic) /\
    screenshotHelper st1
    = screenshotHelper (Cases.nothing_on_disk Config.anthropic).
Proof.
  assert (mainWindow (deps (Cases.nothing_on_disk Config.anthropic))
          = Some {| isDestroyed := false |}) as Hw
    by (vm_compute; reflexivity).
  assert (stored_config (Cases.nothing_on_disk Config.anthropic)
          = Return (Samples.config_of Config.anthropic)) as Hc
    by (vm_compute; reflexivity).
  assert (client_missing (Samples.config_of Config.anthropic)
            (clients (Cases.nothing_on_disk Config.anthropic)) = false) as Hm
    by (vm_compute; reflexivity).
  assert (filter (existsSync (Cases.nothing_on_disk Config.anthropic))
            match view (deps (Cases.nothing_on_disk Config.anthropic)) with
            | queue =>
              screenshotQueue
                (screenshotHelper (Cases.nothing_on_disk Config.anthropic))
            | solutions =>
              extraScreenshotQueue
                (screenshotHelper (Cases.nothing_on_disk Config.anthropic))
            end = []) as Hf
    by (vm_compute; reflexivity).
  split; [exact Hw|]. split; [exact Hc|]. split; [exact Hm|].
  split; [exact Hf|].
  exact (nothing_to_process_is_reported
           (Cases.nothing_on_disk Config.anthropic) Hw Hc Hm Hf).
Defined.

Lemma cancel_then_debug_fails_fast_witness :
  mainWindow (deps (now (Samples.solved Config.gemini)))
  = Some {| isDestroyed := false |} /\
  stored_config (now (Samples.solved Config.gemini))
  = Return (Samples.config_of Config.gemini) /\
  client_missing (Samples.config_of Config.gemini)
    (clients (now (Samples.solved Config.gemini))) = false /\
  view (deps (now (Samples.solved Config.gemini))) = solutions /\
  filter (existsSync (now (Samples.solved Config.gemini)))
    (extraScreenshotQueue (screenshotHelper (now (Samples.solved Config.gemini))))
  <> [] /\
  exists st1,
    processScreenshots (cancelOngoingRequests (now (Samples.solved Config.gemini)))
    = Done tt st1 /\
    sent st1 =
    sent (cancelOngoingRequests (now (Samples.solved Config.gemini)))
    ++ [Send DEBUG_START no_payload;
        Send DEBUG_ERROR (error_text (lit "No problem info available"))] /\
    hasDebugged (deps st1) = false.
Proof.
  assert (mainWindow (deps (now (Samples.solved Config.gemini)))
          = Some {| isDestroyed := false |}) as Hw
    by (vm_compute; reflexivity).
  assert (stored_config (now (Samples.solved Config.gemini))
          = Return (Samples.config_of Config.gemini)) as Hc
    by (vm_compute; reflexivity).
  assert (client_missing (Samples.config_of Config.gemini)
            (clients (now (Samples.solved Config.gemini))) = false) as Hm
    by (vm_compute; reflexivity).
  assert (view (deps (now (Samples.solved Config.gemini))) = solutions) as Hv
    by (vm_compute; reflexivity).
  assert (filter (existsSync (now (Samples.solved Config.gemini)))
            (extraScreenshotQueue
               (screenshotHelper (now (Samples.solved Config.gemini))))
          <> []) as Hf
    by (vm_compute; discriminate).
  split; [exact Hw|]. split; [exact Hc|]. split; [exact Hm|].
  split; [exact Hv|]. split; [exact Hf|].
  exact (cancel_then_debug_fails_fast
           (now (Samples.solved Config.gemini)) Hw Hc Hm Hv Hf).
Defined.

Lemma requests_carry_the_queued_screenshots_witness :
  match awaited (processScreenshots (now (Samples.solved Config.openai))) with
  | Some c =>
    images_of c
    = map (carried c)
        (map data
           (load_screenshots (now (Samples.solved Config.openai))
              match view (deps (now (Samples.solved Config.openai))) with
              | queue =>
                screenshotQueue
                  (screenshotHelper (now (Samples.solved Config.openai)))
              | solutions =>
                screenshotQueue
                  (screenshotHelper (now (Samples.solved Config.openai)))
                ++ extraScreenshotQueue
                     (screenshotHelper (now (Samples.solved Config.openai)))
              end))
  | None => False
  end.
Proof.
  destruct (awaited (processScreenshots (now (Samples.solved Config.openai))))
    as [c|] eqn:E.
  - exact (requests_carry_the_queued_screenshots
             (now (Samples.solved Config.openai)) E).
  - vm_compute in E. discriminate E.
Defined.

Lemma at_most_one_live_client_ever_witness :
  match
    run_actions
      [call_processScreenshots;
       config_updated (Return (Samples.config_of Config.openai));
       settle_gemini 0 (Return Samples.gemini_answer);
       call_cancelOngoingRequests]
      {| now :=
           constructed (Return (Samples.config_of Config.gemini))
             (Samples.session_in queue None) Samples.one_shot;
         in_flight := [] |}
  with
  | Some sys => live_clients (clients (now sys)) <= 1
  | None => False
  end.
Proof.
  destruct (run_actions
              [call_processScreenshots;
               config_updated (Return (Samples.config_of Config.openai));
               settle_gemini 0 (Return Samples.gemini_answer);
               call_cancelOngoingRequests]
              {| now :=
                   constructed (Return (Samples.config_of Config.gemini))
                     (Samples.session_in queue None) Samples.one_shot;
                 in_flight := [] |}) as [sys|] eqn:E.
  - exact (at_most_one_live_client_ever _ _ _ _ E).
  - vm_compute in E. discriminate E.
Defined.

Lemma later_thoughts_keep_their_marker_witness :
  nth_error (Debug.thoughts (Debug.format (lit "- first
- second"))) 1 = Some (lit "- second") /\
  exists x r,
    lit "- second" = x :: r /\
    (Debug.bullet x = true \/ Debug.digit x = true).
Proof.
  assert (H : nth_error (Debug.thoughts (Debug.format (lit "- first
- second"))) 1 = Some (lit "- second")) by (vm_compute; reflexivity).
  split; [exact H|].
  exact (proj2 (proj2 (later_thoughts_keep_their_marker (lit "- first
- second"))) 0 (lit "- second") H).
Defined.

Lemma complexity_is_wrapped_unless_it_holds_a_big_o_witness :
  Renderer.formatComplexity (Some (lit "about O(n log n)"))
  = lit "about O(n log n)" /\
  Renderer.formatComplexity (Some (lit "linear")) = lit "O(linear)".
Proof.
  split.
  - apply (complexity_is_wrapped_unless_it_holds_a_big_o
             (lit "about O(n log n)")).
    + vm_compute. discriminate.
    + apply test_bigO. vm_compute. reflexivity.
  - apply (complexity_is_wrapped_unless_it_holds_a_big_o (lit "linear")).
    + vm_compute. discriminate.
    + intros H. apply test_bigO in H. vm_compute in H. discriminate H.
Defined.

Lemma classified_answer_on_screen_witness :
  match formatDirectResponse Samples.fence_and_label (lit "java") with
  | Return (resp, info) =>
    Renderer.questionType Views.blank_view = Some (lit "math") /\
    Renderer.questionType
      (Renderer.shown
         (Renderer.onSolutionSuccess (Some resp) Views.first_answer))
    = None
  | Throw _ => False
  end.
Proof.
  destruct (formatDirectResponse Samples.fence_and_label (lit "java"))
    as [[resp info]|e] eqn:E; [|vm_compute in E; discriminate E].
  split; [reflexivity|].
  exact (proj1 (proj2 (proj2 (proj2
           (classified_answer_on_screen Samples.fence_and_label (lit "java")
              Views.first_answer E))))).
Defined.

Lemma gemini_endpoint_drops_one_trailing_slash_witness :
  Gemini.endpoint (Some (lit "https://proxy.example/v1beta/"))
    (Samples.config_of Config.gemini) (lit "key")
  = lit "https://proxy.example/v1beta" ++ lit "/models/"
    ++ Config.geminiModel (Samples.config_of Config.gemini)
    ++ lit ":generateContent?key=" ++ lit "key".
Proof.
  refine (proj1 (proj2
    (@gemini_endpoint_drops_one_trailing_slash
       (lit "https://proxy.example/v1beta")
       (Samples.config_of Config.gemini) (lit "key") _ _))).
  - vm_compute. discriminate.
  - intros r H. apply (f_equal (@rev char)) in H.
    rewrite rev_app_distr in H. vm_compute in H. discriminate H.
Defined.

Lemma classified_answers_are_well_formed_witness :
  match formatDirectResponse Samples.labelled_reply (lit "python") with
  | Return (resp, info) =>
    ProblemInfo.raw_response info = trim Samples.labelled_reply
  | Throw _ => False
  end.
Proof.
  destruct (formatDirectResponse Samples.labelled_reply (lit "python"))
    as [[resp info]|e] eqn:E; [|vm_compute in E; discriminate E].
  exact (proj1 (proj2 (classified_answers_are_well_formed
                         Samples.labelled_reply (lit "python") E))).
Defined.

Lemma question_type_stays_allowed_witness :
  Renderer.allowed (Renderer.questionType Views.blank_view) /\
  Renderer.questionType
    (Renderer.applySolutionState (Some Views.coding_solution)
       Views.blank_view) = Some (lit "coding") /\
  Renderer.allowed
    (Renderer.questionType
       (Renderer.applySolutionState (Some Views.coding_solution)
          Views.blank_view)).
Proof.
  assert (H : Renderer.allowed (Renderer.questionType Views.blank_view)).
  { cbn [Renderer.allowed Renderer.questionType Views.blank_view].
    unfold Renderer.allowedQuestionTypes. cbn [In].
    do 4 right. left. reflexivity. }
  split; [exact H|]. split; [vm_compute; reflexivity|].
  exact (proj1 (question_type_stays_allowed (Some Views.coding_solution)
                  Views.blank_view H)).
Defined.
